(** * Reasoning-chain pipeline: parser, detectors and secondary scorer

    A shallow embedding of [reasoner/models.py], [reasoner/parser.py],
    [reasoner/analyzer.py], [reasoner/ml_suggestions.py],
    [reasoner/suggestions.py] and [main.py], followed by the properties of
    the pipeline.

    Modelling conventions.
    - A Python [str] is a [string]; the embedding is exact for ASCII text
      (code points below 128).  Bytes from 128 up are kept as opaque
      characters that are neither whitespace, digits, nor cased.
    - A Python [int] is a [Z]; a Python [float] is a rational [Q] (the only
      float arithmetic in the sources is [*], [-], [/], [min], [abs] and
      comparisons on small literals).
    - A Python [set] of strings is a [gset string].
    - The exceptions that the sources can raise ([StopIteration] from
      [next(...)], [IndexError] from list indexing, [ZeroDivisionError]
      from [/]) are values of an error monad [result].
    - spaCy and TextBlob are external libraries: the pipeline takes the
      tokenizer as the section variable [nlp] and the sentiment scorer as
      [polarity].  The eight regular expressions of the emotional-reasoning
      detector are run by a small derivative matcher.
    - rich is an external library too: what [display_analysis] prints is
      the list of the strings handed to [console.print], and the markup
      parser that can reject such a string is the parameter [markup_ok] of
      [printed]. *)

From Stdlib Require Import String Ascii ZArith QArith Qabs Lqa List Bool Lia DecimalString.
From stdpp Require Import gmap strings list.

Open Scope string_scope.
Open Scope list_scope.
Open Scope Z_scope.

(** ** Python string primitives *)

Module PyStr.

(** [str.isspace] on ASCII: TAB..CR, FS..US and the blank. *)
Definition is_space (c : ascii) : bool :=
  let n := nat_of_ascii c in
  ((9 <=? n)%nat && (n <=? 13)%nat) || ((28 <=? n)%nat && (n <=? 32)%nat).

(** [\d] on ASCII. *)
Definition is_digit (c : ascii) : bool :=
  let n := nat_of_ascii c in (48 <=? n)%nat && (n <=? 57)%nat.

(** [\w] on ASCII: letters, digits and the underscore. *)
Definition is_word (c : ascii) : bool :=
  let n := nat_of_ascii c in
  is_digit c || ((65 <=? n)%nat && (n <=? 90)%nat)
  || ((97 <=? n)%nat && (n <=? 122)%nat) || (n =? 95)%nat.

Definition lower_char (c : ascii) : ascii :=
  let n := nat_of_ascii c in
  if (65 <=? n)%nat && (n <=? 90)%nat then ascii_of_nat (n + 32) else c.

(** [s.lower()] *)
Fixpoint lower (s : string) : string :=
  match s with
  | EmptyString => EmptyString
  | String c r => String (lower_char c) (lower r)
  end.

Definition is_empty (s : string) : bool :=
  match s with EmptyString => true | String _ _ => false end.

(** Truthiness of a string: [if s:]. *)
Definition truthy (s : string) : bool := negb (is_empty s).

Fixpoint lstrip_by (p : ascii -> bool) (s : string) : string :=
  match s with
  | EmptyString => EmptyString
  | String c r => if p c then lstrip_by p r else s
  end.

Fixpoint rstrip_by (p : ascii -> bool) (s : string) : string :=
  match s with
  | EmptyString => EmptyString
  | String c r =>
      let r' := rstrip_by p r in
      if p c && is_empty r' then EmptyString else String c r'
  end.

(** [s.strip()] *)
Definition strip (s : string) : string :=
  rstrip_by is_space (lstrip_by is_space s).

Fixpoint mem_char (c : ascii) (chars : string) : bool :=
  match chars with
  | EmptyString => false
  | String d r => Ascii.eqb c d || mem_char c r
  end.

(** [s.strip(chars)] *)
Definition strip_chars (chars s : string) : string :=
  rstrip_by (fun c => mem_char c chars) (lstrip_by (fun c => mem_char c chars) s).

(** [s.startswith(p)] *)
Fixpoint startswith (p s : string) : bool :=
  match p, s with
  | EmptyString, _ => true
  | String _ _, EmptyString => false
  | String a p', String b s' => Ascii.eqb a b && startswith p' s'
  end.

(** [sub in s] *)
Fixpoint contains (sub s : string) : bool :=
  startswith sub s ||
  match s with
  | EmptyString => false
  | String _ r => contains sub r
  end.

(** [s[n:]] *)
Fixpoint drop_chars (n : nat) (s : string) : string :=
  match n, s with
  | O, _ => s
  | S _, EmptyString => EmptyString
  | S k, String _ r => drop_chars k r
  end.

(** Prepend a character to the first piece of a split. *)
Definition cons_first (c : ascii) (pieces : list string) : list string :=
  match pieces with
  | h :: t => String c h :: t
  | [] => [String c EmptyString]
  end.

(** [s.split(sep)] for a one-character separator. *)
Fixpoint split_on (sep : ascii) (s : string) : list string :=
  match s with
  | EmptyString => [EmptyString]
  | String c r =>
      if Ascii.eqb c sep then EmptyString :: split_on sep r
      else cons_first c (split_on sep r)
  end.

(** [s.split()]: the maximal runs of non-whitespace characters. *)
Fixpoint split (s : string) : list string :=
  match s with
  | EmptyString => []
  | String c r =>
      if is_space c then split r
      else match r with
           | EmptyString => [String c EmptyString]
           | String c' _ =>
               if is_space c' then String c EmptyString :: split r
               else cons_first c (split r)
           end
  end.

(** [s.split(sep, 1)] for a non-empty separator: cut at the first
    occurrence of [sep], or return [s] alone. *)
Fixpoint split_max1 (sep s : string) : list string :=
  if startswith sep s then [EmptyString; drop_chars (String.length sep) s]
  else match s with
       | EmptyString => [EmptyString]
       | String c r => cons_first c (split_max1 sep r)
       end.

(** [s.replace(old, new)] for a non-empty [old]; [skip] counts the
    characters of a match that is being consumed. *)
Fixpoint replace_from (old new s : string) (skip : nat) : string :=
  match s with
  | EmptyString => EmptyString
  | String c r =>
      match skip with
      | S k => replace_from old new r k
      | O =>
          if startswith old s
          then String.append new (replace_from old new r (String.length old - 1))
          else String c (replace_from old new r 0)
      end
  end.

Definition replace (old new s : string) : string := replace_from old new s 0.

(** [sep.join(pieces)] *)
Fixpoint join (sep : string) (pieces : list string) : string :=
  match pieces with
  | [] => EmptyString
  | [p] => p
  | p :: rest => String.append p (String.append sep (join sep rest))
  end.

(** [str(n)] / [f"{n}"] for an integer. *)
Definition of_int (n : Z) : string := NilZero.string_of_int (Z.to_int n).

(** [any(t in s for t in terms)] *)
Definition any_in (terms : list string) (s : string) : bool :=
  existsb (fun t => contains t s) terms.

End PyStr.

Import PyStr.

(** ** [reasoner/models.py] *)

Inductive StepType := PREMISE | CONCLUSION | EVIDENCE | ASSUMPTION.

Inductive RelationshipType := SUPPORTS | CONTRADICTS | QUESTIONS | ELABORATES.

Definition StepType_eqb (a b : StepType) : bool :=
  match a, b with
  | PREMISE, PREMISE | CONCLUSION, CONCLUSION
  | EVIDENCE, EVIDENCE | ASSUMPTION, ASSUMPTION => true
  | _, _ => false
  end.

Definition RelationshipType_eqb (a b : RelationshipType) : bool :=
  match a, b with
  | SUPPORTS, SUPPORTS | CONTRADICTS, CONTRADICTS
  | QUESTIONS, QUESTIONS | ELABORATES, ELABORATES => true
  | _, _ => false
  end.

Record ReasoningStep := mkStep {
  step_id : Z;                        (* id *)
  text : string;
  step_type : StepType;
  step_confidence : Q;                (* confidence, default 1.0 *)
  metadata : list (string * string)   (* default {} *)
}.

Record Relationship := mkRel {
  source_id : Z;
  target_id : Z;
  rel_type : RelationshipType;
  rel_confidence : Q                  (* confidence, default 1.0 *)
}.

Record ReasoningChain := mkChain {
  steps : list ReasoningStep;
  relationships : list Relationship
}.

Definition empty_chain : ReasoningChain := mkChain [] [].

(** [ReasoningChain.add_step]: the mutated chain and the new step. *)
Definition add_step (self : ReasoningChain) (t : string) (ty : StepType)
  : ReasoningChain * ReasoningStep :=
  let new_id := Z.of_nat (List.length (steps self)) + 1 in
  let step := mkStep new_id t ty 1 [] in
  (mkChain (steps self ++ [step]) (relationships self), step).

(** [ReasoningChain.add_relationship] *)
Definition add_relationship (self : ReasoningChain) (src tgt : Z)
    (ty : RelationshipType) : ReasoningChain * Relationship :=
  let rel := mkRel src tgt ty 1 in
  (mkChain (steps self) (relationships self ++ [rel]), rel).

(** [ReasoningChain.get_step] *)
Definition get_step (self : ReasoningChain) (i : Z) : option ReasoningStep :=
  List.find (fun s => step_id s =? i) (steps self).

(** [ReasoningChain.get_relationships] *)
Definition get_relationships (self : ReasoningChain) (i : Z) : list Relationship :=
  List.filter (fun r => (source_id r =? i) || (target_id r =? i)) (relationships self).

(** ** Exceptions *)

Inductive exn := StopIteration | IndexError | ZeroDivisionError.

Inductive result (A : Type) : Type :=
| Ok (a : A)
| Raise (e : exn).
Arguments Ok {A} a.
Arguments Raise {A} e.

Definition bind {A B} (m : result A) (k : A -> result B) : result B :=
  match m with
  | Ok a => k a
  | Raise e => Raise e
  end.

Notation "'let!' x ':=' m 'in' k" := (bind m (fun x => k))
  (at level 10, x name, m at level 100, k at level 200).

(** [try: body except IndexError: handler] *)
Definition catch_IndexError {A} (body : result A) (handler : result A) : result A :=
  match body with
  | Raise IndexError => handler
  | other => other
  end.

(** [l[i]] with Python's negative indices. *)
Definition py_index {A} (l : list A) (i : Z) : result A :=
  let n := Z.of_nat (List.length l) in
  let j := if i <? 0 then n + i else i in
  if (0 <=? j) && (j <? n)
  then match nth_error l (Z.to_nat j) with
       | Some x => Ok x
       | None => Raise IndexError
       end
  else Raise IndexError.

(** [a / b] on integers (true division). *)
Definition py_div (a b : Z) : result Q :=
  if b =? 0 then Raise ZeroDivisionError else Ok (Qmake a (Z.to_pos b)).

(** [next(x for x in l if p x)] *)
Definition py_next {A} (p : A -> bool) (l : list A) : result A :=
  match List.find p l with
  | Some x => Ok x
  | None => Raise StopIteration
  end.

(** [any(f x for x in l)] where [f] may raise: stops at the first [True]. *)
Fixpoint anyM {A} (f : A -> result bool) (l : list A) : result bool :=
  match l with
  | [] => Ok false
  | x :: rest => let! b := f x in if b then Ok true else anyM f rest
  end.

(** A [for] loop over [l] whose body updates the accumulator and may raise. *)
Fixpoint forM {A S} (l : list A) (body : S -> A -> result S) (acc : S) : result S :=
  match l with
  | [] => Ok acc
  | x :: rest => let! acc' := body acc x in forM rest body acc'
  end.

(** [enumerate(l, start)] *)
Fixpoint enumerate {A} (start : Z) (l : list A) : list (Z * A) :=
  match l with
  | [] => []
  | x :: rest => (start, x) :: enumerate (start + 1) rest
  end.

(** [range(n)] *)
Definition range (n : Z) : list Z := map Z.of_nat (seq 0 (Z.to_nat n)).

Definition len {A} (l : list A) : Z := Z.of_nat (List.length l).

Definition Qlt_bool (a b : Q) : bool := negb (Qle_bool b a).

Definition Qmin_py (a b : Q) : Q := if Qlt_bool b a then b else a.

(** ** The tokenizer interface *)

Record Token := mkToken {
  tok_text : string;   (* token.text *)
  lemma_ : string;
  is_stop : bool;
  is_punct : bool
}.

(** [not token.is_stop and not token.is_punct] *)
Definition meaningful (t : Token) : bool := negb (is_stop t) && negb (is_punct t).

(** ** [reasoner/parser.py] *)

Definition newline : ascii := ascii_of_nat 10.

(** [re.sub(r'^\s*\d+[.)]\s*', '', line)]: the pattern is anchored, so at
    most one match is replaced; whitespace, digits and the two marker
    characters are pairwise disjoint, so the greedy match is the only one. *)
Definition sub_leading_ordinal (line : string) : string :=
  let s1 := lstrip_by is_space line in
  let s2 := lstrip_by is_digit s1 in
  if (String.length s2 <? String.length s1)%nat
  then match s2 with
       | String c r =>
           if Ascii.eqb c "." || Ascii.eqb c ")" then lstrip_by is_space r else line
       | EmptyString => line
       end
  else line.

Definition conclusion_indicators : list string :=
  ["therefore"; "so"; "thus"; "hence"; "as a result"].

Definition evidence_indicators : list string :=
  ["because"; "since"; "as"; "due to"].

Definition negations : list string :=
  ["no"; "not"; "never"; "none"; "nobody"; "nothing"; "nowhere"; "neither"; "nor"].

Section Parser.

Variable nlp : string -> list Token.

(** [ReasoningParser._determine_step_type] *)
Definition determine_step_type (t : string) : StepType :=
  let text_lower := lower t in
  if any_in conclusion_indicators text_lower then CONCLUSION
  else if any_in evidence_indicators text_lower then EVIDENCE
  else PREMISE.

(** [set(token.text for token in doc if not token.is_stop and not token.is_punct)] *)
Definition text_set (doc : list Token) : gset string :=
  list_to_set (map tok_text (List.filter meaningful doc)).

(** [any(neg in words for neg in negations)] *)
Definition has_neg (words : gset string) : bool :=
  existsb (fun neg => bool_decide (neg ∈ words)) negations.

(** [ReasoningParser._are_contradictory] *)
Definition are_contradictory (text1 text2 : string) : bool :=
  let doc1 := nlp (lower text1) in
  let doc2 := nlp (lower text2) in
  let words1 := text_set doc1 in
  let words2 := text_set doc2 in
  let has_neg1 := has_neg words1 in
  let has_neg2 := has_neg words2 in
  if negb (Bool.eqb has_neg1 has_neg2)
  then
    let common_words := words1 ∩ words2 in
    if (2 <=? size common_words)%nat then true else false
  else false.

(** The body of the inner loop of [_analyze_relationships]. *)
Definition relate_pair (step1 : ReasoningStep) (chain : ReasoningChain)
    (js : Z * ReasoningStep) : ReasoningChain :=
  let '(_, step2) := js in
  if are_contradictory (text step1) (text step2)
  then fst (add_relationship chain (step_id step1) (step_id step2) CONTRADICTS)
  else chain.

(** The body of the outer loop: the inner loop runs over
    [enumerate(chain.steps[i+1:], i+1)]. *)
Definition relate_from (chain : ReasoningChain) (ix : Z * ReasoningStep)
  : ReasoningChain :=
  let '(i, step1) := ix in
  fold_left (relate_pair step1)
    (enumerate (i + 1) (List.skipn (Z.to_nat (i + 1)) (steps chain)))
    chain.

(** [ReasoningParser._analyze_relationships] *)
Definition analyze_relationships (chain : ReasoningChain) : ReasoningChain :=
  fold_left relate_from (enumerate 0 (steps chain)) chain.

(** The body of the loop of [parse_text]. *)
Definition add_line (chain : ReasoningChain) (line : string) : ReasoningChain :=
  let content := strip (sub_leading_ordinal line) in
  if truthy content
  then fst (add_step chain content (determine_step_type content))
  else chain.

(** [ReasoningParser.parse_text] *)
Definition parse_text (t : string) : ReasoningChain :=
  let chain := empty_chain in
  let lines :=
    map strip (List.filter (fun line => truthy (strip line)) (split_on newline t)) in
  let chain := fold_left add_line lines chain in
  analyze_relationships chain.

End Parser.

(** ** Regular expressions

    The constructs used by the patterns of [analyzer.py]: literals,
    alternation, [.] (any character but the newline), [\w], [*] and [+].
    [re.search] succeeds when some substring of the subject is in the
    language of the pattern, which a derivative matcher decides. *)

Inductive regex :=
| Fail
| Eps
| Class (p : ascii -> bool)
| Seq (a b : regex)
| Alt (a b : regex)
| Star (a : regex).

Fixpoint nullable (r : regex) : bool :=
  match r with
  | Fail => false
  | Eps => true
  | Class _ => false
  | Seq a b => nullable a && nullable b
  | Alt a b => nullable a || nullable b
  | Star _ => true
  end.

Definition mkSeq (a b : regex) : regex :=
  match a, b with
  | Fail, _ => Fail
  | _, Fail => Fail
  | Eps, _ => b
  | _, _ => Seq a b
  end.

Definition mkAlt (a b : regex) : regex :=
  match a, b with
  | Fail, _ => b
  | _, Fail => a
  | _, _ => Alt a b
  end.

Fixpoint deriv (c : ascii) (r : regex) : regex :=
  match r with
  | Fail => Fail
  | Eps => Fail
  | Class p => if p c then Eps else Fail
  | Seq a b => mkAlt (mkSeq (deriv c a) b) (if nullable a then deriv c b else Fail)
  | Alt a b => mkAlt (deriv c a) (deriv c b)
  | Star a => mkSeq (deriv c a) (Star a)
  end.

Fixpoint full_match (r : regex) (s : string) : bool :=
  match s with
  | EmptyString => nullable r
  | String c rest => full_match (deriv c r) rest
  end.

Definition any_char : regex := Class (fun _ => true).

(** [re.search(r, s) is not None] *)
Definition re_search (r : regex) (s : string) : bool :=
  full_match (Seq (Star any_char) (Seq r (Star any_char))) s.

Fixpoint lit (s : string) : regex :=
  match s with
  | EmptyString => Eps
  | String c rest => Seq (Class (Ascii.eqb c)) (lit rest)
  end.

(** [(?:a|b|...)] *)
Definition alts (l : list string) : regex :=
  fold_right (fun s r => Alt (lit s) r) Fail l.

Definition cat (l : list regex) : regex := fold_right Seq Eps l.

(** [.*] *)
Definition dot_star : regex := Star (Class (fun c => negb (Ascii.eqb c newline))).

(** [\w+] *)
Definition word_plus : regex := Seq (Class is_word) (Star (Class is_word)).

(** ** Issues

    The dictionaries built by the detectors and by the scorer; a key that a
    dictionary does not have is [None].  No detector writes the key [step],
    which [main.py] and [display_suggestions] read with a default. *)

Record Issue := mkIssue {
  issue_type : string;                  (* "type" *)
  description : string;
  step : option Z;
  step_ids : option (list Z);
  details : option (string * string);   (* statement_1, statement_2 *)
  severity : string;
  confidence : option Q;
  suggestions : option (list string)
}.

Definition is_nil {A} (l : list A) : bool :=
  match l with [] => true | _ :: _ => false end.

(** Truthiness of a set. *)
Definition set_truthy (s : gset string) : bool := negb (Nat.eqb (size s) 0).

Definition size_Z (s : gset string) : Z := Z.of_nat (size s).

(** [x in l] for a list of strings. *)
Definition mem_str (x : string) (l : list string) : bool :=
  existsb (String.eqb x) l.

(** [b1 or b2] on computations that may raise. *)
Definition orelse (m1 m2 : result bool) : result bool :=
  let! b := m1 in if b then Ok true else m2.

(** ** [reasoner/analyzer.py] *)

Definition casual_terms : list string :=
  ["eat"; "dinner"; "lunch"; "breakfast"; "snack"; "drink";
   "sleep"; "rest"; "walk"; "watch"; "read"; "listen"; "i feel";
   "i think"; "i believe"; "i want"; "i need"; "i would like";
   "let's"; "maybe"; "perhaps"; "i'm thinking"; "i guess"].

Definition academic_terms : list string :=
  ["study"; "exam"; "test"; "homework"; "assignment"; "class";
   "course"; "learn"; "review"; "practice"; "problem"; "solve";
   "task"; "project"; "due"; "deadline"; "plan"; "schedule";
   "research"; "paper"; "thesis"; "dissertation"].

Definition logical_indicators : list string :=
  ["therefore"; "thus"; "hence"; "consequently"; "as a result";
   "because"; "since"; "given that"; "this implies"; "it follows that"].

Definition plan_terms : list string := ["i'll"; "i will"; "plan to"; "going to"].

Definition assumption_indicators : list (string * Q) :=
  [("must", 9 # 10); ("should", 7 # 10); ("have to", 6 # 10);
   ("need to", 5 # 10); ("ought to", 8 # 10); ("always", 9 # 10);
   ("never", 9 # 10)]%Q.

Definition softening_phrases : list string :=
  ["i should"; "we should"; "you should"; "one should";
   "i must"; "we must"; "you must"; "one must";
   "i have to"; "we have to"; "you have to"].

Definition conditional_markers : list string := ["if "; "when "; "unless "].

(** The eighth phrase holds the two code points U+00C2 U+00B0 of the source
    literal, here in UTF-8.  The code tests the phrases against the
    lowercased text, and Python's [lower] maps U+00C2 to U+00E2, so in the
    code this phrase matches no text; [lower] of this file changes ASCII
    letters only, so here it matches a text that holds these four bytes.
    The two agree on ASCII text. *)
Definition common_knowledge_phrases : list string :=
  ["the sky is blue"; "water is wet"; "the earth is round";
   "humans need oxygen"; "the sun rises in the east"; "2+2=4";
   "paris is the capital of france";
   "water freezes at 0" +:+
     String (ascii_of_nat 195) (String (ascii_of_nat 130)
       (String (ascii_of_nat 194) (String (ascii_of_nat 176) "c")));
   "the sun is a star"; "humans are mortal"].

(** [ReasoningAnalyzer._is_common_knowledge] *)
Definition is_common_knowledge (t : string) : bool :=
  let text_lower := strip (strip_chars "." (lower t)) in
  any_in common_knowledge_phrases text_lower.

Definition support_suggestions : list string :=
  ["What evidence or reasoning leads you to this conclusion?";
   "Are there any assumptions that should be made explicit?";
   "Could you add a step explaining why this follows from previous statements?"].

Definition planning_suggestions : list string :=
  ["Have you considered potential obstacles to this plan?";
   "What alternatives did you consider before reaching this decision?";
   "Are there any dependencies between your tasks that should be addressed?"].

Definition assumption_suggestions : list string :=
  ["What makes you think this is necessary or true?";
   "Are there situations where this might not apply?";
   "Could you explain the reasoning behind this statement?"].

Definition consider_adding_support (s : ReasoningStep) : Issue :=
  mkIssue "consider_adding_support"
    ("This conclusion might benefit from more support: '" +:+ text s +:+ "'")
    None None None "low" None (Some support_suggestions).

Definition planning_analysis : Issue :=
  mkIssue "planning_analysis"
    "This appears to be a planning or decision-making process"
    None None None "info" None (Some planning_suggestions).

Definition potential_assumption (s : ReasoningStep) (conf : Q) : Issue :=
  mkIssue "potential_assumption"
    ("This statement might contain an assumption: '" +:+ text s +:+ "'")
    None None None "low" (Some conf) (Some assumption_suggestions).

(** The loop over [assumption_indicators] for one step: [continue] moves to
    the next indicator, [break] leaves the loop after the first issue. *)
Fixpoint scan_assumption_indicators (s : ReasoningStep) (text_lower : string)
    (indicators : list (string * Q)) : list Issue :=
  match indicators with
  | [] => []
  | (indicator, conf) :: rest =>
      if contains indicator text_lower then
        if any_in softening_phrases text_lower
        then scan_assumption_indicators s text_lower rest
        else if any_in conditional_markers text_lower
        then scan_assumption_indicators s text_lower rest
        else [potential_assumption s conf]
      else scan_assumption_indicators s text_lower rest
  end.

(** The body of the last loop of [_find_unsupported_claims]. *)
Definition assumption_issues (s : ReasoningStep) : list Issue :=
  scan_assumption_indicators s (lower (text s)) assumption_indicators.

(** [r.target_id == step.id and r.rel_type == RelationshipType.SUPPORTS] *)
Definition supports_into (s : ReasoningStep) (r : Relationship) : bool :=
  (target_id r =? step_id s) && RelationshipType_eqb (rel_type r) SUPPORTS.

(** The body of the first loop of [_find_unsupported_claims]. *)
Definition support_issues (chain : ReasoningChain) (s : ReasoningStep) : list Issue :=
  if StepType_eqb (step_type s) CONCLUSION && negb (is_common_knowledge (text s))
  then
    let supporting_relationships :=
      List.filter (supports_into s) (relationships chain) in
    let is_logical_step := any_in logical_indicators (lower (text s)) in
    if is_nil supporting_relationships && negb is_logical_step
    then [consider_adding_support s]
    else []
  else [].

(** [ReasoningAnalyzer._find_unsupported_claims] *)
Definition find_unsupported_claims (chain : ReasoningChain) : list Issue :=
  let issues := [] in
  let all_text := join " " (map (fun s => lower (text s)) (steps chain)) in
  let conclusion_steps :=
    List.filter (fun s => StepType_eqb (step_type s) CONCLUSION) (steps chain) in
  let is_plan :=
    existsb (fun s => any_in plan_terms (lower (text s))) conclusion_steps in
  let is_casual := any_in casual_terms all_text in
  let is_academic := any_in academic_terms all_text in
  let issues :=
    if negb (is_casual && negb is_academic) && negb is_plan
    then
      issues ++ flat_map (support_issues chain) (steps chain)
    else issues in
  let issues :=
    if is_plan && (1 <? len (steps chain))
    then issues ++ [planning_analysis]
    else issues in
  issues ++ flat_map assumption_issues (steps chain).

Definition generalization_indicators : list (string * Q) :=
  [("all ", 9 # 10); ("every ", 9 # 10); ("always ", 8 # 10); ("never ", 8 # 10);
   ("no one", 9 # 10); ("everyone", 9 # 10); ("nobody", 9 # 10);
   ("everybody", 9 # 10); ("everything", 7 # 10); ("nothing", 7 # 10);
   ("always ", 8 # 10); ("never ", 8 # 10)]%Q.

Definition common_sayings : list string :=
  ["all of the above"; "all right"; "all the time";
   "all in all"; "every now and then"; "every time"].

Definition hasty_generalization (s : ReasoningStep) (conf : Q) : Issue :=
  mkIssue "hasty_generalization"
    ("Potential hasty generalization: '" +:+ text s +:+ "'")
    None (Some [step_id s]) None "medium" (Some conf)
    (Some ["Could you provide evidence or examples to support this generalization?";
           "Consider using qualifiers like 'some', 'many', or 'often' if appropriate"]).

(** [ReasoningAnalyzer._find_hasty_generalizations]: the inner loop has no
    [break]. *)
Definition find_hasty_generalizations (chain : ReasoningChain) : list Issue :=
  flat_map
    (fun s =>
       let text_lower := lower (text s) in
       if any_in common_sayings text_lower then []
       else
         flat_map
           (fun '(indicator, conf) =>
              if contains indicator text_lower then
                let is_logical :=
                  any_in ["all "; "every "; "no "; "some "] text_lower
                  && any_in [" are "; " is "; " have "; " has "] text_lower in
                let supporting_relationships :=
                  List.filter (supports_into s) (relationships chain) in
                if is_nil supporting_relationships && negb is_logical
                then [hasty_generalization s conf]
                else []
              else [])
           generalization_indicators)
    (steps chain).

Definition contradiction (rel : Relationship) (source target : ReasoningStep) : Issue :=
  mkIssue "contradiction"
    ("Contradiction between steps " +:+ of_int (source_id rel) +:+ " and "
       +:+ of_int (target_id rel))
    None (Some [source_id rel; target_id rel])
    (Some (text source, text target)) "high" None None.

(** The body of the loop of [_find_contradictions]. *)
Definition report_contradiction (chain : ReasoningChain) (issues : list Issue)
    (rel : Relationship) : result (list Issue) :=
  if RelationshipType_eqb (rel_type rel) CONTRADICTS then
    let! source := py_next (fun s => step_id s =? source_id rel) (steps chain) in
    let! target := py_next (fun s => step_id s =? target_id rel) (steps chain) in
    Ok (issues ++ [contradiction rel source target])
  else Ok issues.

(** [ReasoningAnalyzer._find_contradictions] *)
Definition find_contradictions (chain : ReasoningChain) : result (list Issue) :=
  forM (relationships chain) (report_contradiction chain) [].

Definition circular_issue (desc : string) (a b : Z) (sugg : list string) : Issue :=
  mkIssue "circular_reasoning" desc None (Some [a; b]) None "high" None (Some sugg).

Definition pronouns : list string := ["it"; "they"; "he"; "she"; "this"; "that"].

Definition emotional_words : list string :=
  ["happy"; "sad"; "angry"; "afraid"; "scared"; "worried"; "anxious";
   "excited"; "nervous"; "frustrated"; "disappointed"; "proud";
   "ashamed"; "guilty"; "jealous"; "lonely"; "hopeful"; "hopeless";
   "hate"; "love"; "terrified"; "furious"; "ecstatic"; "miserable";
   "awful"; "wonderful"; "terrible"; "horrible"; "amazing"; "perfect";
   "dreadful"; "fantastic"; "devastated"; "heartbroken"; "thrilled";
   "i feel"; "i'm afraid"; "i'm worried"; "i'm scared"; "i'm excited";
   "i'm happy"; "i'm sad"; "i think"; "i believe"; "i know"; "i hope";
   "i wish"; "i want"; "i need"; "i can't stand"; "i can't handle";
   "i'm certain"; "i'm sure"; "i'm convinced"].

Definition strong_emotion_words : list string :=
  ["hate"; "love"; "terrified"; "furious"; "ecstatic"; "miserable";
   "awful"; "wonderful"; "terrible"; "horrible"; "amazing"; "perfect";
   "dreadful"; "fantastic"; "devastated"; "heartbroken"; "thrilled";
   "definitely"; "certainly"; "absolutely"].

Definition feel_think_believe : regex := alts ["feel"; "think"; "believe"].
Definition i_feel : regex := alts ["i feel"; "i'm feeling"].

Definition emotional_reasoning_patterns : list (regex * string) :=
  [ (cat [lit "i "; feel_think_believe; lit " "; dot_star; lit " so ";
          alts ["i"; "it"; "that"; "this"]],
     "using feelings as direct evidence");
    (cat [lit "i'm "; word_plus; lit " because i "; feel_think_believe],
     "basing conclusions on feelings rather than facts");
    (cat [lit "i "; alts ["know"; "think"; "believe"]; lit " "; dot_star;
          lit " because i "; feel_think_believe],
     "using feelings as evidence for knowledge");
    (cat [lit "i "; feel_think_believe; lit " "; dot_star; lit " so ";
          alts ["i"; "you"; "we"; "they"]; lit " ";
          alts ["will"; "must"; "should"; "have to"; "need to"]],
     "using feelings to predict outcomes");
    (cat [lit "i "; feel_think_believe; lit " "; dot_star; lit " ";
          alts ["therefore"; "thus"; "hence"; "so"; "because"]; lit " ";
          alts ["i"; "you"; "we"; "they"]],
     "treating feelings as facts");
    (cat [i_feel; lit " "; dot_star; lit " "; alts ["so"; "therefore"; "thus"]],
     "drawing conclusions from feelings");
    (cat [i_feel; lit " "; dot_star; lit " because"],
     "explaining with feelings rather than reasons");
    (cat [i_feel; lit " like "; dot_star; lit " "; alts ["is"; "are"; "was"; "were"]],
     "stating feelings as facts") ].

Definition emotional_reasoning (desc : string) (n : Z) (sev : string) : Issue :=
  mkIssue "emotional_reasoning" desc None (Some [n]) None sev None
    (Some ["Support your argument with facts and evidence rather than feelings";
           "If this is an opinion, consider stating it as such";
           "Provide objective reasons to support your conclusion"]).

Section Analyzer.

Variable nlp : string -> list Token.

(** [set(token.lemma_ for token in doc if not token.is_stop and not token.is_punct)] *)
Definition lemma_set (doc : list Token) : gset string :=
  list_to_set (map lemma_ (List.filter meaningful doc)).

(** The second [if] of [is_circular]: the clauses around "because". *)
Definition circular_because_swap (text1 text2 : string) : result bool :=
  if contains " because " text1 && contains " because " text2 then
    let parts1 := split_max1 " because " text1 in
    let parts2 := split_max1 " because " text2 in
    let! p10 := py_index parts1 0 in
    let! p21 := py_index parts2 1 in
    let! swapped :=
      if contains (strip p10) p21 then
        let! p20 := py_index parts2 0 in
        let! p11 := py_index parts1 1 in
        Ok (contains (strip p20) p11)
      else Ok false in
    if swapped then Ok true
    else
      let! p10 := py_index parts1 0 in
      let! p20 := py_index parts2 0 in
      if contains " is " p10 && contains " is " p20 then
        let! a := py_index (split_max1 " is " p10) 0 in
        let subj1 := strip a in
        let! b := py_index (split_max1 " is " p10) 1 in
        let comp1 := strip b in
        let! c := py_index (split_max1 " is " p20) 0 in
        let subj2 := strip c in
        let! d := py_index (split_max1 " is " p20) 1 in
        let comp2 := strip d in
        if String.eqb comp1 comp2 then
          let! p21 := py_index parts2 1 in
          if contains subj1 p21 then Ok true
          else
            let! p11 := py_index parts1 1 in
            Ok (contains subj2 p11)
        else Ok false
      else Ok false
  else Ok false.

(** The third [if]: "X is true because X says so". *)
Definition circular_says_so (text1 text2 : string) : result bool :=
  if contains " is true because " text1 && contains "says so" text1 then
    let! a := py_index (split_max1 " is true" text1) 0 in
    let subject := strip a in
    Ok (contains (subject +:+ " says so") text1
        && (contains "because it's true" (lower text2)
            || contains "because it is true" (lower text2)))
  else Ok false.

(** The fourth [if], with its [try] block. *)
Definition circular_subjects (text1 text2 : string) : result bool :=
  if (contains " is true because " text1 && contains "says so" text1)
     || (contains " is true because " text2 && contains "says so" text2)
  then
    catch_IndexError
      (let! sr1 :=
         if contains " is true because " text1 && contains "says so" text1 then
           let! a := py_index (split_max1 " is true" text1) 0 in
           let! b := py_index (split_max1 " because " text1) 1 in
           Ok (strip a, strip (replace "says so" "" b))
         else Ok ("", "") in
       let! sr2 :=
         if contains " says so because " text2 && contains " is true" text2 then
           let! a := py_index (split_max1 " says so" text2) 0 in
           let! b := py_index (split_max1 " because " text2) 1 in
           Ok (strip a, strip (replace "is true" "" b))
         else Ok ("", "") in
       let '(subject1, reason1) := sr1 in
       let '(subject2, reason2) := sr2 in
       if truthy subject1 && truthy subject2 && truthy reason1 && truthy reason2
          && ((contains (lower subject1) (lower reason2)
               || contains (lower reason2) (lower subject1))
              && (contains (lower subject2) (lower reason1)
                  || contains (lower reason1) (lower subject2)))
       then Ok true
       else if (mem_str (lower subject1) pronouns && truthy subject2)
               || (mem_str (lower subject2) pronouns && truthy subject1)
       then Ok true
       else Ok false)
      (Ok false)
  else Ok false.

(** The last [if]: swapped clauses of more than two words, or lemma
    overlap between the first clause and the second reason. *)
Definition circular_lemma_overlap (text1 text2 : string) : result bool :=
  if contains " because " text1 && contains " because " text2 then
    let parts1 := split_max1 " because " text1 in
    let parts2 := split_max1 " because " text2 in
    let! p10 := py_index parts1 0 in
    let! p21 := py_index parts2 1 in
    let! swapped :=
      if contains (strip p10) p21 then
        let! p20 := py_index parts2 0 in
        let! p11 := py_index parts1 1 in
        Ok (contains (strip p20) p11
            && (2 <? len (split p10)) && (2 <? len (split p20)))
      else Ok false in
    if swapped then Ok true
    else
      let! q10 := py_index parts1 0 in
      let doc1 := nlp q10 in
      let! q21 := py_index parts2 1 in
      let doc2 := nlp q21 in
      let lemmas1 := lemma_set doc1 in
      let lemmas2 := lemma_set doc2 in
      if set_truthy lemmas1 && set_truthy lemmas2 then
        let! ratio := py_div (size_Z (lemmas1 ∩ lemmas2)) (size_Z (lemmas1 ∪ lemmas2)) in
        Ok (Qlt_bool (1 # 2) ratio)
      else Ok false
  else Ok false.

(** The nested function [is_circular]: each part stands for one of its
    top-level [if] statements and yields [true] where the source returns
    [True]. *)
Definition is_circular (text1 text2 : string) : result bool :=
  orelse (Ok (contains " is true because " text1 && contains " is true" text2))
    (orelse (circular_because_swap text1 text2)
       (orelse (circular_says_so text1 text2)
          (orelse (circular_subjects text1 text2)
             (circular_lemma_overlap text1 text2)))).

(** [' '.join(token.lemma_ for ...)] *)
Definition normalize (t : string) : string :=
  join " " (map lemma_ (List.filter meaningful (nlp (lower t)))).

(** The body of the first loop of [_find_circular_reasoning]; the state is
    the dictionary [seen] and the list [issues]. *)
Definition first_pass_step (chain : ReasoningChain)
    (st : gmap string Z * list Issue) (ix : Z * ReasoningStep)
  : result (gmap string Z * list Issue) :=
  let '(seen, issues) := st in
  let '(i, s) := ix in
  let! issues :=
    if (i <? len (steps chain) - 1) && (i =? 0) then
      let! next := py_index (steps chain) (i + 1) in
      let next_text := lower (text next) in
      if contains "bible" (lower (text s))
         && contains "is true because it says so" (lower (text s))
         && contains "says so because it's true" next_text
      then
        Ok (issues ++
            [circular_issue
               ("Steps " +:+ of_int (i + 1) +:+ " and " +:+ of_int (i + 2)
                  +:+ " form a circular argument")
               (i + 1) (i + 2)
               ["This is a classic example of circular reasoning - the conclusion is used as its own evidence";
                "Provide independent evidence to support the claim"]])
      else Ok issues
    else Ok issues in
  let normalized := normalize (text s) in
  match seen !! normalized with
  | Some first =>
      if 3 <? len (split normalized) then
        Ok (seen,
            issues ++
            [circular_issue
               ("Step " +:+ of_int (i + 1) +:+ " repeats the same point as step "
                  +:+ of_int first)
               first (i + 1)
               ["This appears to be circular reasoning - the same point is being made multiple times";
                "Provide new evidence or reasoning to support your argument"]])
      else Ok (<[normalized := i + 1]> seen, issues)
  | None => Ok (<[normalized := i + 1]> seen, issues)
  end.

(** The first loop of [_find_circular_reasoning]. *)
Definition circular_first_pass (chain : ReasoningChain)
  : result (gmap string Z * list Issue) :=
  forM (enumerate 0 (steps chain)) (first_pass_step chain) (∅, []).

Definition potential_circular (i : Z) (sugg : list string) : Issue :=
  circular_issue
    ("Potential circular reasoning between steps " +:+ of_int (i + 1) +:+ " and "
       +:+ of_int (i + 2))
    (i + 1) (i + 2) sugg.

(** The body of the second loop, for the pair [i], [i + 1]. *)
Definition circular_pair (chain : ReasoningChain) (issues : list Issue) (i : Z)
  : result (list Issue) :=
  let! current := py_index (steps chain) i in
  let! next_step := py_index (steps chain) (i + 1) in
  let current_text := lower (text current) in
  let next_text := lower (text next_step) in
  let! circ := orelse (is_circular current_text next_text)
                      (is_circular next_text current_text) in
  let issues :=
    if circ then
      issues ++
      [potential_circular i
         ["This appears to be circular reasoning - the conclusion is used as its own evidence";
          "Provide independent evidence or reasoning to support your claim"]]
    else issues in
  let current_lemmas := lemma_set (nlp current_text) in
  let next_lemmas := lemma_set (nlp next_text) in
  if set_truthy current_lemmas && set_truthy next_lemmas then
    let overlap := current_lemmas ∩ next_lemmas in
    let! big :=
      if 3 <=? size_Z overlap then
        let! ratio := py_div (size_Z overlap) (size_Z current_lemmas) in
        Ok (Qlt_bool (1 # 2) ratio)
      else Ok false in
    if big then
      Ok (issues ++
          [potential_circular i
             ["Ensure each step introduces new information or evidence";
              "Check if these steps are just restating the same point"]])
    else Ok issues
  else Ok issues.

(** [ReasoningAnalyzer._find_circular_reasoning] *)
Definition find_circular_reasoning (chain : ReasoningChain) : result (list Issue) :=
  let! st := circular_first_pass chain in
  let issues := snd st in
  if 2 <=? len (steps chain)
  then forM (range (len (steps chain) - 1)) (circular_pair chain) issues
  else Ok issues.

(** [r.source_id == step.id and r.rel_type == RelationshipType.SUPPORTS] *)
Definition supports_from (s : ReasoningStep) (r : Relationship) : bool :=
  (source_id r =? step_id s) && RelationshipType_eqb (rel_type r) SUPPORTS.

(** The body of the loop of [_find_emotional_reasoning] for the step of
    index [i]: the issues it appends. *)
Definition emotional_step (chain : ReasoningChain) (i : Z) (s : ReasoningStep)
  : result (list Issue) :=
  let text_lower := lower (text s) in
  if (len (split text_lower) <? 4) && negb (any_in emotional_words text_lower)
  then Ok []
  else
    let emotion_words_found :=
      List.filter (fun w => contains w text_lower) emotional_words in
    let emotion_found := 0 <? len emotion_words_found in
    let matched_patterns :=
      map snd (List.filter (fun pd => re_search (fst pd) text_lower)
                 emotional_reasoning_patterns) in
    let! is_emotional_conclusion :=
      if 0 <? i then
        let! prev := py_index (steps chain) (i - 1) in
        let prev_text := lower (text prev) in
        let prev_emotion := any_in emotional_words prev_text in
        let has_conclusion_word :=
          any_in ["therefore"; "so"; "thus"; "hence"; "because"; "which means";
                  "this means"] text_lower in
        Ok (prev_emotion && has_conclusion_word)
      else Ok false in
    if emotion_found || negb (is_nil matched_patterns) || is_emotional_conclusion then
      let strong_emotion := any_in strong_emotion_words text_lower in
      let strong_emotion :=
        if contains "i feel" text_lower
           && any_in ["therefore"; "so"; "thus"; "hence"] text_lower
        then true else strong_emotion in
      let is_premise := existsb (supports_from s) (relationships chain) in
      let! is_emotional_conclusion :=
        anyM (fun r =>
                if target_id r =? step_id s then
                  let! src := py_index (steps chain) (source_id r - 1) in
                  Ok (any_in emotional_words (lower (text src)))
                else Ok false)
             (List.filter (fun r => RelationshipType_eqb (rel_type r) SUPPORTS)
                (relationships chain)) in
      if strong_emotion || is_emotional_conclusion || is_premise
         || (0 <? len matched_patterns)
      then
        if negb is_premise && negb is_emotional_conclusion && negb strong_emotion
           && negb (any_in ["because"; "therefore"; "so"; "thus"; "hence"; "which means"]
                      text_lower)
        then Ok []
        else
          let desc :=
            if is_emotional_conclusion then
              "Step " +:+ of_int (i + 1)
                +:+ " draws a conclusion based on feelings rather than facts"
            else if is_premise then
              "Step " +:+ of_int (i + 1)
                +:+ " uses emotional reasoning to support a conclusion"
            else
              "Step " +:+ of_int (i + 1)
                +:+ " contains emotional language that might weaken the argument" in
          Ok [emotional_reasoning desc (i + 1)
                (if is_premise || is_emotional_conclusion then "medium" else "low")]
      else Ok []
    else Ok [].

(** The loop of [_find_emotional_reasoning] around its body. *)
Definition emotional_body (chain : ReasoningChain) (issues : list Issue)
    (ix : Z * ReasoningStep) : result (list Issue) :=
  let '(i, s) := ix in
  let! new := emotional_step chain i s in Ok (issues ++ new).

(** [ReasoningAnalyzer._find_emotional_reasoning] *)
Definition find_emotional_reasoning (chain : ReasoningChain) : result (list Issue) :=
  forM (enumerate 0 (steps chain)) (emotional_body chain) [].

(** [ReasoningAnalyzer.analyze_chain] *)
Definition analyze_chain (chain : ReasoningChain) : result (list Issue) :=
  let issues := [] in
  let issues := issues ++ find_unsupported_claims chain in
  let! circular := find_circular_reasoning chain in
  let issues := issues ++ circular in
  let issues := issues ++ find_hasty_generalizations chain in
  let! contradictions := find_contradictions chain in
  let issues := issues ++ contradictions in
  let! emotional := find_emotional_reasoning chain in
  let issues := issues ++ emotional in
  Ok issues.

End Analyzer.

(** ** [reasoner/ml_suggestions.py] *)

Definition emotional_indicators : list (string * list string) :=
  [("positive", ["excellent"; "great"; "amazing"; "love"; "perfect"; "best"]);
   ("negative", ["terrible"; "awful"; "worst"; "hate"; "never"; "always"])].

Definition subjective_phrases : list string :=
  ["i think"; "i believe"; "in my opinion"; "from my perspective";
   "it seems"; "appears"; "suggests"; "indicates"].

Definition transition_indicators : list string :=
  ["therefore"; "thus"; "hence"; "consequently";
   "additionally"; "furthermore"; "moreover";
   "however"; "on the other hand"; "conversely";
   "for example"; "for instance"; "specifically"].

Definition suggestion (ty desc : string) (conf : Q) (sev : string)
    (sugg : list string) : Issue :=
  mkIssue ty desc None None None sev (Some conf) (Some sugg).

(** The loop over [emotional_indicators.items()], left at the first match. *)
Fixpoint emotional_language (i : Z) (text_lower : string)
    (kinds : list (string * list string)) : list Issue :=
  match kinds with
  | [] => []
  | (sentiment_type, indicators) :: rest =>
      if any_in indicators text_lower then
        [suggestion ("emotional_language_" +:+ sentiment_type)
           ("Step " +:+ of_int (i + 1) +:+ " includes " +:+ sentiment_type +:+ " language")
           (8 # 10) "low"
           ["Consider if this strong language is necessary";
            "Balance emotional statements with evidence"]]
      else emotional_language i text_lower rest
  end.

(** [set(word for word in t.split() if len(word) > 3)] *)
Definition long_words (t : string) : gset string :=
  list_to_set (List.filter (fun w => (3 <? String.length w)%nat) (split t)).

Definition smooth_transition_needed (i : Z) (topic_overlap : Q) : Issue :=
  suggestion "smooth_transition_needed"
    ("The transition to step " +:+ of_int (i + 2) +:+ " could be smoother")
    ((8 # 10) - topic_overlap * (15 # 10))%Q "low"
    ["Add a transition to connect these ideas";
     "Explain how these points relate to each other"].

(** The quantities computed for the pair of texts of two consecutive steps. *)
Definition needs_transition (next_text : string) : bool :=
  negb (any_in transition_indicators next_text).

Definition topic_overlap (current_text next_text : string) : result Q :=
  let current_words := long_words current_text in
  let next_words := long_words next_text in
  py_div (size_Z (current_words ∩ next_words))
         (Z.max 1 (Z.min (size_Z current_words) (size_Z next_words))).

(** The body of the loop of [_analyze_flow]. *)
Definition flow_pair (chain : ReasoningChain) (flow_suggestions : list Issue) (i : Z)
  : result (list Issue) :=
  let! current := py_index (steps chain) i in
  let current_text := lower (text current) in
  let! next := py_index (steps chain) (i + 1) in
  let next_text := lower (text next) in
  let! overlap := topic_overlap current_text next_text in
  if needs_transition next_text && Qlt_bool overlap (4 # 10)
  then Ok (flow_suggestions ++ [smooth_transition_needed i overlap])
  else Ok flow_suggestions.

(** [LocalMLSuggestionEngine._analyze_flow] *)
Definition analyze_flow (chain : ReasoningChain) : result (list Issue) :=
  if len (steps chain) <? 2 then Ok []
  else forM (range (len (steps chain) - 1)) (flow_pair chain) [].

Section Scorer.

(** [TextBlob(t).sentiment.polarity] *)
Variable polarity : string -> Q.

(** The body of the first loop of [get_suggestions] for the step of index
    [i]: the suggestions it appends. *)
Definition step_suggestions (i : Z) (s : ReasoningStep) : list Issue :=
  let t := strip (text s) in
  let words := split t in
  if is_nil words then []
  else if len words <? 3 then
    [suggestion "step_too_short"
       ("Step " +:+ of_int (i + 1) +:+ " is quite brief")
       (9 # 10) "low"
       ["Add more details or examples";
        "Explain the connection to your main point"]]
  else
    let emotional := emotional_language i (lower t) emotional_indicators in
    let subjective :=
      if any_in subjective_phrases (lower t) then
        [suggestion "subjective_language"
           ("Step " +:+ of_int (i + 1) +:+ " includes subjective language")
           (7 # 10) "info"
           ["Consider if this could be stated more objectively";
            "Support with evidence or data if possible"]]
      else [] in
    let p := polarity (lower t) in
    let strong :=
      if Qlt_bool (5 # 10) (Qabs p) then
        let sentiment_type := if Qlt_bool 0 p then "positive" else "negative" in
        [suggestion ("strong_" +:+ sentiment_type +:+ "_sentiment")
           ("Step " +:+ of_int (i + 1) +:+ " includes strong " +:+ sentiment_type
              +:+ " language")
           (Qmin_py (9 # 10) (Qabs p * (15 # 10))) "low"
           ["Consider if this strong language is necessary";
            "Balance with factual statements"]]
      else [] in
    emotional ++ subjective ++ strong.

(** [LocalMLSuggestionEngine.get_suggestions] *)
Definition get_suggestions (chain : ReasoningChain) : result (list Issue) :=
  let suggestions :=
    flat_map (fun '(i, s) => step_suggestions i s) (enumerate 0 (steps chain)) in
  if 1 <? len (steps chain) then
    let! flow := analyze_flow chain in
    Ok (suggestions ++ flow)
  else Ok suggestions.

End Scorer.

(** ** A small tokenizer and sentiment scorer for running examples

    Tokens are the whitespace-separated words; a token is a stop word when
    it is in [simple_stop_words], punctuation when it has no word character,
    and its lemma drops one final "s" from words of more than three
    letters. *)

Definition simple_stop_words : list string :=
  ["a"; "an"; "the"; "is"; "are"; "of"; "to"; "it"; "and"].

Fixpoint has_word_char (s : string) : bool :=
  match s with
  | EmptyString => false
  | String c r => is_word c || has_word_char r
  end.

Fixpoint drop_final_s (s : string) : string :=
  match s with
  | EmptyString => EmptyString
  | String c EmptyString => if Ascii.eqb c "s" then EmptyString else s
  | String c r => String c (drop_final_s r)
  end.

Definition simple_lemma (w : string) : string :=
  if (3 <? String.length w)%nat then drop_final_s w else w.

Definition simple_nlp (t : string) : list Token :=
  map (fun w => mkToken w (simple_lemma w) (mem_str w simple_stop_words)
                  (negb (has_word_char w)))
      (split t).

Definition neutral_polarity (t : string) : Q := 0%Q.

(** * Properties *)

(** ** Vocabulary of the specification *)

(** [sub] occurs in [s]. *)
Definition substring (sub s : string) : Prop :=
  exists pre post, s = pre +:+ sub +:+ post.

(** [s] contains one of the phrases of [terms]. *)
Definition mentions (terms : list string) (s : string) : Prop :=
  exists t, In t terms /\ substring t s.

(** A line after trimming, removal of the leading ordinal and trimming. *)
Definition normalize_line (line : string) : string :=
  strip (sub_leading_ordinal (strip line)).

(** The lines of the input that are not blank once normalized, in order. *)
Definition surviving_lines (t : string) : list string :=
  List.filter truthy (map normalize_line (split_on newline t)).

(** The classification rule: conclusion before evidence before premise. *)
Inductive classified (t : string) : StepType -> Prop :=
| classified_conclusion :
    mentions conclusion_indicators (lower t) -> classified t CONCLUSION
| classified_evidence :
    ~ mentions conclusion_indicators (lower t) ->
    mentions evidence_indicators (lower t) -> classified t EVIDENCE
| classified_premise :
    ~ mentions conclusion_indicators (lower t) ->
    ~ mentions evidence_indicators (lower t) -> classified t PREMISE.

(** The set of words holds a negation term. *)
Definition negated (w : gset string) : Prop :=
  exists neg, In neg negations /\ neg ∈ w.




(** The relationship that the parser records for a contradictory pair. *)
Definition contradicts_rel (s1 s2 : ReasoningStep) : Relationship :=
  mkRel (step_id s1) (step_id s2) CONTRADICTS 1.

(** All relationships of a list of steps, pair by pair in loop order. *)
Fixpoint contradiction_pairs (nlp : string -> list Token) (l : list ReasoningStep)
  : list Relationship :=
  match l with
  | [] => []
  | s1 :: rest =>
      map (contradicts_rel s1)
          (List.filter (fun s2 => are_contradictory nlp (text s1) (text s2)) rest)
      ++ contradiction_pairs nlp rest
  end.

(** The data-model invariants of a chain. *)
Definition ids_in_order (c : ReasoningChain) : Prop :=
  map step_id (steps c) = map Z.of_nat (seq 1 (List.length (steps c))).

Definition endpoints_resolve (c : ReasoningChain) : Prop :=
  forall r, In r (relationships c) ->
    is_Some (get_step c (source_id r)) /\ is_Some (get_step c (target_id r)).

Definition chain_invariant (c : ReasoningChain) : Prop :=
  ids_in_order c /\ endpoints_resolve c.

(** The step that [add_step] builds when the chain has [n] steps. *)
Definition numbered_step (n : nat) (content : string) : ReasoningStep :=
  mkStep (Z.of_nat n + 1) content (determine_step_type content) 1 [].

(** A text made of the given lines. *)
Definition unlines (l : list string) : string := join (String newline "") l.

(** The seven indicators with their weights, in the order of the scan. *)
Definition listed_indicators : list (string * Q) :=
  [("must", 9 # 10); ("should", 7 # 10); ("have to", 6 # 10);
   ("need to", 5 # 10); ("ought to", 8 # 10); ("always", 9 # 10);
   ("never", 9 # 10)]%Q.

(** [ind], with weight [conf], is the first assumption indicator that
    occurs in [tl]. *)
Definition first_match (tl ind : string) (conf : Q) : Prop :=
  exists before after,
    listed_indicators = before ++ (ind, conf) :: after
    /\ substring ind tl
    /\ Forall (fun p => ~ substring (fst p) tl) before.

(** The eleven softening phrases that stop the scan of a step. *)
Definition listed_frames : list string :=
  ["i should"; "we should"; "you should"; "one should";
   "i must"; "we must"; "you must"; "one must";
   "i have to"; "we have to"; "you have to"].

Definition listed_conditionals : list string := ["if "; "when "; "unless "].

(** The step holds one of the eleven phrases or is conditional. *)
Definition softened (tl : string) : Prop :=
  mentions listed_frames tl \/ mentions listed_conditionals tl.

(** The softening frames as the specification words them: a first-,
    second- or indefinite-person pronoun before any of the seven
    indicators ("I should", "we must", etc.). *)
Definition persons : list string := ["i"; "we"; "you"; "one"].

Definition framed_by_person (tl : string) : Prop :=
  exists person ind,
    In person persons /\ In ind (map fst listed_indicators)
    /\ substring (person +:+ " " +:+ ind) tl.

Definition softened_as_specified (tl : string) : Prop :=
  framed_by_person tl \/ mentions listed_conditionals tl.

(** What a contradiction issue must say about its relationship. *)
Definition projects (c : ReasoningChain) (r : Relationship) (i : Issue) : Prop :=
  issue_type i = "contradiction"
  /\ severity i = "high"
  /\ step_ids i = Some [source_id r; target_id r]
  /\ exists s1 s2,
       get_step c (source_id r) = Some s1
       /\ get_step c (target_id r) = Some s2
       /\ details i = Some (text s1, text s2).

Definition is_contradicts (r : Relationship) : bool :=
  RelationshipType_eqb (rel_type r) CONTRADICTS.

(** [out] lists the relationships of [rs] whose type is CONTRADICTS, in the
    order of [rs] and as often as they occur. *)
Inductive contradicts_of : list Relationship -> list Relationship -> Prop :=
| contradicts_of_nil : contradicts_of [] []
| contradicts_of_keep r rs out :
    rel_type r = CONTRADICTS -> contradicts_of rs out ->
    contradicts_of (r :: rs) (r :: out)
| contradicts_of_skip r rs out :
    rel_type r <> CONTRADICTS -> contradicts_of rs out ->
    contradicts_of (r :: rs) out.

Definition has_type (ty : string) (i : Issue) : bool := String.eqb (issue_type i) ty.

Definition circular_typed (i : Issue) : Prop := issue_type i = "circular_reasoning".

Definition emotional_typed (i : Issue) : Prop := issue_type i = "emotional_reasoning".

(** No relationship of the chain is a SUPPORTS relationship. *)
Definition no_supports (c : ReasoningChain) : Prop :=
  forall r, In r (relationships c) -> rel_type r <> SUPPORTS.

(** The suggestions that the flow pass appends for the pair [i], [i + 1]. *)
Definition flow_issues (c : ReasoningChain) (i : Z) : list Issue :=
  match flow_pair c [] i with
  | Ok new => new
  | Raise _ => []
  end.

(** The confidence of a flow suggestion lies in (0.2, 0.8]. *)
Definition flow_confident (x : Issue) : Prop :=
  issue_type x = "smooth_transition_needed"
  /\ exists q, confidence x = Some q /\ (2 # 10 < q)%Q /\ (q <= 8 # 10)%Q.

(** The steps that [add_step] builds, one after the other, for the given
    contents when the chain already has [n] steps. *)
Fixpoint fresh_steps (n : nat) (contents : list string) : list ReasoningStep :=
  match contents with
  | [] => []
  | content :: rest => numbered_step n content :: fresh_steps (S n) rest
  end.

(** The first and the last character of a string. *)
Definition first_char (s : string) : option ascii :=
  match s with
  | EmptyString => None
  | String c _ => Some c
  end.

Fixpoint last_char (s : string) : option ascii :=
  match s with
  | EmptyString => None
  | String c EmptyString => Some c
  | String _ r => last_char r
  end.

(** A text as the parser stores it: not empty, no whitespace at either
    end, no line break inside. *)
Definition tidy (s : string) : Prop :=
  s <> ""
  /\ (forall c, first_char s = Some c -> is_space c = false)
  /\ (forall c, last_char s = Some c -> is_space c = false)
  /\ mem_char newline s = false.

(** A tokenizer that treats every negation term as a stop word. *)
Definition negations_are_stop_words (nlp : string -> list Token) : Prop :=
  forall t tok, In tok (nlp t) -> In (tok_text tok) negations -> is_stop tok = true.

(** The tokenizer [simple_nlp] with the negation terms added to its stop
    words. *)
Definition negation_stop_nlp (t : string) : list Token :=
  map (fun w => mkToken w (simple_lemma w)
                  (mem_str w (simple_stop_words ++ negations))
                  (negb (has_word_char w)))
      (split t).

(** A circular-reasoning issue of a chain of [n] steps: high severity, no
    confidence, and two step numbers, the earlier one first. *)
Definition circular_shape (n : Z) (i : Issue) : Prop :=
  issue_type i = "circular_reasoning"
  /\ severity i = "high"
  /\ confidence i = None
  /\ step i = None
  /\ exists a b, step_ids i = Some [a; b] /\ 1 <= a /\ a < b /\ b <= n.

(** The step reads as a formal quantified statement ("All A are B"). *)
Definition logical_form (tl : string) : Prop :=
  mentions ["all "; "every "; "no "; "some "] tl
  /\ mentions [" are "; " is "; " have "; " has "] tl.

(** Some SUPPORTS relationship points to the step. *)
Definition supported (c : ReasoningChain) (s : ReasoningStep) : Prop :=
  exists r, In r (relationships c) /\ target_id r = step_id s /\ rel_type r = SUPPORTS.

(** The chain reads as a plan: a conclusion step states an intention. *)
Definition plan_chain (c : ReasoningChain) : Prop :=
  exists s, In s (steps c) /\ step_type s = CONCLUSION
            /\ mentions plan_terms (lower (text s)).

(** Some SUPPORTS relationship starts or ends at the step. *)
Definition touches_support (c : ReasoningChain) (s : ReasoningStep) : Prop :=
  exists r, In r (relationships c) /\ rel_type r = SUPPORTS
            /\ (source_id r = step_id s \/ target_id r = step_id s).
(** The fields that every issue of the analysis has in common: a severity
    of the four-level scale, no [step] key, and a confidence, when there is
    one, between 0.5 and 0.9. *)
Definition well_formed_issue (x : Issue) : Prop :=
  In (severity x) ["info"; "low"; "medium"; "high"]
  /\ step x = None
  /\ forall q, confidence x = Some q -> (5 # 10 <= q)%Q /\ (q <= 9 # 10)%Q.

(** An emotional-reasoning issue for the step [s] at position [k]. *)
Definition emotional_shape (c : ReasoningChain) (k : Z) (s : ReasoningStep)
    (x : Issue) : Prop :=
  issue_type x = "emotional_reasoning"
  /\ step_ids x = Some [k + 1]
  /\ confidence x = None
  /\ step x = None
  /\ (severity x = "low" \/ (severity x = "medium" /\ touches_support c s)).
(** The seven tags of the issues of the analysis. *)
Definition analysis_types : list string :=
  ["consider_adding_support"; "planning_analysis"; "potential_assumption";
   "circular_reasoning"; "hasty_generalization"; "contradiction";
   "emotional_reasoning"].

(** The tags of the suggestions of the secondary scorer. *)
Definition scorer_types : list string :=
  ["step_too_short"; "emotional_language_positive"; "emotional_language_negative";
   "subjective_language"; "strong_positive_sentiment"; "strong_negative_sentiment";
   "smooth_transition_needed"].

(** A suggestion of the scorer: one of its seven tags, severity low or
    info, a confidence in (0.2, 0.9], three remediation texts at most, and
    no reference to a step. *)
Definition well_formed_suggestion (x : Issue) : Prop :=
  In (issue_type x) scorer_types
  /\ In (severity x) ["low"; "info"]
  /\ step x = None /\ step_ids x = None
  /\ (exists q, confidence x = Some q /\ (2 # 10 < q)%Q /\ (q <= 9 # 10)%Q)
  /\ exists texts, suggestions x = Some texts /\ List.length texts = 2%nat.

(** ** [reasoner/suggestions.py]

    The handlers can raise two more exceptions than the detectors:
    [KeyError] from [issue["step_ids"]] and [ValueError] from unpacking a
    list that does not have two elements. *)

Inductive engine_exn :=
| KeyError
| ValueError
| Raised (e : exn).

Inductive outcome (A : Type) : Type :=
| Done (a : A)
| Failed (e : engine_exn).
Arguments Done {A} a.
Arguments Failed {A} e.

Definition and_then {A B} (m : outcome A) (k : A -> outcome B) : outcome B :=
  match m with
  | Done a => k a
  | Failed e => Failed e
  end.

Notation "'let*' x ':=' m 'in' k" := (and_then m (fun x => k))
  (at level 10, x name, m at level 100, k at level 200).

Definition lift {A} (m : result A) : outcome A :=
  match m with
  | Ok a => Done a
  | Raise e => Failed (Raised e)
  end.

(** [issue["step_ids"]] *)
Definition issue_step_ids (issue : Issue) : outcome (list Z) :=
  match step_ids issue with
  | Some ids => Done ids
  | None => Failed KeyError
  end.

(** [a, b = l] *)
Definition unpack_pair (l : list Z) : outcome (Z * Z) :=
  match l with
  | [a; b] => Done (a, b)
  | _ => Failed ValueError
  end.

(** [next(s for s in chain.steps if s.id == step_id)] *)
Definition step_with_id (chain : ReasoningChain) (i : Z) : outcome ReasoningStep :=
  lift (py_next (fun s => step_id s =? i) (steps chain)).

(** [issue["step_ids"][0]] followed by the lookup of the step. *)
Definition first_step (chain : ReasoningChain) (issue : Issue) : outcome ReasoningStep :=
  let* ids := issue_step_ids issue in
  let* i := lift (py_index ids 0) in
  step_with_id chain i.

(** [step1_id, step2_id = issue["step_ids"]] followed by the two lookups. *)
Definition both_steps (chain : ReasoningChain) (issue : Issue)
  : outcome (ReasoningStep * ReasoningStep) :=
  let* ids := issue_step_ids issue in
  let* p := unpack_pair ids in
  let* step1 := step_with_id chain (fst p) in
  let* step2 := step_with_id chain (snd p) in
  Done (step1, step2).

(** [SuggestionEngine._suggest_for_unsupported_claim] *)
Definition suggest_for_unsupported_claim (chain : ReasoningChain) (issue : Issue)
  : outcome (list string) :=
  let* s := first_step chain issue in
  Done ["Add supporting evidence or reasoning for: '" +:+ text s +:+ "'";
        "Consider if this is a conclusion that needs backing up with facts or data";
        "Ask yourself: What evidence do I have for this claim?"].

(** [SuggestionEngine._suggest_for_circular_reasoning] *)
Definition suggest_for_circular_reasoning (chain : ReasoningChain) (issue : Issue)
  : outcome (list string) :=
  let* p := both_steps chain issue in
  Done ["The statements '" +:+ text (fst p) +:+ "' and '" +:+ text (snd p)
          +:+ "' appear to be circular.";
        "Try to provide independent evidence or reasoning for each claim.";
        "Ask: What external evidence supports this conclusion?"].

(** [SuggestionEngine._suggest_for_hasty_generalization] *)
Definition suggest_for_hasty_generalization (chain : ReasoningChain) (issue : Issue)
  : outcome (list string) :=
  let* s := first_step chain issue in
  Done ["The statement '" +:+ text s +:+ "' makes a broad generalization.";
        "Consider if you have enough evidence to support this generalization.";
        "Could you quantify this statement? (e.g., 'some' instead of 'all' or 'every')";
        "What exceptions might there be to this generalization?"].

(** [SuggestionEngine._suggest_for_contradiction] *)
Definition suggest_for_contradiction (chain : ReasoningChain) (issue : Issue)
  : outcome (list string) :=
  let* p := both_steps chain issue in
  Done ["The statements '" +:+ text (fst p) +:+ "' and '" +:+ text (snd p)
          +:+ "' appear to contradict each other.";
        "Clarify how these statements can both be true.";
        "Consider if you need to revise one or both statements to resolve the contradiction.";
        "Is there additional context that reconciles these statements?"].

(** [SuggestionEngine._suggest_for_emotional_reasoning] *)
Definition suggest_for_emotional_reasoning (chain : ReasoningChain) (issue : Issue)
  : outcome (list string) :=
  let* s := first_step chain issue in
  Done ["The statement '" +:+ text s +:+ "' appears to be based on emotion.";
        "While feelings are valid, consider what objective evidence supports this.";
        "Could you rephrase this to be more neutral and fact-based?";
        "What specific observations or data support how you're feeling?"].

Definition handler : Type := ReasoningChain -> Issue -> outcome (list string).

(** [self.suggestions], the table built by [SuggestionEngine.__init__]. *)
Definition suggestion_handlers : list (string * handler) :=
  [("unsupported_claim", suggest_for_unsupported_claim);
   ("circular_reasoning", suggest_for_circular_reasoning);
   ("hasty_generalization", suggest_for_hasty_generalization);
   ("contradiction", suggest_for_contradiction);
   ("emotional_reasoning", suggest_for_emotional_reasoning)].

(** [self.suggestions[key]] when [key in self.suggestions]. *)
Fixpoint lookup_handler (key : string) (table : list (string * handler))
  : option handler :=
  match table with
  | [] => None
  | (k, h) :: rest => if String.eqb key k then Some h else lookup_handler key rest
  end.

(** [enhanced_issue = issue.copy(); enhanced_issue["suggestions"] = suggestion] *)
Definition with_suggestions (issue : Issue) (texts : list string) : Issue :=
  mkIssue (issue_type issue) (description issue) (step issue) (step_ids issue)
          (details issue) (severity issue) (confidence issue) (Some texts).

(** The body of the loop of [generate_suggestions]: the issue it appends. *)
Definition enhance (chain : ReasoningChain) (issue : Issue) : outcome Issue :=
  match lookup_handler (issue_type issue) suggestion_handlers with
  | Some h =>
      let* texts := h chain issue in
      Done (with_suggestions issue texts)
  | None => Done issue
  end.

(** [SuggestionEngine.generate_suggestions] *)
Fixpoint generate_suggestions_from (chain : ReasoningChain) (issues : list Issue)
    (enhanced_issues : list Issue) : outcome (list Issue) :=
  match issues with
  | [] => Done enhanced_issues
  | issue :: rest =>
      let* e := enhance chain issue in
      generate_suggestions_from chain rest (enhanced_issues ++ [e])
  end.

Definition generate_suggestions (chain : ReasoningChain) (issues : list Issue)
  : outcome (list Issue) :=
  generate_suggestions_from chain issues [].

(** The tags that have a handler. *)
Definition handled_types : list string := map fst suggestion_handlers.

(** [e] is [x] with, at most, other remediation texts. *)
Definition same_but_suggestions (x e : Issue) : Prop :=
  issue_type e = issue_type x
  /\ description e = description x
  /\ step e = step x
  /\ step_ids e = step_ids x
  /\ details e = details x
  /\ severity e = severity x
  /\ confidence e = confidence x
  /\ (~ In (issue_type x) handled_types -> e = x)
  /\ (In (issue_type x) handled_types ->
      exists texts, suggestions e = Some texts /\ (3 <= List.length texts <= 4)%nat).

(** ** [main.py]

    [display_analysis] is modelled by the list of the strings that it hands
    to [console.print], in order; [textwrap.wrap(line, width=90)] is a
    parameter.  Whether rich accepts these strings is modelled apart, by
    [printed] below. *)

(** [s.endswith(suffix)] *)
Fixpoint endswith (s suffix : string) : bool :=
  String.eqb s suffix
  || match s with
     | EmptyString => false
     | String _ r => endswith r suffix
     end.

(** [if not s.endswith(('.', '!', '?')): s += '.'] *)
Definition punctuate (s : string) : string :=
  if negb (existsb (endswith s) ["."; "!"; "?"]) then s +:+ "." else s.

(** [if k not in groups: groups[k] = []] followed by [groups[k].append(v)],
    on a dict, which keeps its keys in the order of their first insertion. *)
Fixpoint group_add {K V} (eqb : K -> K -> bool) (k : K) (v : V)
    (groups : list (K * list V)) : list (K * list V) :=
  match groups with
  | [] => [(k, [v])]
  | (k', vs) :: rest =>
      if eqb k k' then (k', vs ++ [v]) :: rest
      else (k', vs) :: group_add eqb k v rest
  end.

Definition group_by {K V} (eqb : K -> K -> bool) (key : V -> K) (l : list V)
  : list (K * list V) :=
  fold_left (fun groups v => group_add eqb (key v) v groups) l [].

(** [issue.get('step', 0)] *)
Definition step_num (issue : Issue) : Z :=
  match step issue with
  | Some n => n
  | None => 0
  end.

(** [severity_titles.get(severity, "[bold]Findings:[/bold]")] *)
Definition severity_title (sev : string) : string :=
  if String.eqb sev "info" then "[bold blue]Key Insights:[/bold blue]"
  else if String.eqb sev "low" then "[bold yellow]Considerations:[/bold yellow]"
  else if String.eqb sev "medium" then "[bold orange]Areas for Improvement:[/bold orange]"
  else if String.eqb sev "high" then "[bold red]Critical Issues:[/bold red]"
  else "[bold]Findings:[/bold]".

(** The loops of [display_analysis] print and update the set
    [displayed_suggestions]: a body maps the set to the lines it prints and
    the new set. *)
Definition printer (A : Type) : Type :=
  gset string -> A -> list string * gset string.

Fixpoint print_each {A} (body : printer A) (displayed : gset string) (l : list A)
  : list string * gset string :=
  match l with
  | [] => ([], displayed)
  | x :: rest =>
      let '(out, displayed) := body displayed x in
      let '(out', displayed) := print_each body displayed rest in
      (out ++ out', displayed)
  end.

(** The body of the loop over [issue['suggestions']], on the pair of
    [unique_suggestions] and [displayed_suggestions]. *)
Definition keep_unique (st : list string * gset string) (suggestion : string)
  : list string * gset string :=
  let suggestion := strip suggestion in
  if truthy suggestion && negb (bool_decide (suggestion ∈ snd st))
  then (fst st ++ [suggestion], snd st ∪ {[suggestion]})
  else st.

Definition bullet (s : string) : string := "  • " +:+ s.
Definition sub_bullet (s : string) : string := "      ◦ " +:+ s.
Definition suggestions_title : string := "    [dim]Suggestions:[/dim]".

(** The body of the loop over the issues of one severity. *)
Definition show_issue : printer Issue := fun displayed issue =>
  let out := [bullet (punctuate (strip (description issue)))] in
  match suggestions issue with
  | Some ((_ :: _) as texts) =>
      let '(unique_suggestions, displayed) := fold_left keep_unique texts ([], displayed) in
      if is_nil unique_suggestions then (out, displayed)
      else (out ++ suggestions_title
                :: map (fun s => sub_bullet (punctuate s)) (firstn 3 unique_suggestions),
            displayed)
  | _ => (out, displayed)
  end.

(** The body of the loop over [severity_groups.items()]. *)
Definition show_severity : printer (string * list Issue) := fun displayed group =>
  let '(out, displayed) := print_each show_issue displayed (snd group) in
  (severity_title (fst group) :: out, displayed).

Definition step_header (n : Z) : string :=
  String newline ("[bold]Step " +:+ of_int n +:+ ":[/bold]").

(** The body of the loop over [step_issues.items()]; [groups] is
    [len(step_issues)]. *)
Definition show_step (groups : nat) : printer (Z * list Issue) := fun displayed group =>
  if is_nil (snd group) then ([], displayed)
  else
    let severity_groups := group_by String.eqb severity (snd group) in
    let header := if (1 <? Z.of_nat groups) then [step_header (fst group)] else [] in
    let '(out, displayed) := print_each show_severity displayed severity_groups in
    (header ++ out, displayed).

Definition chain_title : string :=
  String newline "[bold cyan]Your Reasoning Chain:[/bold cyan]".
Definition solid_line : string :=
  String newline "[green]✓ Your reasoning looks solid! No major issues found.[/green]".
Definition additional_title : string :=
  String newline "[bold]Additional Suggestions:[/bold]".

(** [str(e)] for the exceptions of the model. *)
Definition exn_message (e : exn) : string :=
  match e with
  | StopIteration => ""
  | IndexError => "list index out of range"
  | ZeroDivisionError => "division by zero"
  end.

Definition failure_note (e : exn) : string :=
  String newline ("[red]Note: Some suggestions could not be generated: "
                  +:+ exn_message e +:+ "[/red]").

Section Display.

Variable wrap : string -> list string.
Variable polarity : string -> Q.

(** The first loop: the numbered steps, wrapped. *)
Definition chain_lines (chain : ReasoningChain) : list string :=
  flat_map (fun '(i, s) =>
              flat_map (fun line => map (fun wrapped_line => "  " +:+ wrapped_line) (wrap line))
                       (split_on newline (of_int i +:+ ". " +:+ text s)))
           (enumerate 1 (steps chain)).

(** [step_issues], and what the loop over it prints and records. *)
Definition step_issues (issues : list Issue) : list (Z * list Issue) :=
  group_by Z.eqb step_num issues.

Definition issue_lines (issues : list Issue) : list string * gset string :=
  print_each (show_step (List.length (step_issues issues))) ∅ (step_issues issues).

(** [new_suggestions] *)
Definition new_suggestions (displayed : gset string) (ml_suggestions : list Issue)
  : list string :=
  flat_map (fun suggestion =>
              match suggestions suggestion with
              | Some texts =>
                  List.filter (fun s => negb (bool_decide (strip s ∈ displayed))) texts
              | None => []
              end)
           ml_suggestions.

(** The [try] block and its handler. *)
Definition additional_lines (chain : ReasoningChain) (displayed : gset string)
  : list string :=
  match get_suggestions polarity chain with
  | Ok ml_suggestions =>
      let new := new_suggestions displayed ml_suggestions in
      if is_nil new then []
      else additional_title :: map (fun s => bullet (punctuate s)) (firstn 3 new)
  | Raise e => [failure_note e]
  end.

(** [display_analysis]; its third argument is not used. *)
Definition display_analysis (chain : ReasoningChain) (issues suggestions : list Issue)
  : list string :=
  let '(out, displayed) := issue_lines issues in
  chain_title :: chain_lines chain
  ++ out
  ++ (if negb (existsb (fun group => negb (is_nil (snd group))) (step_issues issues))
      then [solid_line] else [])
  ++ additional_lines chain displayed.

End Display.

(** [console.print] passes its text through rich's markup parser, which
    raises MarkupError on a closing tag that matches no open tag, and
    [display_analysis] prints the step texts, the descriptions and the
    suggestions unescaped.  [markup_ok] stands for the parser accepting a
    text.  [printed] is the output when every text is accepted, and [None]
    when some [console.print] raises: outside the [try] block this aborts
    [display_analysis], inside it control passes to the handler. *)
Definition printed (markup_ok : string -> bool) (lines : list string)
  : option (list string) :=
  if forallb markup_ok lines then Some lines else None.

(** A stand-in for the markup parser in examples: a closing tag needs an
    opening tag before it. *)
Fixpoint closes_open_tags (depth : nat) (s : string) : bool :=
  match s with
  | EmptyString => true
  | String "[" (String "/" r) =>
      match depth with
      | O => false
      | S d => closes_open_tags d r
      end
  | String "[" r => closes_open_tags (S depth) r
  | String _ r => closes_open_tags depth r
  end.

(** The input loop of [main], on the lines that [input] returns before the
    end of the input: it stops at the first blank line that follows a line
    with content. *)
Fixpoint read_lines (inputs lines : list string) : list string :=
  match inputs with
  | [] => lines
  | raw :: rest =>
      let line := strip raw in
      if negb (truthy line) && negb (is_nil lines) then lines
      else if truthy line then read_lines rest (lines ++ [line])
      else read_lines rest lines
  end.

(** [input_text] *)
Definition input_text (inputs : list string) : string :=
  join (String newline "") (read_lines inputs []).

(** The issue [x] lists the text [t], once trimmed, among its suggestions. *)
Definition lists (x : Issue) (t : string) : Prop :=
  exists u, suggestions x = Some u /\ In t (map strip u) /\ t <> "".

(** Some issue of the list lists [t]. *)
Definition listed (issues : list Issue) (t : string) : Prop :=
  exists x, In x issues /\ lists x t.

(** A line that does not open with a line feed: the titles of the
    sections do, the lines below them do not. *)
Definition inner (line : string) : Prop := first_char line <> Some newline.

(** The lines, trimmed, up to the first blank one. *)
Fixpoint leading_block (inputs : list string) : list string :=
  match inputs with
  | [] => []
  | raw :: rest => if truthy (strip raw) then strip raw :: leading_block rest else []
  end.

(** The input without its leading blank lines. *)
Fixpoint skip_blank (inputs : list string) : list string :=
  match inputs with
  | [] => []
  | raw :: rest => if truthy (strip raw) then inputs else skip_blank rest
  end.

(** ** Segmentation, in the words of the specification *)

(** Every character of [s] satisfies [p]. *)
Fixpoint all_chars (p : ascii -> bool) (s : string) : bool :=
  match s with
  | EmptyString => true
  | String c r => p c && all_chars p r
  end.

(** [out] starts and ends with a character that is no whitespace, or is
    empty. *)
Definition no_blank_ends (out : string) : Prop :=
  (forall c, first_char out = Some c -> is_space c = false)
  /\ (forall c, last_char out = Some c -> is_space c = false).

(** Trimming: [out] is [s] without the whitespace at its two ends. *)
Definition trims_to (s out : string) : Prop :=
  exists l r,
    s = l +:+ out +:+ r
    /\ all_chars is_space l = true /\ all_chars is_space r = true
    /\ no_blank_ends out.

(** [s] opens with an ordinal marker, after which [rest] follows: optional
    whitespace, one digit or more, "." or ")", and the whitespace after
    it. *)
Definition marked (s rest : string) : Prop :=
  exists ws digits m ws',
    s = ws +:+ digits +:+ String m (ws' +:+ rest)
    /\ all_chars is_space ws = true
    /\ digits <> "" /\ all_chars is_digit digits = true
    /\ (m = "."%char \/ m = ")"%char)
    /\ all_chars is_space ws' = true
    /\ (forall c, first_char rest = Some c -> is_space c = false).

(** Stripping the leading ordinal marker, when there is one. *)
Definition strips_to (s out : string) : Prop :=
  marked s out \/ ((forall rest, ~ marked s rest) /\ out = s).

(** A line is trimmed, loses its ordinal marker and is trimmed again. *)
Definition normalizes (line out : string) : Prop :=
  exists a b, trims_to line a /\ strips_to a b /\ trims_to b out.

(** [outs] are the lines of [ls] that remain non-blank once normalized, in
    order. *)
Inductive survivors : list string -> list string -> Prop :=
| survivors_nil : survivors [] []
| survivors_keep line out ls outs :
    normalizes line out -> out <> "" -> survivors ls outs ->
    survivors (line :: ls) (out :: outs)
| survivors_drop line ls outs :
    normalizes line "" -> survivors ls outs ->
    survivors (line :: ls) outs.

(** [ls] are the lines of the text [t]. *)
Definition lines_of (t : string) (ls : list string) : Prop :=
  t = unlines ls /\ ls <> [] /\ Forall (fun l => mem_char newline l = false) ls.

(** ** The primitives on examples *)

Example split_on_example : split_on "," "a,,b," = ["a"; ""; "b"; ""].
Proof. reflexivity. Qed.

Example split_example : split "  a bc   d " = ["a"; "bc"; "d"].
Proof. reflexivity. Qed.

Example split_max1_example :
  split_max1 " is " "x is y is z" = ["x"; "y is z"] /\ split_max1 " is " "xyz" = ["xyz"].
Proof. split; reflexivity. Qed.

Example replace_example :
  replace "ab" "X" "aabab ab" = "aXX X" /\ replace "aa" "b" "aaa" = "ba".
Proof. split; reflexivity. Qed.

Example strip_example : strip "  x y  " = "x y" /\ strip_chars "." "..a.b.." = "a.b".
Proof. split; reflexivity. Qed.

Example sub_leading_ordinal_example :
  sub_leading_ordinal "12) foo" = "foo"
  /\ sub_leading_ordinal "12 foo" = "12 foo"
  /\ sub_leading_ordinal "1.2. x" = "2. x".
Proof. repeat split; reflexivity. Qed.

Example determine_step_type_example :
  determine_step_type "Whales are mammals" = PREMISE
  /\ determine_step_type "Also true" = CONCLUSION
  /\ determine_step_type "It was raining" = EVIDENCE.
Proof. repeat split; reflexivity. Qed.

Example re_search_example :
  map (fun p => re_search (fst p) "i feel sad so i will quit") emotional_reasoning_patterns
  = [true; false; false; true; true; true; false; false].
Proof. vm_compute. reflexivity. Qed.

(** ** Strings *)

Lemma startswith_spec p s :
  startswith p s = true <-> exists post, s = p +:+ post.
Proof.
  revert s. induction p as [|a p IH]; intros s; simpl.
  - split; [intros _; exists s; reflexivity | reflexivity].
  - destruct s as [|b s].
    + split; [discriminate | intros [post H]; discriminate].
    + rewrite andb_true_iff, IH. split.
      * intros [Hab [post ->]]. apply Ascii.eqb_eq in Hab as ->. eexists; reflexivity.
      * intros [post H]. injection H as -> ->. split; [apply Ascii.eqb_refl | eexists; reflexivity].
Qed.

Lemma contains_spec sub s : contains sub s = true <-> substring sub s.
Proof.
  split.
  - induction s as [|c s IH]; simpl; rewrite orb_true_iff; intros [H|H].
    + apply startswith_spec in H as [post ->]. exists "", post. reflexivity.
    + discriminate.
    + apply startswith_spec in H as [post ->]. exists "", post. reflexivity.
    + destruct (IH H) as (pre & post & ->). exists (String c pre), post. reflexivity.
  - intros (pre & post & ->). induction pre as [|c pre IH]; simpl.
    + assert (H : startswith sub (sub +:+ post) = true)
        by (apply startswith_spec; eexists; reflexivity).
      destruct (sub +:+ post); simpl; rewrite H; reflexivity.
    + rewrite IH. apply orb_true_r.
Qed.

Lemma any_in_spec terms s : any_in terms s = true <-> mentions terms s.
Proof.
  unfold any_in, mentions. rewrite existsb_exists.
  split; intros (t & Hin & H); exists t; (split; [assumption | apply contains_spec, H]).
Qed.

Lemma any_in_false terms s : any_in terms s = false <-> ~ mentions terms s.
Proof.
  rewrite <- any_in_spec. destruct (any_in terms s); split; congruence.
Qed.

Lemma split_max1_nonempty sep s : exists a rest, split_max1 sep s = a :: rest.
Proof.
  induction s as [|c s IH]; simpl.
  - destruct (startswith sep ""); eauto.
  - destruct (startswith sep (String c s)); [eauto|].
    destruct IH as (a & rest & ->). simpl. eauto.
Qed.

Lemma split_max1_found sep s :
  contains sep s = true -> exists a b, split_max1 sep s = [a; b].
Proof.
  induction s as [|c s IH]; simpl.
  - rewrite orb_false_r. intros ->. eauto.
  - destruct (startswith sep (String c s)); simpl; [eauto|].
    intros H. destruct (IH H) as (a & b & ->). simpl. eauto.
Qed.

(** ** The parser *)

Lemma enumerate_length {A} (l : list A) k : List.length (enumerate k l) = List.length l.
Proof. revert k; induction l as [|x l IH]; intros k; simpl; [reflexivity | now rewrite IH]. Qed.

Lemma enumerate_lookup {A} (l : list A) k (n : nat) :
  enumerate k l !! n = (fun x => (k + Z.of_nat n, x)) <$> l !! n.
Proof.
  revert k n; induction l as [|x l IH]; intros k [|n]; simpl; try reflexivity.
  - now rewrite Z.add_0_r.
  - rewrite IH. destruct (l !! n); simpl; [|reflexivity].
    do 2 f_equal. lia.
Qed.

Lemma enumerate_In {A} (l : list A) k i x :
  In (i, x) (enumerate k l) ->
  k <= i < k + len l /\ l !! Z.to_nat (i - k) = Some x.
Proof.
  unfold len. intros H. apply list_elem_of_In, list_elem_of_lookup in H as [n H].
  rewrite enumerate_lookup in H. destruct (l !! n) eqn:E; simpl in H; [|discriminate].
  injection H as <- <-. apply lookup_lt_Some in E as Hn.
  replace (Z.to_nat (k + Z.of_nat n - k)) with n by lia. split; [lia | assumption].
Qed.

Lemma add_line_unfold ch line :
  add_line ch line =
  let content := strip (sub_leading_ordinal line) in
  if truthy content
  then mkChain (steps ch ++ [numbered_step (List.length (steps ch)) content])
               (relationships ch)
  else ch.
Proof. reflexivity. Qed.

Lemma fold_add_line_relationships lines ch :
  relationships (fold_left add_line lines ch) = relationships ch.
Proof.
  revert ch; induction lines as [|line lines IH]; intros ch; simpl; [reflexivity|].
  rewrite IH, add_line_unfold. simpl. destruct (truthy _); reflexivity.
Qed.

Lemma fold_add_line_texts lines ch :
  map text (steps (fold_left add_line lines ch)) =
  map text (steps ch)
  ++ List.filter truthy (map (fun l => strip (sub_leading_ordinal l)) lines).
Proof.
  revert ch; induction lines as [|line lines IH]; intros ch; simpl.
  - now rewrite app_nil_r.
  - rewrite IH, add_line_unfold. simpl. destruct (truthy _); simpl; [|reflexivity].
    rewrite map_app. simpl. now rewrite <- app_assoc.
Qed.

Lemma fold_add_line_ids lines ch :
  map step_id (steps (fold_left add_line lines ch)) =
  map step_id (steps ch)
  ++ map Z.of_nat
       (seq (S (List.length (steps ch)))
          (List.length
             (List.filter truthy (map (fun l => strip (sub_leading_ordinal l)) lines)))).
Proof.
  revert ch; induction lines as [|line lines IH]; intros ch; simpl.
  - now rewrite app_nil_r.
  - rewrite IH, add_line_unfold. simpl. destruct (truthy _); simpl; [|reflexivity].
    rewrite map_app, length_app. simpl. rewrite <- app_assoc. simpl.
    do 2 f_equal; [lia|]. do 2 f_equal. lia.
Qed.

Lemma fold_add_line_types lines ch :
  Forall (fun s => step_type s = determine_step_type (text s)) (steps ch) ->
  Forall (fun s => step_type s = determine_step_type (text s))
         (steps (fold_left add_line lines ch)).
Proof.
  revert ch; induction lines as [|line lines IH]; intros ch H; simpl; [assumption|].
  apply IH. rewrite add_line_unfold. simpl. destruct (truthy _); simpl; [|assumption].
  apply Forall_app; split; [assumption|]. constructor; [reflexivity | constructor].
Qed.

(** Lines that are blank after trimming do not survive normalization, so
    the two filters of [parse_text] amount to one. *)
Lemma parse_lines_surviving t :
  List.filter truthy
    (map (fun l => strip (sub_leading_ordinal l))
       (map strip (List.filter (fun line => truthy (strip line)) (split_on newline t))))
  = surviving_lines t.
Proof.
  unfold surviving_lines. induction (split_on newline t) as [|line lines IH].
  - reflexivity.
  - cbn [List.filter map]. unfold normalize_line at 1.
    destruct (truthy (strip line)) eqn:E.
    + cbn [map List.filter].
      destruct (truthy (strip (sub_leading_ordinal (strip line)))); [f_equal|]; exact IH.
    + destruct (strip line); [|discriminate]. cbn. exact IH.
Qed.

Section ParserProperties.

Variable nlp : string -> list Token.

Lemma relate_pair_fold s1 l k ch :
  steps (fold_left (relate_pair nlp s1) (enumerate k l) ch) = steps ch
  /\ relationships (fold_left (relate_pair nlp s1) (enumerate k l) ch) =
     relationships ch
     ++ map (contradicts_rel s1)
          (List.filter (fun s2 => are_contradictory nlp (text s1) (text s2)) l).
Proof.
  revert k ch; induction l as [|s2 l IH]; intros k ch.
  - simpl. now rewrite app_nil_r.
  - cbn [enumerate fold_left List.filter].
    destruct (IH (k + 1) (relate_pair nlp s1 ch (k, s2))) as [-> ->].
    unfold relate_pair. destruct (are_contradictory nlp (text s1) (text s2)); simpl.
    + split; [reflexivity | now rewrite <- app_assoc].
    + split; reflexivity.
Qed.

Lemma relate_from_fold pre suf ch :
  steps ch = pre ++ suf ->
  steps (fold_left (relate_from nlp) (enumerate (len pre) suf) ch) = steps ch
  /\ relationships (fold_left (relate_from nlp) (enumerate (len pre) suf) ch) =
     relationships ch ++ contradiction_pairs nlp suf.
Proof.
  revert pre ch; induction suf as [|s1 suf IH]; intros pre ch Hsteps.
  - simpl. now rewrite app_nil_r.
  - cbn [enumerate fold_left contradiction_pairs].
    assert (Hskip : List.skipn (Z.to_nat (len pre + 1)) (steps ch) = suf).
    { rewrite Hsteps. unfold len.
      replace (Z.to_nat (Z.of_nat (List.length pre) + 1)) with (List.length pre + 1)%nat by lia.
      replace (pre ++ s1 :: suf) with ((pre ++ [s1]) ++ suf)
        by (rewrite <- app_assoc; reflexivity).
      apply drop_app_length'. rewrite length_app. reflexivity. }
    assert (Hbody : relate_from nlp ch (len pre, s1) =
                    fold_left (relate_pair nlp s1) (enumerate (len pre + 1) suf) ch)
      by (unfold relate_from; rewrite Hskip; reflexivity).
    rewrite Hbody.
    destruct (relate_pair_fold s1 suf (len pre + 1) ch) as [Hs Hr].
    set (ch' := fold_left (relate_pair nlp s1) (enumerate (len pre + 1) suf) ch) in *.
    replace (len pre + 1) with (len (pre ++ [s1]))
      by (unfold len; rewrite length_app; simpl; lia).
    destruct (IH (pre ++ [s1]) ch') as [-> ->].
    { rewrite Hs, Hsteps, <- app_assoc. reflexivity. }
    rewrite Hs, Hr, <- app_assoc. split; reflexivity.
Qed.

Lemma analyze_relationships_spec ch :
  steps (analyze_relationships nlp ch) = steps ch
  /\ relationships (analyze_relationships nlp ch) =
     relationships ch ++ contradiction_pairs nlp (steps ch).
Proof. exact (relate_from_fold [] (steps ch) ch eq_refl). Qed.

Lemma parse_text_texts t : map text (steps (parse_text nlp t)) = surviving_lines t.
Proof.
  unfold parse_text. destruct (analyze_relationships_spec
    (fold_left add_line (map strip (List.filter (fun line => truthy (strip line))
       (split_on newline t))) empty_chain)) as [-> _].
  rewrite fold_add_line_texts. simpl. apply parse_lines_surviving.
Qed.

Lemma parse_text_ids t :
  map step_id (steps (parse_text nlp t)) =
  map Z.of_nat (seq 1 (List.length (surviving_lines t))).
Proof.
  unfold parse_text. destruct (analyze_relationships_spec
    (fold_left add_line (map strip (List.filter (fun line => truthy (strip line))
       (split_on newline t))) empty_chain)) as [-> _].
  rewrite fold_add_line_ids. simpl. now rewrite parse_lines_surviving.
Qed.

Lemma parse_text_types t :
  Forall (fun s => step_type s = determine_step_type (text s))
         (steps (parse_text nlp t)).
Proof.
  unfold parse_text. destruct (analyze_relationships_spec
    (fold_left add_line (map strip (List.filter (fun line => truthy (strip line))
       (split_on newline t))) empty_chain)) as [-> _].
  apply fold_add_line_types. constructor.
Qed.

Lemma parse_text_relationships t :
  relationships (parse_text nlp t) = contradiction_pairs nlp (steps (parse_text nlp t)).
Proof.
  unfold parse_text. destruct (analyze_relationships_spec
    (fold_left add_line (map strip (List.filter (fun line => truthy (strip line))
       (split_on newline t))) empty_chain)) as [-> ->].
  now rewrite fold_add_line_relationships.
Qed.

End ParserProperties.

(** ** Classification *)

Lemma determine_step_type_classified t : classified t (determine_step_type t).
Proof.
  unfold determine_step_type.
  destruct (any_in conclusion_indicators (lower t)) eqn:Ec.
  - apply classified_conclusion, any_in_spec, Ec.
  - apply any_in_false in Ec.
    destruct (any_in evidence_indicators (lower t)) eqn:Ee.
    + apply classified_evidence; [exact Ec | apply any_in_spec, Ee].
    + apply classified_premise; [exact Ec | apply any_in_false, Ee].
Qed.


(** ** Relationships *)

Lemma has_neg_spec w : has_neg w = true <-> negated w.
Proof.
  unfold has_neg, negated. rewrite existsb_exists.
  split; intros (neg & Hin & H); exists neg; (split; [assumption|]).
  - apply bool_decide_eq_true in H. exact H.
  - apply bool_decide_eq_true. exact H.
Qed.

Lemma has_neg_false w : has_neg w = false <-> ~ negated w.
Proof. rewrite <- has_neg_spec. destruct (has_neg w); split; congruence. Qed.

Section RelationshipProperties.

Variable nlp : string -> list Token.


Lemma contradiction_pairs_In l r :
  In r (contradiction_pairs nlp l) <->
  exists (i j : nat) s1 s2,
    (i < j)%nat /\ l !! i = Some s1 /\ l !! j = Some s2
    /\ are_contradictory nlp (text s1) (text s2) = true
    /\ r = contradicts_rel s1 s2.
Proof.
  induction l as [|s l IH]; simpl.
  - split; [contradiction | intros (i & j & s1 & s2 & _ & H & _); discriminate].
  - rewrite in_app_iff, IH, in_map_iff. split.
    + intros [(s2 & <- & Hin) | (i & j & s1 & s2 & Hij & Hi & Hj & Hc & ->)].
      * apply filter_In in Hin as [Hin Hc].
        apply list_elem_of_In, list_elem_of_lookup in Hin as [j Hj].
        exists 0%nat, (S j), s, s2. repeat split; [lia | assumption..].
      * exists (S i), (S j), s1, s2. repeat split; [lia | assumption..].
    + intros (i & j & s1 & s2 & Hij & Hi & Hj & Hc & ->).
      destruct j as [|j]; [lia|]. simpl in Hj. destruct i as [|i]; simpl in Hi.
      * injection Hi as ->. left. exists s2. split; [reflexivity|].
        apply filter_In. split; [|assumption].
        apply list_elem_of_In, list_elem_of_lookup. eauto.
      * right. exists i, j, s1, s2. repeat split; [lia | assumption..].
Qed.

End RelationshipProperties.

(** ** Chains that satisfy the data-model invariants *)

Lemma ids_in_order_lookup c (i : nat) s :
  ids_in_order c -> steps c !! i = Some s -> step_id s = Z.of_nat i + 1.
Proof.
  unfold ids_in_order. intros Hids Hi.
  assert (H : map step_id (steps c) !! i = Some (step_id s))
    by (rewrite list_lookup_fmap, Hi; reflexivity).
  rewrite Hids, list_lookup_fmap in H.
  apply lookup_lt_Some in Hi.
  rewrite lookup_seq_lt in H by assumption. simpl in H. injection H as <-. lia.
Qed.

Lemma find_is_Some {A} (p : A -> bool) l x :
  In x l -> p x = true -> exists y, List.find p l = Some y.
Proof.
  induction l as [|a l IH]; simpl; [contradiction|].
  intros [->|Hin] Hp.
  - rewrite Hp. eauto.
  - destruct (p a); eauto.
Qed.

Lemma get_step_found c s :
  In s (steps c) ->
  exists s', get_step c (step_id s) = Some s' /\ In s' (steps c) /\ step_id s' = step_id s.
Proof.
  intros Hin. unfold get_step.
  destruct (find_is_Some (fun x => step_id x =? step_id s) (steps c) s Hin) as [y Hy].
  - apply Z.eqb_refl.
  - exists y. split; [exact Hy|]. apply find_some in Hy as [H1 H2].
    split; [exact H1 | apply Z.eqb_eq, H2].
Qed.

Lemma get_step_at c (i : nat) s :
  ids_in_order c -> steps c !! i = Some s -> get_step c (step_id s) = Some s.
Proof.
  intros Hids Hi.
  assert (Hin : In s (steps c)) by (apply list_elem_of_In, list_elem_of_lookup; eauto).
  destruct (get_step_found c s Hin) as (s' & Hget & Hin' & Hid).
  rewrite Hget. f_equal.
  apply list_elem_of_In, list_elem_of_lookup in Hin' as [j Hj].
  pose proof (ids_in_order_lookup c i s Hids Hi).
  pose proof (ids_in_order_lookup c j s' Hids Hj).
  assert (j = i) by lia. subst j. congruence.
Qed.

Section ParsedChains.

Variable nlp : string -> list Token.

Lemma parse_text_ids_in_order t : ids_in_order (parse_text nlp t).
Proof.
  unfold ids_in_order. rewrite parse_text_ids.
  rewrite <- (parse_text_texts nlp t), length_map. reflexivity.
Qed.

Lemma parse_text_relationship_shape t r :
  In r (relationships (parse_text nlp t)) ->
  exists (i j : nat) s1 s2,
    (i < j)%nat
    /\ steps (parse_text nlp t) !! i = Some s1
    /\ steps (parse_text nlp t) !! j = Some s2
    /\ are_contradictory nlp (text s1) (text s2) = true
    /\ r = contradicts_rel s1 s2.
Proof. rewrite parse_text_relationships. apply contradiction_pairs_In. Qed.

Lemma parse_text_only_contradicts t r :
  In r (relationships (parse_text nlp t)) -> rel_type r = CONTRADICTS.
Proof.
  intros H. apply parse_text_relationship_shape in H
    as (i & j & s1 & s2 & _ & _ & _ & _ & ->). reflexivity.
Qed.

Lemma parse_text_endpoints t : endpoints_resolve (parse_text nlp t).
Proof.
  intros r H. apply parse_text_relationship_shape in H
    as (i & j & s1 & s2 & _ & Hi & Hj & _ & ->). simpl.
  rewrite (get_step_at _ i s1 (parse_text_ids_in_order t) Hi).
  rewrite (get_step_at _ j s2 (parse_text_ids_in_order t) Hj).
  split; eexists; reflexivity.
Qed.

Lemma parse_text_invariant t : chain_invariant (parse_text nlp t).
Proof. split; [apply parse_text_ids_in_order | apply parse_text_endpoints]. Qed.

End ParsedChains.

(** ** Classification and relationship inference *)



(** C9. Every relationship of a parsed chain has a source and a target
    that resolve, through [get_step], to steps of the chain.  The detectors
    and the scorer return issues only and leave the chain as it is, so the
    property still holds once they have run. *)
Theorem parse_text_relationships_resolve (nlp : string -> list Token) (t : string)
    (r : Relationship) :
  In r (relationships (parse_text nlp t)) ->
  exists s1 s2,
    get_step (parse_text nlp t) (source_id r) = Some s1
    /\ get_step (parse_text nlp t) (target_id r) = Some s2
    /\ In s1 (steps (parse_text nlp t)) /\ In s2 (steps (parse_text nlp t)).
Proof.
  intros H. apply parse_text_relationship_shape in H
    as (i & j & s1 & s2 & _ & Hi & Hj & _ & ->). simpl.
  exists s1, s2.
  rewrite (get_step_at _ i s1 (parse_text_ids_in_order nlp t) Hi).
  rewrite (get_step_at _ j s2 (parse_text_ids_in_order nlp t) Hj).
  repeat split; apply list_elem_of_In, list_elem_of_lookup; eauto.
Qed.

Lemma parse_text_relationships_resolve_witness :
  exists s1 s2,
    get_step (parse_text simple_nlp (unlines ["cats chase dogs"; "cats not chase dogs"])) 1
      = Some s1
    /\ get_step (parse_text simple_nlp (unlines ["cats chase dogs"; "cats not chase dogs"])) 2
      = Some s2
    /\ In s1 (steps (parse_text simple_nlp (unlines ["cats chase dogs"; "cats not chase dogs"])))
    /\ In s2 (steps (parse_text simple_nlp (unlines ["cats chase dogs"; "cats not chase dogs"]))).
Proof.
  apply (parse_text_relationships_resolve simple_nlp
           (unlines ["cats chase dogs"; "cats not chase dogs"])
           (mkRel 1 2 CONTRADICTS 1)).
  vm_compute. left. reflexivity.
Defined.






(** ** The error monad *)

Lemma nth_error_lookup {A} (l : list A) (n : nat) : nth_error l n = l !! n.
Proof. revert n; induction l as [|x l IH]; intros [|n]; simpl; auto. Qed.

Lemma py_index_lookup {A} (l : list A) (n : nat) x :
  l !! n = Some x -> py_index l (Z.of_nat n) = Ok x.
Proof.
  intros H. pose proof (lookup_lt_Some _ _ _ H) as Hlt. unfold py_index.
  destruct (Z.ltb_spec (Z.of_nat n) 0); [lia|].
  destruct (Z.leb_spec 0 (Z.of_nat n)); [|lia].
  destruct (Z.ltb_spec (Z.of_nat n) (Z.of_nat (List.length l))); [|lia].
  cbn [andb]. rewrite Nat2Z.id, nth_error_lookup, H. reflexivity.
Qed.

Lemma py_index_in_range {A} (l : list A) (i : Z) :
  0 <= i < len l -> exists x, py_index l i = Ok x /\ l !! Z.to_nat i = Some x.
Proof.
  unfold len. intros H.
  destruct (lookup_lt_is_Some_2 l (Z.to_nat i)) as [x Hx]; [lia|].
  exists x. split; [|exact Hx].
  rewrite <- (Z2Nat.id i) by lia. apply py_index_lookup, Hx.
Qed.

Lemma py_index_head {A} (a : A) l : py_index (a :: l) 0 = Ok a.
Proof. apply (py_index_lookup (a :: l) 0 a). reflexivity. Qed.

Lemma py_index_second {A} (a b : A) l : py_index (a :: b :: l) 1 = Ok b.
Proof. apply (py_index_lookup (a :: b :: l) 1 b). reflexivity. Qed.

Lemma py_index_raises {A} (l : list A) i e : py_index l i = Raise e -> e = IndexError.
Proof.
  unfold py_index. destruct (_ && _); [destruct (nth_error _ _)|]; congruence.
Qed.

Lemma py_div_nonzero a b : b <> 0 -> py_div a b = Ok (Qmake a (Z.to_pos b)).
Proof. intros H. unfold py_div. destruct (Z.eqb_spec b 0); [contradiction | reflexivity]. Qed.

Lemma forM_total {A S} (l : list A) (body : S -> A -> result S) acc :
  (forall acc x, In x l -> exists acc', body acc x = Ok acc') ->
  exists r, forM l body acc = Ok r.
Proof.
  revert acc; induction l as [|x l IH]; intros acc H; simpl; [eauto|].
  destruct (H acc x) as [acc' ->]; [left; reflexivity|]. cbn [bind].
  apply IH. intros; apply H; right; assumption.
Qed.

Lemma forM_invariant {A S} (Inv : S -> Prop) (l : list A)
    (body : S -> A -> result S) acc r :
  Inv acc ->
  (forall acc x acc', In x l -> Inv acc -> body acc x = Ok acc' -> Inv acc') ->
  forM l body acc = Ok r -> Inv r.
Proof.
  revert acc; induction l as [|x l IH]; intros acc H0 Hstep; simpl.
  - intros [= <-]. exact H0.
  - destruct (body acc x) as [acc'|e] eqn:E; cbn [bind]; [|discriminate].
    apply IH.
    + eapply Hstep; [left; reflexivity | exact H0 | exact E].
    + intros a y a' Hy. apply Hstep. right; assumption.
Qed.

Lemma anyM_total {A} (f : A -> result bool) l :
  (forall x, In x l -> exists b, f x = Ok b) -> exists b, anyM f l = Ok b.
Proof.
  induction l as [|x l IH]; intros H; simpl; [eauto|].
  destruct (H x) as [b ->]; [left; reflexivity|]. cbn [bind].
  destruct b; [eauto|]. apply IH. intros; apply H; right; assumption.
Qed.

Lemma range_In n i : In i (range n) -> 0 <= i < n.
Proof.
  unfold range. rewrite in_map_iff. intros (k & <- & Hk).
  apply in_seq in Hk. lia.
Qed.

Lemma range_lookup n (k : nat) : (k < Z.to_nat n)%nat -> In (Z.of_nat k) (range n).
Proof.
  intros H. unfold range. apply in_map, in_seq. lia.
Qed.

(** ** The contradiction detector *)

Lemma find_contradictions_from c l acc :
  (forall r, In r l ->
     is_Some (get_step c (source_id r)) /\ is_Some (get_step c (target_id r))) ->
  exists issues,
    forM l (report_contradiction c) acc = Ok (acc ++ issues)
    /\ Forall2 (projects c) (List.filter is_contradicts l) issues.
Proof.
  revert acc; induction l as [|r l IH]; intros acc H.
  - exists []. simpl. rewrite app_nil_r. split; [reflexivity | constructor].
  - cbn [forM List.filter]. unfold is_contradicts at 1, report_contradiction at 1.
    destruct (H r) as [[s1 Hs1] [s2 Hs2]]; [left; reflexivity|].
    assert (Hl : forall r', In r' l ->
              is_Some (get_step c (source_id r')) /\ is_Some (get_step c (target_id r')))
      by (intros; apply H; right; assumption).
    destruct (RelationshipType_eqb (rel_type r) CONTRADICTS).
    + unfold py_next. unfold get_step in Hs1, Hs2. rewrite Hs1, Hs2. cbn [bind].
      destruct (IH (acc ++ [contradiction r s1 s2]) Hl) as (issues & -> & HF).
      exists (contradiction r s1 s2 :: issues). split.
      * rewrite <- app_assoc. reflexivity.
      * constructor; [|exact HF].
        repeat split. exists s1, s2. repeat split; assumption.
    + cbn [bind]. apply IH, Hl.
Qed.

Lemma find_contradictions_spec c :
  endpoints_resolve c ->
  exists issues,
    find_contradictions c = Ok issues
    /\ Forall2 (projects c) (List.filter is_contradicts (relationships c)) issues.
Proof.
  intros H. destruct (find_contradictions_from c (relationships c) [] H) as (issues & E & HF).
  exists issues. split; [exact E | exact HF].
Qed.

Lemma is_contradicts_spec r : is_contradicts r = true <-> rel_type r = CONTRADICTS.
Proof. unfold is_contradicts. destruct (rel_type r); cbn; split; congruence. Qed.

Lemma contradicts_of_filter rs out :
  contradicts_of rs out -> out = List.filter is_contradicts rs.
Proof.
  induction 1 as [|r rs out Hr _ IH|r rs out Hr _ IH]; cbn [List.filter].
  - reflexivity.
  - apply is_contradicts_spec in Hr. rewrite Hr, IH. reflexivity.
  - destruct (is_contradicts r) eqn:E; [|exact IH].
    apply is_contradicts_spec in E. contradiction.
Qed.

Lemma contradicts_of_total rs : exists out, contradicts_of rs out.
Proof.
  induction rs as [|r rs [out IH]]; [exists []; constructor|].
  destruct (rel_type r) eqn:E.
  2: exists (r :: out); apply contradicts_of_keep; assumption.
  all: exists out; apply contradicts_of_skip; [congruence | assumption].
Qed.

(** C3. For every chain (a chain of the data model, whose relationships
    all resolve to steps), the contradiction detector returns exactly one
    issue per relationship whose type is CONTRADICTS, in order and with
    multiplicity: a high-severity "contradiction" issue that carries the
    two step ids of the relationship and the texts of the two steps. *)
Theorem find_contradictions_projection (c : ReasoningChain) (rs : list Relationship) :
  endpoints_resolve c ->
  contradicts_of (relationships c) rs ->
  exists issues,
    find_contradictions c = Ok issues
    /\ Forall2 (projects c) rs issues
    /\ List.length issues = List.length rs.
Proof.
  intros H Hrs. destruct (find_contradictions_spec c H) as (issues & E & HF).
  rewrite <- (contradicts_of_filter _ _ Hrs) in HF.
  exists issues. repeat split; [exact E | exact HF |].
  symmetry. eapply Forall2_length, HF.
Qed.

Lemma find_contradictions_projection_witness :
  exists issues,
    find_contradictions
      (mkChain [mkStep 1 "cats chase dogs" EVIDENCE 1 [];
                mkStep 2 "cats not chase dogs" EVIDENCE 1 []]
               [mkRel 2 1 SUPPORTS 1; mkRel 1 2 CONTRADICTS 1; mkRel 1 2 CONTRADICTS 1])
    = Ok issues
    /\ Forall2
         (projects
            (mkChain [mkStep 1 "cats chase dogs" EVIDENCE 1 [];
                      mkStep 2 "cats not chase dogs" EVIDENCE 1 []]
                     [mkRel 2 1 SUPPORTS 1; mkRel 1 2 CONTRADICTS 1;
                      mkRel 1 2 CONTRADICTS 1]))
         [mkRel 1 2 CONTRADICTS 1; mkRel 1 2 CONTRADICTS 1] issues
    /\ List.length issues
       = List.length [mkRel 1 2 CONTRADICTS 1; mkRel 1 2 CONTRADICTS 1].
Proof.
  apply (find_contradictions_projection
           (mkChain [mkStep 1 "cats chase dogs" EVIDENCE 1 [];
                     mkStep 2 "cats not chase dogs" EVIDENCE 1 []]
                    [mkRel 2 1 SUPPORTS 1; mkRel 1 2 CONTRADICTS 1;
                     mkRel 1 2 CONTRADICTS 1])).
  - intros r Hr. cbn [relationships In] in Hr.
    destruct Hr as [<- | [<- | [<- | []]]]; vm_compute; split; eexists; reflexivity.
  - cbn [relationships].
    apply contradicts_of_skip; [discriminate|].
    apply contradicts_of_keep; [reflexivity|].
    apply contradicts_of_keep; [reflexivity|].
    apply contradicts_of_nil.
Defined.

(** On the chain of the witness the detector returns the issue of the
    CONTRADICTS relationship twice and nothing for the SUPPORTS one. *)
Lemma find_contradictions_example :
  find_contradictions
    (mkChain [mkStep 1 "cats chase dogs" EVIDENCE 1 [];
              mkStep 2 "cats not chase dogs" EVIDENCE 1 []]
             [mkRel 2 1 SUPPORTS 1; mkRel 1 2 CONTRADICTS 1; mkRel 1 2 CONTRADICTS 1])
  = Ok [contradiction (mkRel 1 2 CONTRADICTS 1)
          (mkStep 1 "cats chase dogs" EVIDENCE 1 [])
          (mkStep 2 "cats not chase dogs" EVIDENCE 1 []);
        contradiction (mkRel 1 2 CONTRADICTS 1)
          (mkStep 1 "cats chase dogs" EVIDENCE 1 [])
          (mkStep 2 "cats not chase dogs" EVIDENCE 1 [])].
Proof. reflexivity. Qed.

(** Without the invariant the detector does not return: [next] finds no
    step for a relationship whose source is not in the chain. *)
Lemma find_contradictions_dangling :
  find_contradictions (mkChain [] [mkRel 1 2 CONTRADICTS 1]) = Raise StopIteration.
Proof. reflexivity. Qed.

(** ** The unsupported-claims detector *)

Lemma find_first {A} (p : A -> bool) l x :
  List.find p l = Some x ->
  exists before after,
    l = before ++ x :: after /\ p x = true /\ Forall (fun y => p y = false) before.
Proof.
  induction l as [|a l IH]; simpl; [discriminate|].
  destruct (p a) eqn:E.
  - intros [= <-]. exists [], l. repeat split; [assumption | constructor].
  - intros H. destruct (IH H) as (before & after & -> & Hp & HF).
    exists (a :: before), after. repeat split; [assumption|]. constructor; assumption.
Qed.

Lemma scan_assumption_indicators_spec s tl inds :
  scan_assumption_indicators s tl inds =
  if any_in softening_phrases tl || any_in conditional_markers tl then []
  else match List.find (fun p => contains (fst p) tl) inds with
       | Some p => [potential_assumption s (snd p)]
       | None => []
       end.
Proof.
  induction inds as [|[ind conf] rest IH]; cbn [scan_assumption_indicators List.find fst].
  - destruct (_ || _); reflexivity.
  - rewrite IH. destruct (contains ind tl); [|reflexivity].
    destruct (any_in softening_phrases tl); [reflexivity|].
    destruct (any_in conditional_markers tl); reflexivity.
Qed.

Lemma assumption_issues_softened s :
  softened (lower (text s)) -> assumption_issues s = [].
Proof.
  unfold assumption_issues, softened. rewrite scan_assumption_indicators_spec.
  change softening_phrases with listed_frames.
  change conditional_markers with listed_conditionals.
  intros [H|H]; apply any_in_spec in H; rewrite H; [|rewrite orb_true_r]; reflexivity.
Qed.

Lemma assumption_issues_cases s :
  assumption_issues s = []
  \/ exists ind conf,
       assumption_issues s = [potential_assumption s conf]
       /\ first_match (lower (text s)) ind conf
       /\ ~ softened (lower (text s)).
Proof.
  unfold assumption_issues. rewrite scan_assumption_indicators_spec.
  change softening_phrases with listed_frames.
  change conditional_markers with listed_conditionals.
  change assumption_indicators with listed_indicators.
  destruct (any_in listed_frames _) eqn:Es; [left; reflexivity|].
  destruct (any_in listed_conditionals _) eqn:Ec; [left; reflexivity|]. cbn [orb].
  destruct (List.find _ _) as [[ind conf]|] eqn:Ef; [right | left; reflexivity].
  exists ind, conf. split; [reflexivity|]. split.
  - apply find_first in Ef as (before & after & E & Hp & HF).
    exists before, after. split; [exact E|]. split; [apply contains_spec, Hp|].
    eapply Forall_impl; [exact HF|]. cbn. intros p Hp' Hsub.
    apply contains_spec in Hsub. congruence.
  - apply any_in_false in Es, Ec. intros [H|H]; contradiction.
Qed.

Lemma filter_flat_map_keep {A B} (p : B -> bool) (f : A -> list B) l :
  (forall x y, In y (f x) -> p y = true) ->
  List.filter p (flat_map f l) = flat_map f l.
Proof.
  intros H. induction l as [|x l IH]; simpl; [reflexivity|].
  rewrite List.filter_app, IH. f_equal.
  apply forallb_filter_id, forallb_forall. intros y Hy. eapply H, Hy.
Qed.

Lemma filter_flat_map_drop {A B} (p : B -> bool) (f : A -> list B) l :
  (forall x y, In y (f x) -> p y = false) ->
  List.filter p (flat_map f l) = [].
Proof.
  intros H. induction l as [|x l IH]; simpl; [reflexivity|].
  rewrite List.filter_app, IH, app_nil_r.
  assert (Hx := H x). induction (f x) as [|y ys IHy]; simpl; [reflexivity|].
  rewrite (Hx y) by (left; reflexivity). apply IHy. intros; apply Hx; right; assumption.
Qed.

Lemma assumption_issues_type s i :
  In i (assumption_issues s) -> has_type "potential_assumption" i = true.
Proof.
  destruct (assumption_issues_cases s) as [-> | (ind & conf & -> & _)]; [contradiction|].
  intros [<- | []]. reflexivity.
Qed.

Lemma support_issues_cases c s :
  support_issues c s = [] \/ support_issues c s = [consider_adding_support s].
Proof.
  unfold support_issues. cbv zeta.
  destruct (_ && _); [|left; reflexivity].
  destruct (_ && _); [right | left]; reflexivity.
Qed.

Lemma support_issues_type c s i :
  In i (support_issues c s) -> has_type "potential_assumption" i = false.
Proof.
  destruct (support_issues_cases c s) as [-> | ->]; [contradiction|].
  intros [<- | []]. reflexivity.
Qed.

Lemma find_unsupported_claims_parts c :
  exists plan,
    (plan = [] \/ plan = [planning_analysis])
    /\ exists support,
         (support = [] \/ support = flat_map (support_issues c) (steps c))
         /\ find_unsupported_claims c
            = support ++ plan ++ flat_map assumption_issues (steps c).
Proof.
  unfold find_unsupported_claims. cbv zeta.
  destruct (negb _ && negb _); destruct (_ && (1 <? _)); cbn [app].
  - exists [planning_analysis]. split; [right; reflexivity|]. eexists. split; [right; reflexivity|].
    rewrite <- app_assoc. reflexivity.
  - exists []. split; [left; reflexivity|]. eexists. split; [right; reflexivity|]. reflexivity.
  - exists [planning_analysis]. split; [right; reflexivity|]. exists []. split; [left; reflexivity|].
    reflexivity.
  - exists []. split; [left; reflexivity|]. exists []. split; [left; reflexivity|]. reflexivity.
Qed.

Lemma find_unsupported_claims_assumptions c :
  List.filter (has_type "potential_assumption") (find_unsupported_claims c)
  = flat_map assumption_issues (steps c).
Proof.
  destruct (find_unsupported_claims_parts c) as (plan & Hp & support & Hs & ->).
  rewrite !List.filter_app, (filter_flat_map_keep _ _ _ assumption_issues_type).
  assert (Es : List.filter (has_type "potential_assumption") support = []).
  { destruct Hs as [-> | ->]; [reflexivity|].
    apply filter_flat_map_drop, support_issues_type. }
  assert (Ep : List.filter (has_type "potential_assumption") plan = []).
  { destruct Hp as [-> | ->]; reflexivity. }
  rewrite Es, Ep. reflexivity.
Qed.

Lemma assumption_issues_In c i :
  In i (flat_map assumption_issues (steps c)) -> In i (find_unsupported_claims c).
Proof.
  destruct (find_unsupported_claims_parts c) as (plan & _ & support & _ & ->).
  intros H. apply in_app_iff. right. apply in_app_iff. right. exact H.
Qed.

(** Every issue of this detector lacks both the [step] and the [step_ids]
    key. *)
Lemma find_unsupported_claims_no_step c i :
  In i (find_unsupported_claims c) -> step i = None /\ step_ids i = None.
Proof.
  destruct (find_unsupported_claims_parts c) as (plan & Hp & support & Hs & ->).
  rewrite !in_app_iff. intros [H | [H | H]].
  - destruct Hs as [-> | ->]; [contradiction|].
    apply in_flat_map in H as (s & _ & Hi).
    destruct (support_issues_cases c s) as [E | E]; rewrite E in Hi; [contradiction|].
    destruct Hi as [<- | []]. split; reflexivity.
  - destruct Hp as [-> | ->]; [contradiction|].
    destruct H as [<- | []]. split; reflexivity.
  - apply in_flat_map in H as (s & _ & Hi).
    destruct (assumption_issues_cases s) as [E | (ind & conf & E & _)];
      rewrite E in Hi; [contradiction|]. destruct Hi as [<- | []]. split; reflexivity.
Qed.

Lemma find_before {A} (p : A -> bool) before x after :
  p x = true -> Forall (fun y => p y = false) before ->
  List.find p (before ++ x :: after) = Some x.
Proof.
  intros Hx. induction 1 as [|y before Hy _ IH]; cbn [app List.find].
  - rewrite Hx. reflexivity.
  - rewrite Hy. exact IH.
Qed.

Lemma assumption_issues_emitted s ind conf :
  ~ softened (lower (text s)) -> first_match (lower (text s)) ind conf ->
  assumption_issues s = [potential_assumption s conf].
Proof.
  intros Hs (before & after & E & Hsub & HF).
  unfold assumption_issues. rewrite scan_assumption_indicators_spec.
  change softening_phrases with listed_frames.
  change conditional_markers with listed_conditionals.
  change assumption_indicators with listed_indicators.
  destruct (any_in listed_frames _) eqn:Ef;
    [exfalso; apply Hs; left; apply any_in_spec, Ef|].
  destruct (any_in listed_conditionals _) eqn:Ec;
    [exfalso; apply Hs; right; apply any_in_spec, Ec|].
  cbn [orb]. rewrite E, find_before; [reflexivity | apply contains_spec, Hsub|].
  eapply Forall_impl; [exact HF|]. cbn. intros q Hq.
  destruct (contains (fst q) (lower (text s))) eqn:Eq; [|reflexivity].
  exfalso. apply Hq, contains_spec, Eq.
Qed.

(** C6, amended. The potential-assumption issues of the unsupported-claims
    pass are, step by step, those of [assumption_issues]; a step yields at
    most one of them, of severity low, carrying the weight of the first of
    the seven indicators that occurs in the lowercased step; a step that
    holds one of the eleven listed phrases or a conditional marker yields
    none; and every other step in which an indicator occurs yields exactly
    the issue of its first indicator. *)
Theorem potential_assumption_per_step (c : ReasoningChain) :
  List.filter (has_type "potential_assumption") (find_unsupported_claims c)
  = flat_map assumption_issues (steps c)
  /\ forall s : ReasoningStep,
       (List.length (assumption_issues s) <= 1)%nat
       /\ (forall i, In i (assumption_issues s) ->
             issue_type i = "potential_assumption" /\ severity i = "low"
             /\ exists ind conf,
                  first_match (lower (text s)) ind conf /\ confidence i = Some conf)
       /\ (softened (lower (text s)) -> assumption_issues s = [])
       /\ (forall ind conf,
             ~ softened (lower (text s)) ->
             first_match (lower (text s)) ind conf ->
             assumption_issues s = [potential_assumption s conf]).
Proof.
  split; [apply find_unsupported_claims_assumptions|]. intros s.
  split; [|split; [|split; [apply assumption_issues_softened|]]].
  - destruct (assumption_issues_cases s) as [-> | (ind & conf & -> & _)]; simpl; lia.
  - intros i Hi.
    destruct (assumption_issues_cases s) as [E | (ind & conf & E & Hf & _)];
      rewrite E in Hi; [contradiction|]. destruct Hi as [<- | []].
    repeat split. exists ind, conf. split; [exact Hf | reflexivity].
  - intros ind conf. apply assumption_issues_emitted.
Qed.

Lemma potential_assumption_per_step_witness :
  assumption_issues (mkStep 1 "Taxes must fall" PREMISE 1 [])
  = [potential_assumption (mkStep 1 "Taxes must fall" PREMISE 1 []) (9 # 10)].
Proof.
  apply (proj2 (proj2 (proj2 (proj2 (potential_assumption_per_step
                                       (mkChain [mkStep 1 "Taxes must fall" PREMISE 1 []] []))
                               (mkStep 1 "Taxes must fall" PREMISE 1 []))))
           "must" (9 # 10)).
  - intros [H | H]; apply any_in_spec in H; vm_compute in H; discriminate H.
  - exists [], [("should", 7 # 10); ("have to", 6 # 10); ("need to", 5 # 10);
                ("ought to", 8 # 10); ("always", 9 # 10); ("never", 9 # 10)]%Q.
    split; [reflexivity|]. split; [apply contains_spec; reflexivity | constructor].
Defined.

(** C6 as stated fails: the code lists eleven phrases and not every
    first-, second- or indefinite-person frame.  "I need to go" holds the
    frame "i need to", which is not listed, and the pass reports the step
    with the weight 0.5 of "need to". *)
Lemma potential_assumption_person_frame_refuted :
  ~ (forall (c : ReasoningChain) (s : ReasoningStep),
        In s (steps c) ->
        softened_as_specified (lower (text s)) ->
        forall conf, ~ In (potential_assumption s conf) (find_unsupported_claims c)).
Proof.
  intros H.
  apply (H (mkChain [mkStep 1 "I need to go" PREMISE 1 []] [])
           (mkStep 1 "I need to go" PREMISE 1 []) (or_introl eq_refl)) with (conf := (5 # 10)%Q).
  - left. exists "i", "need to". split; [left; reflexivity|]. split.
    + cbn. tauto.
    + apply contains_spec. reflexivity.
  - vm_compute. left. reflexivity.
Qed.

(** ** The circular-reasoning detector returns *)

Lemma py_index_single_1 {A} (a : A) : py_index [a] 1 = Raise IndexError.
Proof. reflexivity. Qed.

Lemma set_truthy_size s : set_truthy s = true -> size_Z s <> 0.
Proof.
  unfold set_truthy, size_Z. destruct (Nat.eqb_spec (size s) 0); [discriminate | lia].
Qed.

Lemma set_truthy_union a b : set_truthy a = true -> size_Z (a ∪ b) <> 0.
Proof.
  intros H. apply set_truthy_size in H. unfold size_Z in *.
  pose proof (subseteq_size a (a ∪ b) (union_subseteq_l a b)). lia.
Qed.

(** Runs a computation of the error monad whose guards make every index
    valid. *)
Ltac resolve_split :=
  match goal with
  | H : contains ?sep ?s = true |- context [split_max1 ?sep ?s] =>
      let a := fresh "a" in
      let b := fresh "b" in
      destruct (split_max1_found sep s H) as (a & b & ->)
  | |- context [split_max1 ?sep ?s] =>
      let a := fresh "a" in
      let rest := fresh "rest" in
      destruct (split_max1_nonempty sep s) as (a & rest & ->)
  end.

Ltac run_step :=
  first
    [ progress rewrite ?py_index_head, ?py_index_second, ?py_index_single_1
    | progress cbn [bind orelse andb orb negb catch_IndexError]
    | match goal with
      | |- exists _, Ok _ = Ok _ => eexists; reflexivity
      | |- context [py_index (_ :: ?rest) 1] => is_var rest; destruct rest
      | |- context [if ?c then _ else _] =>
          match c with
          | context [contains ?p ?s] => destruct (contains p s) eqn:?
          | _ => destruct c eqn:?
          end
      | |- context [let '(_, _) := ?p in _] => destruct p
      end
    | resolve_split ].

Ltac run := cbv zeta; repeat run_step.

Section CircularReturns.

Variable nlp : string -> list Token.

Lemma circular_because_swap_total t1 t2 :
  exists b, circular_because_swap t1 t2 = Ok b.
Proof. unfold circular_because_swap. run. Qed.

Lemma circular_says_so_total t1 t2 : exists b, circular_says_so t1 t2 = Ok b.
Proof. unfold circular_says_so. run. Qed.

Lemma circular_subjects_total t1 t2 : exists b, circular_subjects t1 t2 = Ok b.
Proof. unfold circular_subjects. run. Qed.

Lemma circular_lemma_overlap_total t1 t2 :
  exists b, circular_lemma_overlap nlp t1 t2 = Ok b.
Proof.
  unfold circular_lemma_overlap. cbv zeta.
  destruct (contains " because " t1) eqn:E1; [|run].
  destruct (contains " because " t2) eqn:E2; [|run].
  repeat resolve_split. rewrite !py_index_head, !py_index_second.
  cbn [bind andb].
  destruct (contains (strip a) b0); cbn [bind];
    try (destruct (_ && _ && _); [eexists; reflexivity|]).
  all: destruct (set_truthy (lemma_set (nlp a))) eqn:Et; cbn [andb]; [|run].
  all: destruct (set_truthy (lemma_set (nlp b0))); [|run].
  all: rewrite py_div_nonzero by (apply set_truthy_union, Et).
  all: cbn [bind]; eexists; reflexivity.
Qed.

Lemma is_circular_total t1 t2 : exists b, is_circular nlp t1 t2 = Ok b.
Proof.
  unfold is_circular.
  destruct (circular_because_swap_total t1 t2) as [b1 ->].
  destruct (circular_says_so_total t1 t2) as [b2 ->].
  destruct (circular_subjects_total t1 t2) as [b3 ->].
  destruct (circular_lemma_overlap_total t1 t2) as [b4 ->].
  cbn [orelse bind].
  destruct (_ && _); [eauto|]. destruct b1; [eauto|]. destruct b2; [eauto|].
  destruct b3; eauto.
Qed.

End CircularReturns.

Lemma forM_appending {A S} (proj : S -> list Issue) (Q : Issue -> Prop)
    (l : list A) (body : S -> A -> result S) st :
  (forall st x, In x l ->
     exists st' new, body st x = Ok st' /\ proj st' = proj st ++ new /\ Forall Q new) ->
  exists st' new, forM l body st = Ok st' /\ proj st' = proj st ++ new /\ Forall Q new.
Proof.
  revert st; induction l as [|x l IH]; intros st H; simpl.
  - exists st, []. rewrite app_nil_r. repeat split. constructor.
  - destruct (H st x) as (st1 & new1 & -> & E1 & Q1); [left; reflexivity|]. cbn [bind].
    destruct (IH st1) as (st2 & new2 & -> & E2 & Q2).
    { intros; apply H; right; assumption. }
    exists st2, (new1 ++ new2). split; [reflexivity|]. split.
    + rewrite E2, E1, <- app_assoc. reflexivity.
    + apply Forall_app; split; assumption.
Qed.

(** Closes a goal [exists new, Ok l = Ok (issues ++ new) /\ Forall Q new]
    where [l] extends [issues] by at most two issues. *)
Ltac appended :=
  first
    [ exists (@nil Issue); split; [rewrite app_nil_r; reflexivity | constructor]
    | eexists [_]; split; [reflexivity | repeat constructor]
    | eexists [_; _]; split; [rewrite <- app_assoc; reflexivity | repeat constructor] ].

Section CircularDetector.

Variable nlp : string -> list Token.

Lemma first_pass_step_spec c st i s :
  exists st' new,
    first_pass_step nlp c st (i, s) = Ok st'
    /\ snd st' = snd st ++ new /\ Forall circular_typed new.
Proof.
  destruct st as [seen issues]. unfold first_pass_step. cbv zeta.
  assert (Hfirst : exists new,
    (if (i <? len (steps c) - 1) && (i =? 0)
     then
       let! next := py_index (steps c) (i + 1) in
       if contains "bible" (lower (text s))
          && contains "is true because it says so" (lower (text s))
          && contains "says so because it's true" (lower (text next))
       then
         Ok (issues ++
             [circular_issue
                ("Steps " +:+ of_int (i + 1) +:+ " and " +:+ of_int (i + 2)
                   +:+ " form a circular argument")
                (i + 1) (i + 2)
                ["This is a classic example of circular reasoning - the conclusion is used as its own evidence";
                 "Provide independent evidence to support the claim"]])
       else Ok issues
     else Ok issues) = Ok (issues ++ new) /\ Forall circular_typed new).
  { destruct (Z.ltb_spec i (len (steps c) - 1)), (Z.eqb_spec i 0); cbn [andb];
      try (exists []; rewrite app_nil_r; split; [reflexivity | constructor]).
    destruct (py_index_in_range (steps c) (i + 1)) as (next & -> & _); [lia|].
    cbn [bind]. destruct (_ && _ && _).
    - eexists. split; [reflexivity|]. repeat constructor.
    - exists []. rewrite app_nil_r. split; [reflexivity | constructor]. }
  destruct Hfirst as (new & -> & Hnew). cbn [bind].
  destruct (seen !! normalize nlp (text s)); [destruct (3 <? _)|].
  - eexists _, (new ++ [_]). cbn [snd]. split; [reflexivity|]. split.
    + rewrite <- app_assoc. reflexivity.
    + apply Forall_app. split; [exact Hnew|]. repeat constructor.
  - eexists _, new. cbn [snd]. repeat split. exact Hnew.
  - eexists _, new. cbn [snd]. repeat split. exact Hnew.
Qed.

Lemma circular_pair_spec c issues i :
  0 <= i < len (steps c) - 1 ->
  exists new,
    circular_pair nlp c issues i = Ok (issues ++ new) /\ Forall circular_typed new.
Proof.
  intros Hi. unfold circular_pair. cbv zeta.
  destruct (py_index_in_range (steps c) i) as (current & -> & _); [lia|].
  destruct (py_index_in_range (steps c) (i + 1)) as (next & -> & _); [lia|].
  cbn [bind].
  destruct (is_circular_total nlp (lower (text current)) (lower (text next))) as [b1 ->].
  destruct (is_circular_total nlp (lower (text next)) (lower (text current))) as [b2 ->].
  cbn [orelse bind].
  set (cur := lemma_set (nlp (lower (text current)))).
  set (nxt := lemma_set (nlp (lower (text next)))).
  assert (Hc : exists c1, (if b1 then Ok true else Ok b2) = Ok c1) by (destruct b1; eauto).
  destruct Hc as [c1 ->]. cbn [bind].
  destruct (set_truthy cur) eqn:Et; cbn [andb];
    [destruct (set_truthy nxt); [destruct (3 <=? size_Z (cur ∩ nxt))|]|];
    rewrite ?py_div_nonzero by (apply set_truthy_size, Et); cbn [bind];
    try destruct (Qlt_bool _ _); destruct c1; appended.
Qed.

Lemma find_circular_reasoning_spec c :
  exists issues, find_circular_reasoning nlp c = Ok issues /\ Forall circular_typed issues.
Proof.
  unfold find_circular_reasoning, circular_first_pass.
  destruct (forM_appending snd circular_typed (enumerate 0 (steps c))
              (first_pass_step nlp c) (∅, [])) as (st & new & -> & E & Hnew).
  { intros st [i s] _. apply first_pass_step_spec. }
  cbn [bind]. cbn [snd app] in E. rewrite E.
  destruct (2 <=? len (steps c)); [|eauto].
  destruct (forM_appending (fun l => l) circular_typed (range (len (steps c) - 1))
              (circular_pair nlp c) new) as (issues & new' & -> & -> & Hnew').
  { intros acc i Hi. apply range_In in Hi.
    destruct (circular_pair_spec c acc i Hi) as (new' & E' & H'). eauto. }
  eexists. split; [reflexivity|]. apply Forall_app; split; assumption.
Qed.

End CircularDetector.

(** ** The emotional-reasoning detector *)

Lemma get_step_id_range c k :
  ids_in_order c -> is_Some (get_step c k) -> 1 <= k <= len (steps c).
Proof.
  intros Hids [s Hs]. unfold get_step in Hs. apply find_some in Hs as [Hin Hk].
  apply Z.eqb_eq in Hk. apply list_elem_of_In, list_elem_of_lookup in Hin as [j Hj].
  pose proof (ids_in_order_lookup c j s Hids Hj).
  apply lookup_lt_Some in Hj. unfold len. lia.
Qed.

Lemma no_supports_filter c :
  no_supports c ->
  List.filter (fun r => RelationshipType_eqb (rel_type r) SUPPORTS) (relationships c) = [].
Proof.
  unfold no_supports. induction (relationships c) as [|r l IH]; intros H; simpl.
  - reflexivity.
  - destruct (rel_type r) eqn:E; simpl; try (apply IH; intros; apply H; right; assumption).
    exfalso. apply (H r); [left; reflexivity | exact E].
Qed.

Lemma no_supports_premise c s :
  no_supports c -> existsb (supports_from s) (relationships c) = false.
Proof.
  unfold no_supports. induction (relationships c) as [|r l IH]; intros H; simpl.
  - reflexivity.
  - rewrite IH by (intros; apply H; right; assumption). rewrite orb_false_r.
    unfold supports_from. destruct (rel_type r) eqn:E; simpl;
      rewrite ?andb_false_r; try reflexivity.
    exfalso. apply (H r); [left; reflexivity | exact E].
Qed.

Lemma emotional_relation_total c s :
  chain_invariant c ->
  exists b,
    anyM (fun r =>
            if target_id r =? step_id s then
              let! src := py_index (steps c) (source_id r - 1) in
              Ok (any_in emotional_words (lower (text src)))
            else Ok false)
         (List.filter (fun r => RelationshipType_eqb (rel_type r) SUPPORTS)
            (relationships c)) = Ok b.
Proof.
  intros [Hids Hres]. apply anyM_total. intros r Hr.
  apply filter_In in Hr as [Hr _]. destruct (target_id r =? step_id s); [|eauto].
  destruct (Hres r Hr) as [Hsrc _].
  pose proof (get_step_id_range c _ Hids Hsrc).
  destruct (py_index_in_range (steps c) (source_id r - 1)) as (src & -> & _); [lia|].
  cbn [bind]. eauto.
Qed.

Lemma emotional_step_total c i s :
  chain_invariant c ->
  In (i, s) (enumerate 0 (steps c)) ->
  exists new, emotional_step c i s = Ok new /\ Forall emotional_typed new.
Proof.
  intros Hinv Hin. apply enumerate_In in Hin as [Hi _].
  unfold emotional_step. cbv zeta.
  destruct (_ && negb _); [exists []; split; [reflexivity | constructor]|].
  assert (Hprev : exists b,
    (if 0 <? i
     then
       let! prev := py_index (steps c) (i - 1) in
       Ok (any_in emotional_words (lower (text prev))
           && any_in ["therefore"; "so"; "thus"; "hence"; "because"; "which means";
                      "this means"] (lower (text s)))
     else Ok false) = Ok b).
  { destruct (Z.ltb_spec 0 i); [|eauto].
    destruct (py_index_in_range (steps c) (i - 1)) as (prev & -> & _); [lia|].
    cbn [bind]. eauto. }
  destruct Hprev as [b ->]. cbn [bind].
  destruct (_ || _ || _); [|exists []; split; [reflexivity | constructor]].
  destruct (emotional_relation_total c s Hinv) as [b' ->]. cbn [bind].
  destruct (_ || _ || _ || _); [|exists []; split; [reflexivity | constructor]].
  destruct (_ && _ && _ && _); [exists []; split; [reflexivity | constructor]|].
  eexists [_]. split; [reflexivity|]. repeat constructor.
Qed.

Lemma emotional_step_low c i s new :
  no_supports c ->
  emotional_step c i s = Ok new -> Forall (fun x => severity x = "low") new.
Proof.
  intros Hno. unfold emotional_step. cbv zeta.
  rewrite (no_supports_filter c Hno), (no_supports_premise c s Hno).
  cbn [anyM bind].
  destruct (_ && negb _); [intros [= <-]; constructor|].
  match goal with |- bind ?m _ = _ -> _ => destruct m as [b|e] end;
    cbn [bind]; [|discriminate].
  destruct (_ || _ || _); [|intros [= <-]; constructor].
  destruct (_ || _ || _ || _); [|intros [= <-]; constructor].
  destruct (_ && _ && _ && _); intros [= <-]; repeat constructor.
Qed.

Lemma find_emotional_reasoning_total c :
  chain_invariant c ->
  exists issues, find_emotional_reasoning c = Ok issues /\ Forall emotional_typed issues.
Proof.
  intros Hinv. unfold find_emotional_reasoning.
  destruct (forM_appending (fun l => l) emotional_typed (enumerate 0 (steps c))
              (emotional_body c) []) as (issues & new & -> & -> & Hnew).
  { intros acc [i s] Hin. unfold emotional_body.
    destruct (emotional_step_total c i s Hinv Hin) as (new & -> & Hnew).
    cbn [bind]. eauto. }
  eexists. split; [reflexivity | exact Hnew].
Qed.

Lemma find_emotional_reasoning_low c issues :
  no_supports c ->
  find_emotional_reasoning c = Ok issues -> Forall (fun x => severity x = "low") issues.
Proof.
  intros Hno. unfold find_emotional_reasoning.
  apply (forM_invariant (Forall (fun x => severity x = "low"))); [constructor|].
  intros acc [i s] acc' _ Hacc. unfold emotional_body.
  destruct (emotional_step c i s) as [new|e] eqn:E; cbn [bind]; [|discriminate].
  intros [= <-]. apply Forall_app. split; [exact Hacc|].
  eapply emotional_step_low; eassumption.
Qed.

(** ** The whole analysis *)

Lemma find_hasty_generalizations_type c i :
  In i (find_hasty_generalizations c) -> issue_type i = "hasty_generalization".
Proof.
  unfold find_hasty_generalizations. intros H.
  apply in_flat_map in H as (s & _ & H). destruct (any_in common_sayings _); [contradiction|].
  apply in_flat_map in H as ([ind conf] & _ & H).
  destruct (contains ind _); [|contradiction]. cbv zeta in H.
  destruct (_ && negb _); [|contradiction]. destruct H as [<- | []]. reflexivity.
Qed.

Lemma find_unsupported_claims_type c i :
  In i (find_unsupported_claims c) ->
  issue_type i = "consider_adding_support"
  \/ issue_type i = "planning_analysis"
  \/ issue_type i = "potential_assumption".
Proof.
  destruct (find_unsupported_claims_parts c) as (plan & Hp & support & Hs & ->).
  rewrite !in_app_iff. intros [H | [H | H]].
  - destruct Hs as [-> | ->]; [contradiction|].
    apply in_flat_map in H as (s & _ & Hi).
    destruct (support_issues_cases c s) as [E | E]; rewrite E in Hi; [contradiction|].
    destruct Hi as [<- | []]. left. reflexivity.
  - destruct Hp as [-> | ->]; [contradiction|].
    destruct H as [<- | []]. right. left. reflexivity.
  - apply in_flat_map in H as (s & _ & Hi).
    destruct (assumption_issues_cases s) as [E | (ind & conf & E & _)];
      rewrite E in Hi; [contradiction|]. destruct Hi as [<- | []]. right. right. reflexivity.
Qed.

Section WholeAnalysis.

Variable nlp : string -> list Token.

Lemma analyze_chain_parts c issues :
  analyze_chain nlp c = Ok issues ->
  exists circular contradictions emotional,
    find_circular_reasoning nlp c = Ok circular
    /\ find_contradictions c = Ok contradictions
    /\ find_emotional_reasoning c = Ok emotional
    /\ issues = find_unsupported_claims c ++ circular ++ find_hasty_generalizations c
                ++ contradictions ++ emotional.
Proof.
  unfold analyze_chain. cbv zeta.
  destruct (find_circular_reasoning nlp c) as [circular|]; cbn [bind]; [|discriminate].
  destruct (find_contradictions c) as [contradictions|]; cbn [bind]; [|discriminate].
  destruct (find_emotional_reasoning c) as [emotional|]; cbn [bind]; [|discriminate].
  intros [= <-]. exists circular, contradictions, emotional.
  repeat split. cbn [app]. rewrite <- !app_assoc. reflexivity.
Qed.

Lemma analyze_chain_total c :
  chain_invariant c -> exists issues, analyze_chain nlp c = Ok issues.
Proof.
  intros Hinv. unfold analyze_chain. cbv zeta.
  destruct (find_circular_reasoning_spec nlp c) as (circular & -> & _).
  destruct (find_contradictions_spec c (proj2 Hinv)) as (contradictions & -> & _).
  destruct (find_emotional_reasoning_total c Hinv) as (emotional & -> & _).
  cbn [bind]. eauto.
Qed.

Lemma analyze_chain_emotional_low c issues i :
  endpoints_resolve c -> no_supports c ->
  analyze_chain nlp c = Ok issues ->
  In i issues -> issue_type i = "emotional_reasoning" -> severity i = "low".
Proof.
  intros Hres Hno Han Hin Hty.
  apply analyze_chain_parts in Han as (circ & contra & emo & Hc & Hk & He & ->).
  rewrite !in_app_iff in Hin. destruct Hin as [H | [H | [H | [H | H]]]].
  - apply find_unsupported_claims_type in H. rewrite Hty in H.
    destruct H as [H | [H | H]]; discriminate.
  - destruct (find_circular_reasoning_spec nlp c) as (circ' & Hc' & HF).
    rewrite Hc in Hc'. injection Hc' as <-.
    rewrite Forall_forall in HF. apply list_elem_of_In, HF in H.
    unfold circular_typed in H. rewrite Hty in H. discriminate.
  - apply find_hasty_generalizations_type in H. rewrite Hty in H. discriminate.
  - destruct (find_contradictions_spec c Hres) as (contra' & Hk' & HF).
    rewrite Hk in Hk'. injection Hk' as <-.
    assert (HT : Forall (fun x => issue_type x = "contradiction") contra).
    { clear H Hk. induction HF as [|r x rs xs Hp _ IH];
        [constructor | constructor; [apply Hp | exact IH]]. }
    rewrite Forall_forall in HT. apply list_elem_of_In, HT in H.
    rewrite Hty in H. discriminate.
  - apply find_emotional_reasoning_low in He; [|exact Hno].
    rewrite Forall_forall in He. apply He, list_elem_of_In, H.
Qed.

End WholeAnalysis.

Lemma parse_text_no_supports (nlp : string -> list Token) (t : string) :
  no_supports (parse_text nlp t).
Proof.
  intros r Hr. rewrite (parse_text_only_contradicts nlp t r Hr). discriminate.
Qed.

(** C10. For every chain produced by [parse_text] the analysis returns,
    and every emotional-reasoning issue it returns has severity low: the
    medium branch needs a SUPPORTS relationship and the parser creates
    none. *)
Theorem parsed_emotional_reasoning_low (nlp : string -> list Token) (t : string) :
  exists issues,
    analyze_chain nlp (parse_text nlp t) = Ok issues
    /\ forall i, In i issues ->
         issue_type i = "emotional_reasoning" -> severity i = "low".
Proof.
  destruct (analyze_chain_total nlp _ (parse_text_invariant nlp t)) as [issues E].
  exists issues. split; [exact E|]. intros i.
  apply (analyze_chain_emotional_low nlp (parse_text nlp t) issues i);
    [apply parse_text_endpoints | apply parse_text_no_supports | exact E].
Qed.

Lemma parsed_emotional_reasoning_low_witness :
  severity
    (emotional_reasoning
       "Step 1 contains emotional language that might weaken the argument" 1 "low")
  = "low".
Proof.
  destruct (parsed_emotional_reasoning_low simple_nlp "I feel sad so i will quit")
    as (issues & E & H).
  apply H; [|reflexivity].
  vm_compute in E. injection E as <-. left. reflexivity.
Defined.

(** C7 fails on the code: the issues of the unsupported-claims detector
    carry neither a [step] nor a [step_ids] key.  For the one-step input
    "Taxes must fall" and any tokenizer, the analysis returns a
    potential-assumption issue without them. *)
Theorem analyze_chain_issue_without_step_ids (nlp : string -> list Token) :
  exists issues i,
    analyze_chain nlp (parse_text nlp "Taxes must fall") = Ok issues
    /\ In i issues
    /\ issue_type i = "potential_assumption"
    /\ step i = None /\ step_ids i = None.
Proof.
  destruct (analyze_chain_total nlp _ (parse_text_invariant nlp "Taxes must fall"))
    as [issues E].
  exists issues,
    (potential_assumption (mkStep 1 "Taxes must fall" PREMISE 1 []) (9 # 10)).
  split; [exact E|]. split; [|repeat split].
  apply analyze_chain_parts in E as (circ & contra & emo & _ & _ & _ & ->).
  apply in_or_app. left. apply assumption_issues_In.
  vm_compute. left. reflexivity.
Qed.

(** ** The secondary scorer *)

Lemma Qlt_bool_iff a b : Qlt_bool a b = true <-> (a < b)%Q.
Proof.
  unfold Qlt_bool. rewrite negb_true_iff. split.
  - intros H. apply Qnot_le_lt. intros Hle. apply Qle_bool_iff in Hle. congruence.
  - intros H. destruct (Qle_bool b a) eqn:E; [|reflexivity].
    apply Qle_bool_iff in E. exfalso. apply (Qlt_not_le _ _ H E).
Qed.

Lemma topic_overlap_total a b :
  exists ov, topic_overlap a b = Ok ov /\ (0 <= ov)%Q.
Proof.
  unfold topic_overlap. cbv zeta. rewrite py_div_nonzero by lia.
  eexists. split; [reflexivity|]. unfold Qle, size_Z. simpl. lia.
Qed.

Lemma flow_pair_spec c acc (i : nat) cur nxt :
  steps c !! i = Some cur -> steps c !! S i = Some nxt ->
  exists ov,
    topic_overlap (lower (text cur)) (lower (text nxt)) = Ok ov
    /\ (0 <= ov)%Q
    /\ flow_pair c acc (Z.of_nat i) =
       Ok (acc ++ if needs_transition (lower (text nxt)) && Qlt_bool ov (4 # 10)
                  then [smooth_transition_needed (Z.of_nat i) ov] else []).
Proof.
  intros Hi Hn. unfold flow_pair. cbv zeta.
  rewrite (py_index_lookup _ _ _ Hi).
  replace (Z.of_nat i + 1) with (Z.of_nat (S i)) by lia.
  rewrite (py_index_lookup _ _ _ Hn). cbn [bind].
  destruct (topic_overlap_total (lower (text cur)) (lower (text nxt))) as (ov & E & Hov).
  exists ov. rewrite E. cbn [bind]. repeat split; [assumption|].
  destruct (_ && _); [reflexivity | rewrite app_nil_r; reflexivity].
Qed.

Lemma flow_pair_app c acc i :
  0 <= i < len (steps c) - 1 ->
  flow_pair c acc i = Ok (acc ++ flow_issues c i).
Proof.
  unfold len. intros Hi.
  destruct (lookup_lt_is_Some_2 (steps c) (Z.to_nat i)) as [cur Hc]; [lia|].
  destruct (lookup_lt_is_Some_2 (steps c) (S (Z.to_nat i))) as [nxt Hn]; [lia|].
  unfold flow_issues.
  destruct (flow_pair_spec c acc _ _ _ Hc Hn) as (ov & Hov & _ & E).
  destruct (flow_pair_spec c [] _ _ _ Hc Hn) as (ov' & Hov' & _ & E').
  rewrite Hov in Hov'. injection Hov' as <-.
  rewrite Z2Nat.id in E, E' by lia. rewrite E, E'. reflexivity.
Qed.

Lemma forM_collect {A} (g : A -> list Issue) (l : list A)
    (body : list Issue -> A -> result (list Issue)) acc :
  (forall acc x, In x l -> body acc x = Ok (acc ++ g x)) ->
  forM l body acc = Ok (acc ++ flat_map g l).
Proof.
  revert acc; induction l as [|x l IH]; intros acc H; simpl.
  - rewrite app_nil_r. reflexivity.
  - rewrite (H acc x) by (left; reflexivity). cbn [bind].
    rewrite IH by (intros; apply H; right; assumption).
    rewrite <- app_assoc. reflexivity.
Qed.

Lemma analyze_flow_spec c :
  analyze_flow c =
  Ok (if len (steps c) <? 2 then []
      else flat_map (flow_issues c) (range (len (steps c) - 1))).
Proof.
  unfold analyze_flow. destruct (len (steps c) <? 2); [reflexivity|].
  rewrite (forM_collect (flow_issues c)); [reflexivity|].
  intros acc i Hi. apply flow_pair_app, range_In, Hi.
Qed.

Lemma flow_issues_confident c i x :
  0 <= i < len (steps c) - 1 -> In x (flow_issues c i) -> flow_confident x.
Proof.
  unfold len. intros Hi.
  destruct (lookup_lt_is_Some_2 (steps c) (Z.to_nat i)) as [cur Hc]; [lia|].
  destruct (lookup_lt_is_Some_2 (steps c) (S (Z.to_nat i))) as [nxt Hn]; [lia|].
  unfold flow_issues.
  destruct (flow_pair_spec c [] _ _ _ Hc Hn) as (ov & _ & Hov & E).
  rewrite Z2Nat.id in E by lia. rewrite E. cbn [app].
  destruct (needs_transition _); cbn [andb]; [|contradiction].
  destruct (Qlt_bool ov (4 # 10)) eqn:Elt; [|contradiction].
  apply Qlt_bool_iff in Elt. intros [<- | []].
  split; [reflexivity|]. eexists. split; [reflexivity|]. split; lra.
Qed.

Lemma emotional_language_type i tl x :
  In x (emotional_language i tl emotional_indicators) ->
  issue_type x = "emotional_language_positive"
  \/ issue_type x = "emotional_language_negative".
Proof.
  unfold emotional_indicators. cbn [emotional_language].
  destruct (any_in _ tl); [intros [<- | []]; left; reflexivity|].
  destruct (any_in _ tl); [intros [<- | []]; right; reflexivity | contradiction].
Qed.

Section ScorerProperties.

Variable polarity : string -> Q.

Lemma step_suggestions_not_flow i s x :
  In x (step_suggestions polarity i s) -> issue_type x <> "smooth_transition_needed".
Proof.
  unfold step_suggestions. cbv zeta.
  destruct (is_nil _); [contradiction|].
  destruct (len _ <? 3); [intros [<- | []]; discriminate|].
  rewrite !in_app_iff. intros [H | [H | H]].
  - apply emotional_language_type in H as [-> | ->]; discriminate.
  - destruct (any_in subjective_phrases _); [|contradiction].
    destruct H as [<- | []]. discriminate.
  - destruct (Qlt_bool (5 # 10) _); [|contradiction].
    destruct H as [<- | []]. destruct (Qlt_bool 0 _); discriminate.
Qed.

Lemma get_suggestions_spec c :
  get_suggestions polarity c =
  Ok (flat_map (fun '(i, s) => step_suggestions polarity i s) (enumerate 0 (steps c))
      ++ if 1 <? len (steps c)
         then flat_map (flow_issues c) (range (len (steps c) - 1)) else []).
Proof.
  unfold get_suggestions. cbv zeta. rewrite analyze_flow_spec. cbn [bind].
  destruct (Z.ltb_spec 1 (len (steps c))).
  - destruct (Z.ltb_spec (len (steps c)) 2); [lia | reflexivity].
  - rewrite app_nil_r. reflexivity.
Qed.

Lemma get_suggestions_flow_confident c l x :
  get_suggestions polarity c = Ok l ->
  In x l -> issue_type x = "smooth_transition_needed" -> flow_confident x.
Proof.
  rewrite get_suggestions_spec. intros [= <-]. rewrite in_app_iff. intros [H | H] Hty.
  - apply in_flat_map in H as ([i s] & _ & H).
    apply step_suggestions_not_flow in H. contradiction.
  - destruct (1 <? len (steps c)); [|contradiction].
    apply in_flat_map in H as (i & Hi & H). apply range_In in Hi.
    eapply flow_issues_confident; eassumption.
Qed.

Lemma get_suggestions_flow_In c (i : nat) cur nxt ov :
  steps c !! i = Some cur -> steps c !! S i = Some nxt ->
  topic_overlap (lower (text cur)) (lower (text nxt)) = Ok ov ->
  needs_transition (lower (text nxt)) = true -> (ov < 4 # 10)%Q ->
  exists l, get_suggestions polarity c = Ok l
            /\ In (smooth_transition_needed (Z.of_nat i) ov) l.
Proof.
  intros Hi Hn Hov Hneed Hlt. rewrite get_suggestions_spec.
  eexists. split; [reflexivity|]. apply in_or_app. right.
  pose proof (lookup_lt_Some _ _ _ Hn) as Hlen.
  destruct (Z.ltb_spec 1 (len (steps c))); [|unfold len in *; lia].
  apply in_flat_map. exists (Z.of_nat i). split.
  - apply range_lookup. unfold len. lia.
  - unfold flow_issues.
    destruct (flow_pair_spec c [] i cur nxt Hi Hn) as (ov' & Hov' & _ & ->).
    rewrite Hov in Hov'. injection Hov' as <-.
    apply Qlt_bool_iff in Hlt. rewrite Hneed, Hlt. left. reflexivity.
Qed.

End ScorerProperties.

(** C8, amended: for every consecutive pair of steps whose second step
    holds no transition indicator and whose topic overlap is below 0.4, the
    scorer returns a "smooth_transition_needed" suggestion with confidence
    0.8 - overlap * 1.5; no clamp is applied, and since the overlap of an
    emitted suggestion is in [0, 0.4) its confidence is in (0.2, 0.8]. *)
Theorem smooth_transition_confidence (polarity : string -> Q) (c : ReasoningChain) :
  exists l,
    get_suggestions polarity c = Ok l
    /\ (forall (i : nat) cur nxt,
          steps c !! i = Some cur -> steps c !! S i = Some nxt ->
          exists ov,
            topic_overlap (lower (text cur)) (lower (text nxt)) = Ok ov
            /\ (needs_transition (lower (text nxt)) = true -> (ov < 4 # 10)%Q ->
                exists x,
                  In x l
                  /\ issue_type x = "smooth_transition_needed"
                  /\ description x =
                     "The transition to step " +:+ of_int (Z.of_nat i + 2)
                       +:+ " could be smoother"
                  /\ confidence x = Some ((8 # 10) - ov * (15 # 10))%Q))
    /\ (forall x q,
          In x l -> issue_type x = "smooth_transition_needed" ->
          confidence x = Some q -> (2 # 10 < q)%Q /\ (q <= 8 # 10)%Q).
Proof.
  rewrite get_suggestions_spec. eexists. split; [reflexivity|]. split.
  - intros i cur nxt Hi Hn.
    destruct (topic_overlap_total (lower (text cur)) (lower (text nxt))) as (ov & Hov & _).
    exists ov. split; [exact Hov|]. intros Hneed Hlt.
    destruct (get_suggestions_flow_In polarity c i cur nxt ov Hi Hn Hov Hneed Hlt)
      as (l & E & Hin).
    rewrite get_suggestions_spec in E. injection E as <-.
    exists (smooth_transition_needed (Z.of_nat i) ov). repeat split. exact Hin.
  - intros x q Hin Hty Hq.
    destruct (get_suggestions_flow_confident polarity c _ x (get_suggestions_spec polarity c)
                Hin Hty) as (_ & q' & Hq' & Hlo & Hhi).
    rewrite Hq in Hq'. injection Hq' as <-. split; assumption.
Qed.

Lemma smooth_transition_confidence_witness :
  (2 # 10 < 320 # 400)%Q /\ (320 # 400 <= 8 # 10)%Q.
Proof.
  destruct (smooth_transition_confidence neutral_polarity
              (parse_text simple_nlp
                 (unlines ["1. The sky is blue because of Rayleigh scattering.";
                           "2. I prefer chocolate ice cream over vanilla."])))
    as (l & E & _ & H).
  vm_compute in E. injection E as <-.
  apply (H (smooth_transition_needed 0 (0 # 4)));
    [left; reflexivity | reflexivity | reflexivity].
Defined.

(** C8 as stated fails in its last part: no chain makes the scorer return
    a flow suggestion of negative confidence. *)
Lemma smooth_transition_negative_confidence_refuted :
  ~ (exists (polarity : string -> Q) (c : ReasoningChain) l x q,
        get_suggestions polarity c = Ok l
        /\ In x l
        /\ issue_type x = "smooth_transition_needed"
        /\ confidence x = Some q
        /\ (q < 0)%Q).
Proof.
  intros (polarity & c & l & x & q & E & Hin & Hty & Hq & Hneg).
  destruct (get_suggestions_flow_confident polarity c l x E Hin Hty)
    as (_ & q' & Hq' & Hlo & _).
  rewrite Hq in Hq'. injection Hq' as <-. lra.
Qed.

(** ** Empty and one-step chains *)

Lemma blank_lines_filtered lines :
  Forall (fun line => strip line = "") lines ->
  List.filter (fun line => truthy (strip line)) lines = [].
Proof.
  induction 1 as [|line lines Hb _ IH]; simpl; [reflexivity|].
  rewrite Hb. exact IH.
Qed.

Lemma parse_text_blank (nlp : string -> list Token) t :
  Forall (fun line => strip line = "") (split_on newline t) ->
  parse_text nlp t = empty_chain.
Proof.
  intros H. unfold parse_text. cbv zeta. rewrite (blank_lines_filtered _ H). reflexivity.
Qed.

Lemma no_steps_empty c : endpoints_resolve c -> steps c = [] -> c = empty_chain.
Proof.
  destruct c as [ss rs]. simpl. intros Hres ->. unfold empty_chain. f_equal.
  destruct rs as [|r rs]; [reflexivity|].
  destruct (Hres r) as [[s Hs] _]; [left; reflexivity | discriminate].
Qed.

Lemma analyze_chain_empty (nlp : string -> list Token) :
  analyze_chain nlp empty_chain = Ok [].
Proof. reflexivity. Qed.

Lemma get_suggestions_empty (polarity : string -> Q) :
  get_suggestions polarity empty_chain = Ok [].
Proof. reflexivity. Qed.

(** C4, amended: an input whose lines are all blank parses to a chain
    without steps or relationships; on a chain without steps the analysis
    and the scorer return the empty list; on a chain of one step they
    return (they do not raise), possibly with issues. *)
Theorem short_chains_handled (nlp : string -> list Token) (polarity : string -> Q) :
  (forall t,
      Forall (fun line => strip line = "") (split_on newline t) ->
      steps (parse_text nlp t) = [] /\ relationships (parse_text nlp t) = [])
  /\ (forall c,
        chain_invariant c -> steps c = [] ->
        analyze_chain nlp c = Ok [] /\ get_suggestions polarity c = Ok [])
  /\ (forall c,
        chain_invariant c -> List.length (steps c) = 1%nat ->
        (exists l, analyze_chain nlp c = Ok l)
        /\ (exists l, get_suggestions polarity c = Ok l)).
Proof.
  split; [|split].
  - intros t H. rewrite (parse_text_blank nlp t H). split; reflexivity.
  - intros c [_ Hres] Hs. rewrite (no_steps_empty c Hres Hs).
    split; [apply analyze_chain_empty | apply get_suggestions_empty].
  - intros c Hinv _. split; [apply analyze_chain_total, Hinv|].
    rewrite get_suggestions_spec. eauto.
Qed.

Lemma short_chains_handled_witness :
  analyze_chain simple_nlp empty_chain = Ok []
  /\ get_suggestions neutral_polarity empty_chain = Ok [].
Proof.
  apply (proj1 (proj2 (short_chains_handled simple_nlp neutral_polarity)) empty_chain).
  - split; [reflexivity | intros r []].
  - reflexivity.
Defined.

(** C4 as stated fails for one step: the chain parsed from "Never stop"
    has one step, the analysis reports a potential assumption and two hasty
    generalizations on it, and the scorer reports that it is too short. *)
Lemma single_step_issues_refuted :
  ~ (forall (nlp : string -> list Token) (polarity : string -> Q) (c : ReasoningChain),
        chain_invariant c -> (List.length (steps c) <= 1)%nat ->
        analyze_chain nlp c = Ok [] /\ get_suggestions polarity c = Ok []).
Proof.
  intros H.
  destruct (H simple_nlp neutral_polarity (parse_text simple_nlp "Never stop"))
    as [Ha Hs].
  - apply parse_text_invariant.
  - vm_compute. lia.
  - vm_compute in Hs. discriminate.
Qed.

(** * Further properties of the code *)

(** ** The chain model *)

Lemma find_app_none {A} (p : A -> bool) l1 l2 :
  List.find p l1 = None -> List.find p (l1 ++ l2) = List.find p l2.
Proof.
  induction l1 as [|a l1 IH]; simpl; [reflexivity|].
  destruct (p a); [discriminate | exact IH].
Qed.

Lemma find_app_some {A} (p : A -> bool) l1 l2 x :
  List.find p l1 = Some x -> List.find p (l1 ++ l2) = Some x.
Proof.
  induction l1 as [|a l1 IH]; simpl; [discriminate|].
  destruct (p a); [trivial | exact IH].
Qed.

Lemma ids_in_order_bound c s :
  ids_in_order c -> In s (steps c) -> 1 <= step_id s <= len (steps c).
Proof.
  intros Hids Hin. apply list_elem_of_In, list_elem_of_lookup in Hin as [j Hj].
  pose proof (ids_in_order_lookup c j s Hids Hj).
  apply lookup_lt_Some in Hj. unfold len. lia.
Qed.

(** X1. On a chain whose ids are 1..n, [add_step] gives the new step the id
    n+1, [get_step] with that id returns the new step, every earlier lookup
    is unchanged, the relationships are untouched and the ids of the
    extended chain are 1..n+1. *)
Theorem add_step_get_step (c : ReasoningChain) (t : string) (ty : StepType) :
  ids_in_order c ->
  step_id (snd (add_step c t ty)) = len (steps c) + 1
  /\ get_step (fst (add_step c t ty)) (step_id (snd (add_step c t ty)))
     = Some (snd (add_step c t ty))
  /\ (forall i s, get_step c i = Some s -> get_step (fst (add_step c t ty)) i = Some s)
  /\ relationships (fst (add_step c t ty)) = relationships c
  /\ ids_in_order (fst (add_step c t ty)).
Proof.
  intros Hids. unfold add_step, get_step. cbn [fst snd steps relationships step_id].
  split; [reflexivity|]. split; [|split; [|split; [reflexivity|]]].
  - rewrite find_app_none.
    + cbn. rewrite Z.eqb_refl. reflexivity.
    + destruct (List.find _ (steps c)) as [s|] eqn:E; [|reflexivity].
      apply find_some in E as [Hin Hid]. apply Z.eqb_eq in Hid.
      pose proof (ids_in_order_bound c s Hids Hin). unfold len in *. lia.
  - intros i s H. apply find_app_some, H.
  - unfold ids_in_order in *. cbn [steps].
    rewrite map_app, length_app, Hids. cbn [List.length map step_id].
    rewrite Nat.add_1_r, seq_S, map_app. cbn. do 3 f_equal. lia.
Qed.

Lemma add_step_get_step_witness :
  step_id (snd (add_step (mkChain [mkStep 1 "a" PREMISE 1 []] []) "b" EVIDENCE)) = 1 + 1
  /\ get_step (fst (add_step (mkChain [mkStep 1 "a" PREMISE 1 []] []) "b" EVIDENCE))
       (step_id (snd (add_step (mkChain [mkStep 1 "a" PREMISE 1 []] []) "b" EVIDENCE)))
     = Some (snd (add_step (mkChain [mkStep 1 "a" PREMISE 1 []] []) "b" EVIDENCE))
  /\ (forall i s,
        get_step (mkChain [mkStep 1 "a" PREMISE 1 []] []) i = Some s ->
        get_step (fst (add_step (mkChain [mkStep 1 "a" PREMISE 1 []] []) "b" EVIDENCE)) i
        = Some s)
  /\ relationships (fst (add_step (mkChain [mkStep 1 "a" PREMISE 1 []] []) "b" EVIDENCE))
     = []
  /\ ids_in_order (fst (add_step (mkChain [mkStep 1 "a" PREMISE 1 []] []) "b" EVIDENCE)).
Proof.
  apply (add_step_get_step (mkChain [mkStep 1 "a" PREMISE 1 []] []) "b" EVIDENCE).
  reflexivity.
Defined.

(** X2. [add_relationship] leaves the steps alone and appends one
    relationship of confidence 1; [get_relationships] then lists it for its
    two endpoints and for no other id, after what it listed before; and the
    chain keeps resolving all endpoints when the two ids name steps. *)
Theorem add_relationship_get_relationships (c : ReasoningChain) (a b : Z)
    (ty : RelationshipType) :
  steps (fst (add_relationship c a b ty)) = steps c
  /\ (forall i,
        get_relationships (fst (add_relationship c a b ty)) i =
        get_relationships c i
        ++ (if (a =? i) || (b =? i) then [mkRel a b ty 1] else []))
  /\ (endpoints_resolve c ->
      is_Some (get_step c a) -> is_Some (get_step c b) ->
      endpoints_resolve (fst (add_relationship c a b ty))).
Proof.
  unfold add_relationship, get_relationships. cbn [fst steps relationships].
  split; [reflexivity|]. split.
  - intros i. rewrite List.filter_app. reflexivity.
  - intros Hres Ha Hb r Hr. unfold get_step in *. cbn [steps relationships] in *.
    apply in_app_iff in Hr as [Hr | [<- | []]]; [apply (Hres r Hr)|].
    split; assumption.
Qed.

Lemma add_relationship_get_relationships_witness :
  endpoints_resolve
    (fst (add_relationship
            (mkChain [mkStep 1 "a" PREMISE 1 []; mkStep 2 "b" PREMISE 1 []] [])
            1 2 SUPPORTS)).
Proof.
  apply (proj2 (proj2 (add_relationship_get_relationships
           (mkChain [mkStep 1 "a" PREMISE 1 []; mkStep 2 "b" PREMISE 1 []] [])
           1 2 SUPPORTS))).
  - intros r [].
  - vm_compute. eexists; reflexivity.
  - vm_compute. eexists; reflexivity.
Defined.
(** ** The parser, continued *)

Lemma fold_add_line_steps lines ch :
  steps (fold_left add_line lines ch) =
  steps ch
  ++ fresh_steps (List.length (steps ch))
       (List.filter truthy (map (fun l => strip (sub_leading_ordinal l)) lines)).
Proof.
  revert ch; induction lines as [|line lines IH]; intros ch; simpl.
  - now rewrite app_nil_r.
  - rewrite IH, add_line_unfold. simpl. destruct (truthy _); simpl; [|reflexivity].
    rewrite length_app, <- app_assoc. simpl.
    replace (List.length (steps ch) + 1)%nat with (S (List.length (steps ch))) by lia.
    reflexivity.
Qed.

Lemma parse_text_explicit (nlp : string -> list Token) t :
  parse_text nlp t =
  mkChain (fresh_steps 0 (surviving_lines t))
          (contradiction_pairs nlp (fresh_steps 0 (surviving_lines t))).
Proof.
  assert (Hs : steps (parse_text nlp t) = fresh_steps 0 (surviving_lines t)).
  { unfold parse_text. destruct (analyze_relationships_spec nlp
      (fold_left add_line (map strip (List.filter (fun line => truthy (strip line))
         (split_on newline t))) empty_chain)) as [-> _].
    rewrite fold_add_line_steps. simpl. now rewrite parse_lines_surviving. }
  pose proof (parse_text_relationships nlp t) as Hr. rewrite Hs in Hr.
  destruct (parse_text nlp t) as [ss rs]. simpl in *. now subst.
Qed.

(** X3. The parsed chain depends on the input only through its surviving
    lines: two texts that differ in blank lines, indentation or ordinal
    markers but have the same normalized non-blank lines parse to the same
    chain, steps and relationships alike. *)
Theorem parse_text_surviving_lines (nlp : string -> list Token) (t1 t2 : string) :
  surviving_lines t1 = surviving_lines t2 -> parse_text nlp t1 = parse_text nlp t2.
Proof. intros H. rewrite !parse_text_explicit, H. reflexivity. Qed.

Lemma parse_text_surviving_lines_witness :
  parse_text simple_nlp (unlines ["1. Whales swim"; ""; "  2) Therefore they float "])
  = parse_text simple_nlp (unlines ["Whales swim"; "7. Therefore they float"]).
Proof.
  apply (parse_text_surviving_lines simple_nlp
           (unlines ["1. Whales swim"; ""; "  2) Therefore they float "])
           (unlines ["Whales swim"; "7. Therefore they float"])).
  vm_compute. reflexivity.
Defined.

Lemma lstrip_by_first p s c :
  first_char (lstrip_by p s) = Some c -> p c = false.
Proof.
  induction s as [|a s IH]; simpl; [discriminate|].
  destruct (p a) eqn:E; [exact IH|]. simpl. intros [= <-]. exact E.
Qed.

Lemma rstrip_by_first p s c :
  first_char (rstrip_by p s) = Some c -> first_char s = Some c.
Proof.
  destruct s as [|a s]; simpl; [discriminate|].
  destruct (p a && is_empty (rstrip_by p s)); simpl; [discriminate | trivial].
Qed.

Lemma rstrip_by_last p s c :
  last_char (rstrip_by p s) = Some c -> p c = false.
Proof.
  induction s as [|a s IH]; simpl; [discriminate|].
  destruct (rstrip_by p s) as [|b r] eqn:E; simpl.
  - rewrite andb_true_r. destruct (p a) eqn:Ea; simpl; [discriminate|].
    intros [= <-]. exact Ea.
  - rewrite andb_false_r. simpl. exact IH.
Qed.

Lemma lstrip_by_mem p s c : mem_char c (lstrip_by p s) = true -> mem_char c s = true.
Proof.
  induction s as [|a s IH]; simpl; [trivial|].
  destruct (p a); [|trivial]. intros H. rewrite (IH H). apply orb_true_r.
Qed.

Lemma rstrip_by_mem p s c : mem_char c (rstrip_by p s) = true -> mem_char c s = true.
Proof.
  induction s as [|a s IH]; simpl; [trivial|].
  destruct (p a && is_empty (rstrip_by p s)); simpl; [discriminate|].
  rewrite !orb_true_iff. intros [H|H]; [left; exact H | right; exact (IH H)].
Qed.

Lemma strip_mem s c : mem_char c (strip s) = true -> mem_char c s = true.
Proof. unfold strip. intros H. apply rstrip_by_mem, lstrip_by_mem in H. exact H. Qed.

Lemma sub_leading_ordinal_mem line c :
  mem_char c (sub_leading_ordinal line) = true -> mem_char c line = true.
Proof.
  unfold sub_leading_ordinal. cbv zeta.
  destruct (_ <? _)%nat; [|trivial].
  destruct (lstrip_by is_digit (lstrip_by is_space line)) as [|a r] eqn:E; [trivial|].
  destruct (_ || _); [|trivial]. intros H.
  apply lstrip_by_mem in H.
  apply (lstrip_by_mem is_space), (lstrip_by_mem is_digit). rewrite E. simpl.
  rewrite H. apply orb_true_r.
Qed.

Lemma split_on_pieces sep s piece :
  In piece (split_on sep s) -> mem_char sep piece = false.
Proof.
  revert piece; induction s as [|a s IH]; simpl; intros piece.
  - intros [<- | []]. reflexivity.
  - destruct (Ascii.eqb a sep) eqn:E.
    + intros [<- | H]; [reflexivity | apply IH, H].
    + destruct (split_on sep s) as [|h tl]; simpl.
      * intros [<- | []]. simpl. rewrite Ascii.eqb_sym, E. reflexivity.
      * intros [<- | H]; [|apply IH; right; exact H]. simpl.
        rewrite Ascii.eqb_sym, E. simpl. apply IH. left. reflexivity.
Qed.

Lemma strip_tidy_ends s :
  (forall c, first_char (strip s) = Some c -> is_space c = false)
  /\ (forall c, last_char (strip s) = Some c -> is_space c = false).
Proof.
  unfold strip. split; intros c H.
  - apply rstrip_by_first in H. eapply lstrip_by_first, H.
  - eapply rstrip_by_last, H.
Qed.

Lemma surviving_lines_tidy t x : In x (surviving_lines t) -> tidy x.
Proof.
  unfold surviving_lines. intros H. apply filter_In in H as [H Ht].
  apply in_map_iff in H as (line & <- & Hline).
  destruct (strip_tidy_ends (sub_leading_ordinal (strip line))) as [Hf Hl].
  split; [|split; [exact Hf | split; [exact Hl|]]].
  - intros E. unfold normalize_line in *. rewrite E in Ht. discriminate.
  - destruct (mem_char newline (normalize_line line)) eqn:E; [|reflexivity].
    unfold normalize_line in E.
    apply strip_mem, sub_leading_ordinal_mem, strip_mem in E.
    rewrite (split_on_pieces _ _ _ Hline) in E. discriminate.
Qed.

(** X4. The text of every step of a parsed chain is not empty, neither
    starts nor ends with a whitespace character, and contains no line
    break. *)
Theorem parse_text_tidy_steps (nlp : string -> list Token) (t : string)
    (s : ReasoningStep) :
  In s (steps (parse_text nlp t)) -> tidy (text s).
Proof.
  intros H. apply (surviving_lines_tidy t). rewrite <- (parse_text_texts nlp t).
  apply in_map, H.
Qed.

Lemma parse_text_tidy_steps_witness : tidy "Whales swim".
Proof.
  apply (parse_text_tidy_steps simple_nlp
           (unlines ["  1.  Whales swim  "; "   "])
           (mkStep 1 "Whales swim" PREMISE 1 [])).
  vm_compute. left. reflexivity.
Defined.

(** X5. [_are_contradictory] does not depend on the order of its two
    texts, and no text contradicts itself. *)
Theorem are_contradictory_symmetric (nlp : string -> list Token) (t1 t2 : string) :
  are_contradictory nlp t1 t2 = are_contradictory nlp t2 t1
  /\ are_contradictory nlp t1 t1 = false.
Proof.
  unfold are_contradictory. cbv zeta. split.
  - rewrite (comm_L (∩) (text_set (nlp (lower t1)))).
    destruct (has_neg (text_set (nlp (lower t1)))),
             (has_neg (text_set (nlp (lower t2)))); reflexivity.
  - rewrite Bool.eqb_reflx. reflexivity.
Qed.

Lemma contradiction_pairs_source nlp l r :
  In r (contradiction_pairs nlp l) ->
  In (source_id r) (map step_id l) /\ In (target_id r) (map step_id l).
Proof.
  intros H. apply contradiction_pairs_In in H
    as (i & j & s1 & s2 & _ & Hi & Hj & _ & ->). simpl.
  split; apply in_map, list_elem_of_In, list_elem_of_lookup; eauto.
Qed.

Lemma NoDup_map_inj_in {A B} (f : A -> B) l :
  (forall a b, In a l -> In b l -> f a = f b -> a = b) ->
  List.NoDup l -> List.NoDup (map f l).
Proof.
  induction l as [|x l IH]; simpl; intros Hinj Hnd; [constructor|].
  apply List.NoDup_cons_iff in Hnd as [Hx Hnd]. constructor.
  - intros Hin. apply in_map_iff in Hin as (y & E & Hy).
    apply Hx. rewrite <- (Hinj y x); auto.
  - apply IH; [|exact Hnd]. intros a b Ha Hb. apply Hinj; right; assumption.
Qed.

Lemma NoDup_of_map {A B} (f : A -> B) l : List.NoDup (map f l) -> List.NoDup l.
Proof.
  induction l as [|x l IH]; simpl; intros Hnd; [constructor|].
  apply List.NoDup_cons_iff in Hnd as [Hx Hnd]. constructor; [|apply IH, Hnd].
  intros Hin. apply Hx, in_map, Hin.
Qed.

Lemma NoDup_append {A} (l k : list A) :
  List.NoDup l -> List.NoDup k -> (forall x, In x l -> ~ In x k) -> List.NoDup (l ++ k).
Proof.
  induction l as [|x l IH]; simpl; intros Hl Hk Hd; [exact Hk|].
  apply List.NoDup_cons_iff in Hl as [Hx Hl]. constructor.
  - rewrite in_app_iff. intros [H|H]; [contradiction | apply (Hd x); auto].
  - apply IH; [exact Hl | exact Hk |]. intros y Hy. apply Hd. right. exact Hy.
Qed.

Lemma step_id_injective l a b :
  List.NoDup (map step_id l) -> In a l -> In b l -> step_id a = step_id b -> a = b.
Proof.
  induction l as [|x l IH]; simpl; intros Hnd Ha Hb E; [contradiction|].
  apply List.NoDup_cons_iff in Hnd as [Hx Hnd].
  destruct Ha as [<- | Ha], Hb as [<- | Hb]; try reflexivity.
  - exfalso. apply Hx. rewrite E. apply in_map, Hb.
  - exfalso. apply Hx. rewrite <- E. apply in_map, Ha.
  - apply IH; assumption.
Qed.

Lemma contradiction_pairs_NoDup nlp l :
  List.NoDup (map step_id l) -> List.NoDup (contradiction_pairs nlp l).
Proof.
  induction l as [|s1 rest IH]; simpl; intros Hnd; [constructor|].
  apply List.NoDup_cons_iff in Hnd as [Hnotin Hnd].
  apply NoDup_append.
  - apply NoDup_map_inj_in.
    + intros a b Ha Hb [= E]. apply filter_In in Ha as [Ha _], Hb as [Hb _].
      eapply step_id_injective; eassumption.
    + apply List.NoDup_filter. eapply NoDup_of_map, Hnd.
  - apply IH, Hnd.
  - intros r Hr Hr'. apply in_map_iff in Hr as (s2 & <- & _).
    apply contradiction_pairs_source in Hr' as [Hsrc _]. simpl in Hsrc.
    contradiction.
Qed.

(** X6. In a parsed chain every relationship runs from a step to a later
    step (1 <= source_id < target_id <= number of steps), has confidence 1,
    and no relationship is recorded twice. *)
Theorem parse_text_relationships_ordered (nlp : string -> list Token) (t : string) :
  List.NoDup (relationships (parse_text nlp t))
  /\ forall r, In r (relationships (parse_text nlp t)) ->
       1 <= source_id r /\ source_id r < target_id r
       /\ target_id r <= len (steps (parse_text nlp t))
       /\ rel_confidence r = 1%Q.
Proof.
  split.
  - rewrite parse_text_relationships. apply contradiction_pairs_NoDup.
    rewrite parse_text_ids. apply NoDup_map_inj_in; [|apply seq_NoDup].
    intros a b _ _. apply Nat2Z.inj.
  - intros r Hr. apply parse_text_relationship_shape in Hr
      as (i & j & s1 & s2 & Hij & Hi & Hj & _ & ->). simpl.
    pose proof (ids_in_order_lookup _ _ _ (parse_text_ids_in_order nlp t) Hi).
    pose proof (ids_in_order_lookup _ _ _ (parse_text_ids_in_order nlp t) Hj).
    apply lookup_lt_Some in Hj. unfold len. repeat split; lia.
Qed.

Lemma parse_text_relationships_ordered_witness :
  1 <= 1 /\ 1 < 2
  /\ 2 <= len (steps (parse_text simple_nlp
                        (unlines ["cats chase dogs"; "cats not chase dogs"])))
  /\ 1%Q = 1%Q.
Proof.
  apply (proj2 (parse_text_relationships_ordered simple_nlp
                  (unlines ["cats chase dogs"; "cats not chase dogs"]))
           (mkRel 1 2 CONTRADICTS 1)).
  vm_compute. left. reflexivity.
Defined.

Lemma text_set_elem doc w :
  w ∈ text_set doc <-> exists tok, In tok doc /\ meaningful tok = true /\ tok_text tok = w.
Proof.
  unfold text_set. rewrite elem_of_list_to_set, list_elem_of_In, in_map_iff. split.
  - intros (tok & <- & H). apply filter_In in H as [H1 H2]. eauto.
  - intros (tok & H1 & H2 & <-). exists tok. split; [reflexivity|].
    apply filter_In. split; assumption.
Qed.

Lemma stop_word_negations_has_neg nlp t :
  negations_are_stop_words nlp -> has_neg (text_set (nlp t)) = false.
Proof.
  intros Hstop. apply has_neg_false. intros (neg & Hin & Hel).
  apply text_set_elem in Hel as (tok & Htok & Hm & <-).
  pose proof (Hstop t tok Htok Hin) as Hs. unfold meaningful in Hm.
  rewrite Hs in Hm. discriminate.
Qed.

(** X7. With a tokenizer that marks every negation term as a stop word
    (as spaCy's English stop list does), no pair of texts is contradictory
    and the parser records no relationship at all. *)
Theorem stop_word_negations_no_relationships (nlp : string -> list Token) :
  negations_are_stop_words nlp ->
  (forall t1 t2, are_contradictory nlp t1 t2 = false)
  /\ (forall t, relationships (parse_text nlp t) = []).
Proof.
  intros Hstop.
  assert (Hc : forall t1 t2, are_contradictory nlp t1 t2 = false).
  { intros t1 t2. unfold are_contradictory. cbv zeta.
    rewrite !stop_word_negations_has_neg by exact Hstop. reflexivity. }
  split; [exact Hc|]. intros t.
  destruct (relationships (parse_text nlp t)) as [|r rs] eqn:E; [reflexivity|].
  assert (Hr : In r (relationships (parse_text nlp t))) by (rewrite E; left; reflexivity).
  apply parse_text_relationship_shape in Hr as (i & j & s1 & s2 & _ & _ & _ & H & _).
  rewrite Hc in H. discriminate.
Qed.

Lemma stop_word_negations_no_relationships_witness :
  (forall t1 t2, are_contradictory negation_stop_nlp t1 t2 = false)
  /\ (forall t, relationships (parse_text negation_stop_nlp t) = []).
Proof.
  apply (stop_word_negations_no_relationships negation_stop_nlp).
  intros t tok Htok Hneg. unfold negation_stop_nlp in Htok.
  apply in_map_iff in Htok as (w & <- & _). cbn [tok_text is_stop] in *.
  unfold mem_str. apply existsb_exists. exists w. split; [|apply String.eqb_refl].
  apply in_or_app. right. exact Hneg.
Defined.

(** ** The analysis as a whole *)

(** X8. On every chain that satisfies the data-model invariants the
    analysis returns, whatever the tokenizer, and its result is the
    concatenation of the five detectors' issues in the fixed order
    unsupported claims, circular reasoning, hasty generalization,
    contradiction, emotional reasoning. *)
Theorem analyze_chain_returns (nlp : string -> list Token) (c : ReasoningChain) :
  chain_invariant c ->
  exists circular contradictions emotional,
    find_circular_reasoning nlp c = Ok circular
    /\ find_contradictions c = Ok contradictions
    /\ find_emotional_reasoning c = Ok emotional
    /\ analyze_chain nlp c =
       Ok (find_unsupported_claims c ++ circular ++ find_hasty_generalizations c
           ++ contradictions ++ emotional).
Proof.
  intros Hinv. destruct (analyze_chain_total nlp c Hinv) as [issues E].
  destruct (analyze_chain_parts nlp c issues E) as (ci & co & em & H1 & H2 & H3 & ->).
  exists ci, co, em. repeat split; assumption.
Qed.

Lemma analyze_chain_returns_witness :
  exists circular contradictions emotional,
    find_circular_reasoning simple_nlp
      (mkChain [mkStep 1 "I feel sad" PREMISE 1 []; mkStep 2 "So all is lost" CONCLUSION 1 []]
               [mkRel 1 2 SUPPORTS 1]) = Ok circular
    /\ find_contradictions
         (mkChain [mkStep 1 "I feel sad" PREMISE 1 []; mkStep 2 "So all is lost" CONCLUSION 1 []]
                  [mkRel 1 2 SUPPORTS 1]) = Ok contradictions
    /\ find_emotional_reasoning
         (mkChain [mkStep 1 "I feel sad" PREMISE 1 []; mkStep 2 "So all is lost" CONCLUSION 1 []]
                  [mkRel 1 2 SUPPORTS 1]) = Ok emotional
    /\ analyze_chain simple_nlp
         (mkChain [mkStep 1 "I feel sad" PREMISE 1 []; mkStep 2 "So all is lost" CONCLUSION 1 []]
                  [mkRel 1 2 SUPPORTS 1]) =
       Ok (find_unsupported_claims
             (mkChain [mkStep 1 "I feel sad" PREMISE 1 [];
                       mkStep 2 "So all is lost" CONCLUSION 1 []]
                      [mkRel 1 2 SUPPORTS 1])
           ++ circular
           ++ find_hasty_generalizations
                (mkChain [mkStep 1 "I feel sad" PREMISE 1 [];
                          mkStep 2 "So all is lost" CONCLUSION 1 []]
                         [mkRel 1 2 SUPPORTS 1])
           ++ contradictions ++ emotional).
Proof.
  apply (analyze_chain_returns simple_nlp
           (mkChain [mkStep 1 "I feel sad" PREMISE 1 [];
                     mkStep 2 "So all is lost" CONCLUSION 1 []]
                    [mkRel 1 2 SUPPORTS 1])).
  split; [reflexivity|].
  intros r Hr. vm_compute in Hr. destruct Hr as [<- | []].
  vm_compute. split; eexists; reflexivity.
Defined.

Lemma report_contradiction_raises c acc r e :
  report_contradiction c acc r = Raise e -> e = StopIteration.
Proof.
  unfold report_contradiction, py_next.
  destruct (RelationshipType_eqb _ _); [|discriminate].
  destruct (List.find _ _); cbn [bind]; [|congruence].
  destruct (List.find _ _); cbn [bind]; congruence.
Qed.

Lemma report_contradiction_dangling c acc r :
  rel_type r = CONTRADICTS ->
  get_step c (source_id r) = None \/ get_step c (target_id r) = None ->
  report_contradiction c acc r = Raise StopIteration.
Proof.
  unfold report_contradiction, py_next, get_step. intros -> H. cbn [RelationshipType_eqb].
  destruct (List.find _ (steps c)) eqn:E1; cbn [bind]; [|reflexivity].
  destruct H as [H|H]; [congruence|]. rewrite H. reflexivity.
Qed.

Lemma find_contradictions_stops c l acc r :
  In r l -> rel_type r = CONTRADICTS ->
  get_step c (source_id r) = None \/ get_step c (target_id r) = None ->
  forM l (report_contradiction c) acc = Raise StopIteration.
Proof.
  intros Hin Hty Hd. revert acc. induction l as [|x l IH]; intros acc; [contradiction|].
  cbn [forM]. destruct (report_contradiction c acc x) as [acc'|e] eqn:E; cbn [bind].
  - destruct Hin as [-> | Hin]; [|apply IH, Hin].
    rewrite (report_contradiction_dangling c acc r Hty Hd) in E. discriminate.
  - apply report_contradiction_raises in E. congruence.
Qed.

(** X9. When some CONTRADICTS relationship names a source or target id
    that no step has, the contradiction detector, and with it the whole
    analysis, raises StopIteration: the unguarded [next(...)] finds
    nothing. *)
Theorem analyze_chain_dangling_relationship (nlp : string -> list Token)
    (c : ReasoningChain) (r : Relationship) :
  In r (relationships c) ->
  rel_type r = CONTRADICTS ->
  get_step c (source_id r) = None \/ get_step c (target_id r) = None ->
  find_contradictions c = Raise StopIteration
  /\ analyze_chain nlp c = Raise StopIteration.
Proof.
  intros Hin Hty Hd.
  assert (E : find_contradictions c = Raise StopIteration)
    by (eapply find_contradictions_stops; eassumption).
  split; [exact E|]. unfold analyze_chain. cbv zeta.
  destruct (find_circular_reasoning_spec nlp c) as (circ & -> & _). cbn [bind].
  rewrite E. reflexivity.
Qed.

Lemma analyze_chain_dangling_relationship_witness :
  find_contradictions
    (mkChain [mkStep 1 "a" PREMISE 1 []] [mkRel 1 5 CONTRADICTS 1]) = Raise StopIteration
  /\ analyze_chain simple_nlp
       (mkChain [mkStep 1 "a" PREMISE 1 []] [mkRel 1 5 CONTRADICTS 1]) = Raise StopIteration.
Proof.
  apply (analyze_chain_dangling_relationship simple_nlp
           (mkChain [mkStep 1 "a" PREMISE 1 []] [mkRel 1 5 CONTRADICTS 1])
           (mkRel 1 5 CONTRADICTS 1)).
  - left. reflexivity.
  - reflexivity.
  - right. reflexivity.
Defined.

(** ** The circular-reasoning detector, continued *)

Ltac circular_shaped :=
  unfold circular_shape;
  repeat split; try reflexivity;
  eexists _, _; split; [reflexivity | lia].

Section CircularShape.

Variable nlp : string -> list Token.

Lemma first_pass_step_shape c n seen issues k s :
  n = len (steps c) -> 0 <= k < n ->
  (forall key v, seen !! key = Some v -> 1 <= v <= k) ->
  Forall (circular_shape n) issues ->
  exists seen' issues',
    first_pass_step nlp c (seen, issues) (k, s) = Ok (seen', issues')
    /\ (forall key v, seen' !! key = Some v -> 1 <= v <= k + 1)
    /\ Forall (circular_shape n) issues'.
Proof.
  intros Hn Hk Hseen Hiss. unfold first_pass_step. cbv zeta.
  assert (Hfirst : exists issues1,
    (if (k <? len (steps c) - 1) && (k =? 0)
     then
       let! next := py_index (steps c) (k + 1) in
       if contains "bible" (lower (text s))
          && contains "is true because it says so" (lower (text s))
          && contains "says so because it's true" (lower (text next))
       then
         Ok (issues ++
             [circular_issue
                ("Steps " +:+ of_int (k + 1) +:+ " and " +:+ of_int (k + 2)
                   +:+ " form a circular argument")
                (k + 1) (k + 2)
                ["This is a classic example of circular reasoning - the conclusion is used as its own evidence";
                 "Provide independent evidence to support the claim"]])
       else Ok issues
     else Ok issues) = Ok issues1 /\ Forall (circular_shape n) issues1).
  { destruct (Z.ltb_spec k (len (steps c) - 1)), (Z.eqb_spec k 0); cbn [andb];
      try (exists issues; split; [reflexivity | exact Hiss]).
    destruct (py_index_in_range (steps c) (k + 1)) as (next & -> & _); [lia|].
    cbn [bind]. destruct (_ && _ && _).
    - eexists. split; [reflexivity|]. apply Forall_app. split; [exact Hiss|].
      constructor; [|constructor]. circular_shaped.
    - exists issues. split; [reflexivity | exact Hiss]. }
  destruct Hfirst as (issues1 & -> & H1). cbn [bind].
  destruct (seen !! normalize nlp (text s)) as [first|] eqn:Es; [destruct (3 <? _)|].
  - eexists _, _. split; [reflexivity|]. split.
    + intros key v Hv. specialize (Hseen key v Hv). lia.
    + apply Forall_app. split; [exact H1|]. constructor; [|constructor].
      specialize (Hseen _ _ Es). circular_shaped.
  - eexists _, _. split; [reflexivity|]. split; [|exact H1].
    intros key v. rewrite lookup_insert. case_decide.
    + intros [= <-]. lia.
    + intros Hv. specialize (Hseen key v Hv). lia.
  - eexists _, _. split; [reflexivity|]. split; [|exact H1].
    intros key v. rewrite lookup_insert. case_decide.
    + intros [= <-]. lia.
    + intros Hv. specialize (Hseen key v Hv). lia.
Qed.

Lemma first_pass_shape c n l k seen issues :
  n = len (steps c) -> 0 <= k -> k + len l <= n ->
  (forall key v, seen !! key = Some v -> 1 <= v <= k) ->
  Forall (circular_shape n) issues ->
  exists seen' issues',
    forM (enumerate k l) (first_pass_step nlp c) (seen, issues) = Ok (seen', issues')
    /\ Forall (circular_shape n) issues'.
Proof.
  intros Hn. revert k seen issues.
  induction l as [|s l IH]; intros k seen issues Hk Hlen Hseen Hiss.
  - eexists _, _. split; [reflexivity | exact Hiss].
  - cbn [enumerate forM]. unfold len in Hlen. cbn [List.length] in Hlen.
    destruct (first_pass_step_shape c n seen issues k s Hn) as (seen1 & issues1 & -> & Hs1 & Hi1);
      [lia | exact Hseen | exact Hiss |].
    cbn [bind]. apply IH; [lia | unfold len; lia | exact Hs1 | exact Hi1].
Qed.

Lemma circular_pair_shape c issues i :
  0 <= i < len (steps c) - 1 ->
  Forall (circular_shape (len (steps c))) issues ->
  exists issues',
    circular_pair nlp c issues i = Ok issues'
    /\ Forall (circular_shape (len (steps c))) issues'.
Proof.
  intros Hi Hiss. unfold circular_pair. cbv zeta.
  destruct (py_index_in_range (steps c) i) as (current & -> & _); [lia|].
  destruct (py_index_in_range (steps c) (i + 1)) as (next & -> & _); [lia|].
  cbn [bind].
  destruct (is_circular_total nlp (lower (text current)) (lower (text next))) as [b1 ->].
  destruct (is_circular_total nlp (lower (text next)) (lower (text current))) as [b2 ->].
  cbn [orelse bind].
  set (cur := lemma_set (nlp (lower (text current)))).
  set (nxt := lemma_set (nlp (lower (text next)))).
  assert (Hc : exists c1, (if b1 then Ok true else Ok b2) = Ok c1) by (destruct b1; eauto).
  destruct Hc as [c1 ->]. cbn [bind].
  assert (Hp : forall sugg, circular_shape (len (steps c)) (potential_circular i sugg))
    by (intros sugg; unfold potential_circular; circular_shaped).
  destruct (set_truthy cur) eqn:Et; cbn [andb];
    [destruct (set_truthy nxt); [destruct (3 <=? size_Z (cur ∩ nxt))|]|];
    rewrite ?py_div_nonzero by (apply set_truthy_size, Et); cbn [bind];
    try destruct (Qlt_bool _ _); destruct c1;
    (eexists; split; [reflexivity|]);
    repeat (apply Forall_app; split); try exact Hiss;
    repeat constructor; apply Hp.
Qed.

Lemma find_circular_reasoning_shape c :
  exists issues,
    find_circular_reasoning nlp c = Ok issues
    /\ Forall (circular_shape (len (steps c))) issues.
Proof.
  unfold find_circular_reasoning, circular_first_pass.
  destruct (first_pass_shape c (len (steps c)) (steps c) 0 ∅ [])
    as (seen & issues & -> & Hiss); try reflexivity; try lia.
  { intros key v. rewrite lookup_empty. discriminate. }
  { constructor. }
  cbn [bind snd]. destruct (2 <=? len (steps c)); [|eauto].
  assert (H : forall l acc,
             (forall i, In i l -> 0 <= i < len (steps c) - 1) ->
             Forall (circular_shape (len (steps c))) acc ->
             exists r, forM l (circular_pair nlp c) acc = Ok r
                       /\ Forall (circular_shape (len (steps c))) r).
  { induction l as [|i l IH]; intros acc Hl Hacc; [eauto|].
    cbn [forM]. destruct (circular_pair_shape c acc i) as (acc' & -> & Hacc');
      [apply Hl; left; reflexivity | exact Hacc |].
    cbn [bind]. apply IH; [|exact Hacc']. intros; apply Hl; right; assumption. }
  apply H; [|exact Hiss]. intros i Hi. apply range_In, Hi.
Qed.

End CircularShape.

(** X10. The circular-reasoning detector returns on every chain, with
    any tokenizer; each issue it returns is a high-severity
    "circular_reasoning" issue without confidence that names exactly two
    step numbers a < b between 1 and the number of steps. *)
Theorem find_circular_reasoning_pairs (nlp : string -> list Token) (c : ReasoningChain) :
  exists issues,
    find_circular_reasoning nlp c = Ok issues
    /\ forall i, In i issues -> circular_shape (len (steps c)) i.
Proof.
  destruct (find_circular_reasoning_shape nlp c) as (issues & E & H).
  exists issues. split; [exact E|]. rewrite Forall_forall in H.
  intros i Hi. apply H, list_elem_of_In, Hi.
Qed.

Lemma find_circular_reasoning_pairs_witness :
  circular_shape 3
    (circular_issue "Steps 1 and 2 form a circular argument" 1 2
       ["This is a classic example of circular reasoning - the conclusion is used as its own evidence";
        "Provide independent evidence to support the claim"]).
Proof.
  destruct (find_circular_reasoning_pairs simple_nlp
              (parse_text simple_nlp
                 (unlines ["1. The Bible is true because it says so";
                           "2. We know it says so because it's true";
                           "3. Therefore, you should believe it"])))
    as (issues & E & H).
  vm_compute in E. injection E as <-.
  apply (H _ (or_introl eq_refl)).
Defined.
(** ** The hasty-generalization detector *)

Lemma supports_into_none c s :
  is_nil (List.filter (supports_into s) (relationships c)) = true <-> ~ supported c s.
Proof.
  unfold supported. split.
  - intros H (r & Hin & Ht & Hty).
    assert (Hf : In r (List.filter (supports_into s) (relationships c))).
    { apply filter_In. split; [exact Hin|]. unfold supports_into.
      rewrite Ht, Hty, Z.eqb_refl. reflexivity. }
    destruct (List.filter _ _); [contradiction | discriminate].
  - intros H. destruct (List.filter _ _) as [|r l] eqn:E; [reflexivity|].
    exfalso. apply H. exists r.
    assert (Hf : In r (List.filter (supports_into s) (relationships c)))
      by (rewrite E; left; reflexivity).
    apply filter_In in Hf as [Hin Hs]. unfold supports_into in Hs.
    apply andb_true_iff in Hs as [H1 H2]. apply Z.eqb_eq in H1.
    split; [exact Hin|]. split; [exact H1|]. destruct (rel_type r); try discriminate.
    reflexivity.
Qed.

Lemma logical_form_spec tl :
  any_in ["all "; "every "; "no "; "some "] tl
  && any_in [" are "; " is "; " have "; " has "] tl = true <-> logical_form tl.
Proof. unfold logical_form. rewrite andb_true_iff, !any_in_spec. reflexivity. Qed.

Lemma generalization_indicator_weight ind conf :
  In (ind, conf) generalization_indicators -> (7 # 10 <= conf)%Q /\ (conf <= 9 # 10)%Q.
Proof.
  unfold generalization_indicators. cbn [In].
  intros H. repeat destruct H as [H | H]; try contradiction;
    injection H as _ <-; split; unfold Qle; simpl; lia.
Qed.

Lemma find_hasty_generalizations_members c i :
  In i (find_hasty_generalizations c) ->
  exists s conf,
    In s (steps c) /\ i = hasty_generalization s conf
    /\ (7 # 10 <= conf)%Q /\ (conf <= 9 # 10)%Q.
Proof.
  unfold find_hasty_generalizations. rewrite in_flat_map.
  intros (s & Hs & H). destruct (any_in common_sayings _); [contradiction|].
  apply in_flat_map in H as ([ind conf] & Hind & H).
  destruct (contains ind _); [|contradiction]. cbv zeta in H.
  destruct (is_nil _); [|contradiction].
  destruct (any_in _ _ && any_in _ _); [contradiction|].
  destruct H as [<- | []]. exists s, conf.
  pose proof (generalization_indicator_weight ind conf Hind) as [Hlo Hhi].
  repeat split; assumption.
Qed.

(** X11. The hasty-generalization detector reports exactly the pairs of a
    step and an indicator entry such that the indicator occurs in the
    lowercased step, the step holds no common saying, does not read as a
    formal quantified statement and has no inbound SUPPORTS relationship;
    the issue is of medium severity, names the step's own id and carries
    the entry's weight, which lies between 0.7 and 0.9. *)
Theorem find_hasty_generalizations_spec (c : ReasoningChain) (i : Issue) :
  In i (find_hasty_generalizations c) <->
  exists s ind conf,
    In s (steps c)
    /\ In (ind, conf) generalization_indicators
    /\ substring ind (lower (text s))
    /\ ~ mentions common_sayings (lower (text s))
    /\ ~ logical_form (lower (text s))
    /\ ~ supported c s
    /\ i = hasty_generalization s conf
    /\ severity i = "medium"
    /\ step_ids i = Some [step_id s]
    /\ (7 # 10 <= conf)%Q /\ (conf <= 9 # 10)%Q.
Proof.
  unfold find_hasty_generalizations. rewrite in_flat_map. split.
  - intros (s & Hs & H). destruct (any_in common_sayings _) eqn:Ec; [contradiction|].
    apply in_flat_map in H as ([ind conf] & Hind & H).
    destruct (contains ind _) eqn:Ei; [|contradiction]. cbv zeta in H.
    destruct (is_nil _) eqn:En; [|contradiction].
    destruct (any_in _ _ && any_in _ _) eqn:El; [contradiction|].
    destruct H as [<- | []]. exists s, ind, conf.
    pose proof (generalization_indicator_weight ind conf Hind) as [Hlo Hhi].
    repeat split; try assumption.
    + apply contains_spec, Ei.
    + apply any_in_false, Ec.
    + rewrite <- logical_form_spec, El. discriminate.
    + apply supports_into_none, En.
  - intros (s & ind & conf & Hs & Hind & Hsub & Hc & Hl & Hsup & -> & _).
    exists s. split; [exact Hs|].
    apply any_in_false in Hc. rewrite Hc. apply in_flat_map.
    exists (ind, conf). split; [exact Hind|].
    apply contains_spec in Hsub. rewrite Hsub. cbv zeta.
    apply supports_into_none in Hsup. rewrite Hsup.
    destruct (any_in _ _ && any_in _ _) eqn:El; [|left; reflexivity].
    exfalso. apply Hl, logical_form_spec, El.
Qed.

Lemma find_hasty_generalizations_spec_witness :
  exists s ind conf,
    In s [mkStep 1 "Cats never sleep" PREMISE 1 []]
    /\ In (ind, conf) generalization_indicators
    /\ substring ind (lower (text s))
    /\ ~ mentions common_sayings (lower (text s))
    /\ ~ logical_form (lower (text s))
    /\ ~ supported (mkChain [mkStep 1 "Cats never sleep" PREMISE 1 []] []) s
    /\ hasty_generalization (mkStep 1 "Cats never sleep" PREMISE 1 []) (8 # 10)
       = hasty_generalization s conf
    /\ severity (hasty_generalization (mkStep 1 "Cats never sleep" PREMISE 1 []) (8 # 10))
       = "medium"
    /\ step_ids (hasty_generalization (mkStep 1 "Cats never sleep" PREMISE 1 []) (8 # 10))
       = Some [step_id s]
    /\ (7 # 10 <= conf)%Q /\ (conf <= 9 # 10)%Q.
Proof.
  apply (proj1 (find_hasty_generalizations_spec
                  (mkChain [mkStep 1 "Cats never sleep" PREMISE 1 []] [])
                  (hasty_generalization (mkStep 1 "Cats never sleep" PREMISE 1 []) (8 # 10)))).
  vm_compute. left. reflexivity.
Defined.

(** X12. The indicator table lists "always " and "never " twice and the
    inner loop has no [break]: a step that is flagged for one of these two
    indicators is reported twice with the same issue. *)
Theorem find_hasty_generalizations_repeats (c : ReasoningChain) (s : ReasoningStep) :
  In s (steps c) ->
  substring "never " (lower (text s)) \/ substring "always " (lower (text s)) ->
  ~ mentions common_sayings (lower (text s)) ->
  ~ logical_form (lower (text s)) ->
  ~ supported c s ->
  exists l1 l2 l3,
    find_hasty_generalizations c =
    l1 ++ hasty_generalization s (8 # 10) :: l2 ++ hasty_generalization s (8 # 10) :: l3.
Proof.
  intros Hs Hsub Hc Hl Hsup. apply in_split in Hs as (pre & post & E).
  unfold find_hasty_generalizations. rewrite E, flat_map_app. cbn [flat_map].
  apply any_in_false in Hc. rewrite Hc.
  apply supports_into_none in Hsup. rewrite Hsup.
  assert (El : any_in ["all "; "every "; "no "; "some "] (lower (text s))
               && any_in [" are "; " is "; " have "; " has "] (lower (text s)) = false).
  { destruct (_ && _) eqn:El; [|reflexivity]. exfalso. apply Hl, logical_form_spec, El. }
  rewrite El. cbn [andb negb].
  unfold generalization_indicators. cbn [flat_map].
  destruct Hsub as [Hn | Ha].
  - apply contains_spec in Hn. rewrite Hn.
    match goal with
    | |- exists _ _ _,
          ?p ++ (?a1 ++ ?a2 ++ ?a3 ++ _ ++ ?a5 ++ ?a6 ++ ?a7 ++ ?a8 ++ ?a9 ++ ?a10
                 ++ ?a11 ++ _ ++ []) ++ ?q = _ =>
        exists (p ++ a1 ++ a2 ++ a3), (a5 ++ a6 ++ a7 ++ a8 ++ a9 ++ a10 ++ a11), q
    end.
    repeat rewrite <- app_assoc. reflexivity.
  - apply contains_spec in Ha. rewrite Ha.
    match goal with
    | |- exists _ _ _,
          ?p ++ (?a1 ++ ?a2 ++ _ ++ ?a4 ++ ?a5 ++ ?a6 ++ ?a7 ++ ?a8 ++ ?a9 ++ ?a10
                 ++ _ ++ ?a12 ++ []) ++ ?q = _ =>
        exists (p ++ a1 ++ a2), (a4 ++ a5 ++ a6 ++ a7 ++ a8 ++ a9 ++ a10), (a12 ++ q)
    end.
    repeat rewrite <- app_assoc. reflexivity.
Qed.

Lemma find_hasty_generalizations_repeats_witness :
  exists l1 l2 l3,
    find_hasty_generalizations (mkChain [mkStep 1 "Cats never sleep" PREMISE 1 []] []) =
    l1 ++ hasty_generalization (mkStep 1 "Cats never sleep" PREMISE 1 []) (8 # 10)
    :: l2 ++ hasty_generalization (mkStep 1 "Cats never sleep" PREMISE 1 []) (8 # 10)
    :: l3.
Proof.
  apply (find_hasty_generalizations_repeats
           (mkChain [mkStep 1 "Cats never sleep" PREMISE 1 []] [])
           (mkStep 1 "Cats never sleep" PREMISE 1 [])).
  - left. reflexivity.
  - left. apply contains_spec. reflexivity.
  - apply any_in_false. reflexivity.
  - rewrite <- logical_form_spec. vm_compute. discriminate.
  - intros (r & [] & _).
Defined.

(** ** The unsupported-claims detector, continued *)

Lemma is_plan_spec c :
  existsb (fun s => any_in plan_terms (lower (text s)))
    (List.filter (fun s => StepType_eqb (step_type s) CONCLUSION) (steps c)) = true
  <-> plan_chain c.
Proof.
  unfold plan_chain. rewrite existsb_exists. split.
  - intros (s & Hs & Hp). apply filter_In in Hs as [Hs Hty]. exists s.
    split; [exact Hs|]. split; [destruct (step_type s); try discriminate; reflexivity|].
    apply any_in_spec, Hp.
  - intros (s & Hs & Hty & Hp). exists s. split; [|apply any_in_spec, Hp].
    apply filter_In. split; [exact Hs|]. rewrite Hty. reflexivity.
Qed.

Lemma support_issues_In c s i :
  In i (support_issues c s) ->
  i = consider_adding_support s
  /\ step_type s = CONCLUSION
  /\ is_common_knowledge (text s) = false
  /\ ~ supported c s
  /\ ~ mentions logical_indicators (lower (text s)).
Proof.
  unfold support_issues. cbv zeta.
  destruct (StepType_eqb (step_type s) CONCLUSION) eqn:Et; [|contradiction].
  destruct (is_common_knowledge (text s)) eqn:Ek; [contradiction|]. cbn [negb andb].
  destruct (is_nil _) eqn:En; [|contradiction].
  destruct (any_in logical_indicators _) eqn:El; [contradiction|]. cbn [negb andb].
  intros [<- | []]. repeat split.
  - destruct (step_type s); try discriminate; reflexivity.
  - apply supports_into_none, En.
  - apply any_in_false, El.
Qed.

Lemma find_unsupported_claims_unfold c :
  exists casual : bool,
    find_unsupported_claims c =
    (if casual
        && negb (existsb (fun s => any_in plan_terms (lower (text s)))
                   (List.filter (fun s => StepType_eqb (step_type s) CONCLUSION) (steps c)))
     then flat_map (support_issues c) (steps c) else [])
    ++ (if existsb (fun s => any_in plan_terms (lower (text s)))
              (List.filter (fun s => StepType_eqb (step_type s) CONCLUSION) (steps c))
           && (1 <? len (steps c))
        then [planning_analysis] else [])
    ++ flat_map assumption_issues (steps c).
Proof.
  unfold find_unsupported_claims. cbv zeta.
  match goal with
  | |- context [negb (?a && negb ?b) && negb _] => exists (negb (a && negb b))
  end.
  destruct (negb (_ && negb _)); destruct (existsb _ _); destruct (1 <? len (steps c));
    cbn [negb andb app]; rewrite <- ?app_assoc; reflexivity.
Qed.

Lemma assumption_issues_not_support s x :
  In x (assumption_issues s) -> issue_type x = "potential_assumption".
Proof.
  intros H. apply assumption_issues_type in H. apply String.eqb_eq, H.
Qed.

Lemma consider_adding_support_origin c i :
  In i (find_unsupported_claims c) ->
  issue_type i = "consider_adding_support" ->
  ~ plan_chain c
  /\ exists s, In s (steps c) /\ In i (support_issues c s).
Proof.
  destruct (find_unsupported_claims_unfold c) as [casual ->].
  rewrite <- is_plan_spec. rewrite !in_app_iff. intros [H | [H | H]] Hty.
  - destruct casual; [|contradiction]. cbn [andb] in H.
    destruct (existsb _ _); [contradiction|]. cbn [negb] in H.
    split; [discriminate|]. apply in_flat_map, H.
  - destruct (_ && (1 <? _)); [|contradiction]. destruct H as [<- | []]. discriminate.
  - apply in_flat_map in H as (s & _ & H). apply assumption_issues_not_support in H.
    rewrite Hty in H. discriminate.
Qed.

(** X13. A "consider_adding_support" issue is only raised for a step typed
    CONCLUSION that is not common knowledge, has no inbound SUPPORTS
    relationship and holds no logical indicator, and never when the chain
    reads as a plan.  In a chain produced by the parser such a step was
    typed CONCLUSION by an indicator that is not a logical indicator, which
    leaves only the substring "so". *)
Theorem consider_adding_support_only_so (nlp : string -> list Token) (t : string)
    (i : Issue) :
  In i (find_unsupported_claims (parse_text nlp t)) ->
  issue_type i = "consider_adding_support" ->
  ~ plan_chain (parse_text nlp t)
  /\ exists s,
       In s (steps (parse_text nlp t))
       /\ i = consider_adding_support s
       /\ step_type s = CONCLUSION
       /\ is_common_knowledge (text s) = false
       /\ ~ mentions logical_indicators (lower (text s))
       /\ substring "so" (lower (text s)).
Proof.
  intros Hin Hty.
  destruct (consider_adding_support_origin _ i Hin Hty) as (Hplan & s & Hs & Hi).
  split; [exact Hplan|]. exists s.
  apply support_issues_In in Hi as (-> & Hc & Hk & _ & Hl).
  repeat split; try assumption.
  pose proof (parse_text_types nlp t) as HT. rewrite Forall_forall in HT.
  specialize (HT s (proj2 (list_elem_of_In _ _) Hs)). rewrite Hc in HT.
  pose proof (determine_step_type_classified (text s)) as Hcl. rewrite <- HT in Hcl.
  inversion Hcl as [Hm | |]. destruct Hm as (ind & Hind & Hsub).
  unfold conclusion_indicators in Hind. cbn [In] in Hind.
  destruct Hind as [<- | [<- | [<- | [<- | [<- | []]]]]]; try exact Hsub;
    exfalso; apply Hl; eexists; (split; [|exact Hsub]);
    unfold logical_indicators; cbn [In]; tauto.
Qed.

Lemma consider_adding_support_only_so_witness :
  ~ plan_chain (parse_text simple_nlp "So whales float")
  /\ exists s,
       In s (steps (parse_text simple_nlp "So whales float"))
       /\ consider_adding_support (mkStep 1 "So whales float" CONCLUSION 1 [])
          = consider_adding_support s
       /\ step_type s = CONCLUSION
       /\ is_common_knowledge (text s) = false
       /\ ~ mentions logical_indicators (lower (text s))
       /\ substring "so" (lower (text s)).
Proof.
  apply (consider_adding_support_only_so simple_nlp "So whales float"
           (consider_adding_support (mkStep 1 "So whales float" CONCLUSION 1 []))).
  - vm_compute. left. reflexivity.
  - reflexivity.
Defined.

(** X14. When the chain reads as a plan (a conclusion step holds "i'll",
    "i will", "plan to" or "going to"), no "consider_adding_support" issue
    is raised; the "planning_analysis" issue is raised exactly when the
    chain reads as a plan and has more than one step. *)
Theorem planning_analysis_gate (c : ReasoningChain) :
  (plan_chain c ->
   forall i, In i (find_unsupported_claims c) ->
             issue_type i <> "consider_adding_support")
  /\ (In planning_analysis (find_unsupported_claims c)
      <-> plan_chain c /\ 1 < len (steps c)).
Proof.
  split.
  - intros Hplan i Hi Hty.
    destruct (consider_adding_support_origin c i Hi Hty) as [Hn _]. contradiction.
  - rewrite <- is_plan_spec.
    destruct (find_unsupported_claims_unfold c) as [casual ->].
    rewrite !in_app_iff. split.
    + intros [H | [H | H]].
      * exfalso. destruct (casual && _); [|contradiction].
        apply in_flat_map in H as (s & _ & H).
        apply support_issues_In in H as [H _]. discriminate.
      * destruct (existsb _ _); [|contradiction]. cbn [andb] in H.
        destruct (Z.ltb_spec 1 (len (steps c))); [|contradiction]. split; [reflexivity | lia].
      * exfalso. apply in_flat_map in H as (s & _ & H).
        apply assumption_issues_not_support in H. discriminate.
    + intros [-> Hlen]. apply Z.ltb_lt in Hlen. rewrite Hlen.
      right. left. left. reflexivity.
Qed.
Lemma planning_analysis_gate_witness :
  In planning_analysis
     (find_unsupported_claims
        (mkChain [mkStep 1 "I work best early" PREMISE 1 [];
                  mkStep 2 "So I will start early" CONCLUSION 1 []] [])).
Proof.
  apply (proj2 (proj2 (planning_analysis_gate
           (mkChain [mkStep 1 "I work best early" PREMISE 1 [];
                     mkStep 2 "So I will start early" CONCLUSION 1 []] [])))).
  split; [|vm_compute; reflexivity].
  exists (mkStep 2 "So I will start early" CONCLUSION 1 []).
  split; [right; left; reflexivity|]. split; [reflexivity|].
  apply any_in_spec. reflexivity.
Defined.

(** ** The emotional-reasoning detector, continued *)

Lemma anyM_true {A} (f : A -> result bool) l :
  anyM f l = Ok true -> exists x, In x l /\ f x = Ok true.
Proof.
  induction l as [|x l IH]; simpl; [discriminate|].
  destruct (f x) as [[|]|e] eqn:E; cbn [bind]; try discriminate.
  - intros _. exists x. split; [left; reflexivity | exact E].
  - intros H. destruct (IH H) as (y & Hy & Ey). exists y. split; [right|]; assumption.
Qed.

Lemma emotional_step_shape c i s new :
  emotional_step c i s = Ok new ->
  new = [] \/ exists x, new = [x] /\ emotional_shape c i s x.
Proof.
  unfold emotional_step. cbv zeta.
  destruct (_ && negb _); [intros [= <-]; left; reflexivity|].
  match goal with |- bind ?m _ = _ -> _ => destruct m as [b|e] end;
    cbn [bind]; [|discriminate].
  destruct (_ || _ || _); [|intros [= <-]; left; reflexivity].
  destruct (existsb (supports_from s) (relationships c)) eqn:Ep.
  - assert (Ht : touches_support c s).
    { apply existsb_exists in Ep as (r & Hr & Hs). unfold supports_from in Hs.
      apply andb_true_iff in Hs as [H1 H2]. apply Z.eqb_eq in H1.
      exists r. split; [exact Hr|]. split; [destruct (rel_type r); try discriminate; reflexivity|].
      left. exact H1. }
    match goal with |- bind ?m _ = _ -> _ => destruct m as [b'|e] end;
      cbn [bind]; [|discriminate].
    rewrite !orb_true_r. cbn [negb andb orb].
    intros [= <-]. right. eexists. split; [reflexivity|].
    unfold emotional_shape. repeat split. right.
    split; [destruct b'; reflexivity | exact Ht].
  - match goal with |- bind ?m _ = _ -> _ => destruct m as [b'|e] eqn:Ea end;
      cbn [bind]; [|discriminate].
    destruct b'.
    + assert (Ht : touches_support c s).
      { apply anyM_true in Ea as (r & Hr & Hf). apply filter_In in Hr as [Hr Hty].
        destruct (Z.eqb_spec (target_id r) (step_id s)) as [Et|]; [|discriminate].
        exists r. split; [exact Hr|].
        split; [destruct (rel_type r); try discriminate; reflexivity|]. right. exact Et. }
      rewrite !orb_true_r. cbn [negb andb orb].
      intros [= <-]. right. eexists. split; [reflexivity|].
      unfold emotional_shape. repeat split. right. split; [reflexivity | exact Ht].
    + cbn [orb negb andb].
      destruct (_ || _); [|intros [= <-]; left; reflexivity].
      destruct (_ && _); intros [= <-]; [left; reflexivity|].
      right. eexists. split; [reflexivity|].
      unfold emotional_shape. repeat split. left. reflexivity.
Qed.

Lemma find_emotional_reasoning_from c l k acc r :
  (forall j s, l !! j = Some s -> steps c !! (Z.to_nat k + j)%nat = Some s) ->
  0 <= k ->
  forM (enumerate k l) (emotional_body c) acc = Ok r ->
  exists new,
    r = acc ++ new
    /\ sublist (map step_ids new)
               (map (fun j => Some [Z.of_nat j + 1]) (seq (Z.to_nat k) (List.length l)))
    /\ Forall (fun x => exists (j : nat) s,
                 steps c !! j = Some s /\ emotional_shape c (Z.of_nat j) s x) new.
Proof.
  revert k acc. induction l as [|s l IH]; intros k acc Hl Hk; cbn [enumerate forM].
  - intros [= <-]. exists []. rewrite app_nil_r. repeat split; constructor.
  - unfold emotional_body at 1.
    destruct (emotional_step c k s) as [new|e] eqn:E; cbn [bind]; [|discriminate].
    intros H. apply IH in H as (new' & -> & Hsub & HF); [| |lia].
    2:{ intros j s' Hj. replace (Z.to_nat (k + 1) + j)%nat with (Z.to_nat k + S j)%nat by lia.
        apply Hl. exact Hj. }
    exists (new ++ new'). split; [rewrite app_assoc; reflexivity|].
    cbn [List.length seq map].
    replace (S (Z.to_nat k)) with (Z.to_nat (k + 1)) by lia.
    destruct (emotional_step_shape c k s new E) as [-> | (x & -> & Hx)].
    + split; [apply sublist_cons, Hsub | exact HF].
    + split.
      * cbn [app map]. destruct Hx as (_ & -> & _). rewrite Z2Nat.id by lia.
        apply sublist_skip, Hsub.
      * constructor; [|exact HF]. exists (Z.to_nat k), s. rewrite Z2Nat.id by lia.
        split; [|exact Hx]. specialize (Hl 0%nat s eq_refl).
        rewrite Nat.add_0_r in Hl. exact Hl.
Qed.

Lemma find_emotional_reasoning_members c issues x :
  find_emotional_reasoning c = Ok issues -> In x issues ->
  exists (j : nat) s, steps c !! j = Some s /\ emotional_shape c (Z.of_nat j) s x.
Proof.
  unfold find_emotional_reasoning. intros H Hx.
  apply find_emotional_reasoning_from in H as (new & -> & _ & HF); [| |lia].
  - rewrite Forall_forall in HF. apply HF, list_elem_of_In, Hx.
  - intros j s Hj. exact Hj.
Qed.

(** X15. When the emotional-reasoning detector returns, its issues follow
    the order of the steps with at most one issue per step: the lists of
    step numbers they carry form a subsequence of [1], [2], ..., [n].  Each
    issue belongs to the step at that position, has no confidence, and its
    severity is low, or medium when a SUPPORTS relationship starts or ends
    at that step. *)
Theorem find_emotional_reasoning_per_step (c : ReasoningChain) (issues : list Issue) :
  find_emotional_reasoning c = Ok issues ->
  sublist (map step_ids issues)
          (map (fun j => Some [Z.of_nat j + 1]) (seq 0 (List.length (steps c))))
  /\ forall x, In x issues ->
       exists (j : nat) s, steps c !! j = Some s /\ emotional_shape c (Z.of_nat j) s x.
Proof.
  unfold find_emotional_reasoning. intros H.
  apply find_emotional_reasoning_from in H as (new & -> & Hsub & HF); [| |lia].
  - split; [exact Hsub|]. rewrite Forall_forall in HF.
    intros x Hx. apply HF, list_elem_of_In, Hx.
  - intros j s Hj. exact Hj.
Qed.

Lemma find_emotional_reasoning_per_step_witness :
  sublist
    (map step_ids
       [emotional_reasoning
          "Step 1 contains emotional language that might weaken the argument" 1 "low"])
    (map (fun j => Some [Z.of_nat j + 1]) (seq 0 1))
  /\ forall x,
       In x [emotional_reasoning
               "Step 1 contains emotional language that might weaken the argument" 1 "low"] ->
       exists (j : nat) s,
         [mkStep 1 "I feel sad so i will quit" CONCLUSION 1 []] !! j = Some s
         /\ emotional_shape
              (mkChain [mkStep 1 "I feel sad so i will quit" CONCLUSION 1 []] [])
              (Z.of_nat j) s x.
Proof.
  apply (find_emotional_reasoning_per_step
           (mkChain [mkStep 1 "I feel sad so i will quit" CONCLUSION 1 []] [])).
  vm_compute. reflexivity.
Defined.
(** ** The shape of the issues *)

Lemma assumption_indicator_weight ind conf :
  In (ind, conf) assumption_indicators -> (5 # 10 <= conf)%Q /\ (conf <= 9 # 10)%Q.
Proof.
  unfold assumption_indicators. cbn [In].
  intros H. repeat destruct H as [H | H]; try contradiction;
    injection H as _ <-; split; unfold Qle; simpl; lia.
Qed.

Ltac well_formed_by_computation :=
  unfold well_formed_issue, analysis_types; cbn;
  repeat split; try tauto; try discriminate.

Lemma find_unsupported_claims_well_formed c x :
  In x (find_unsupported_claims c) ->
  well_formed_issue x /\ In (issue_type x) analysis_types.
Proof.
  destruct (find_unsupported_claims_unfold c) as [casual ->].
  rewrite !in_app_iff. intros [H | [H | H]].
  - destruct (casual && _); [|contradiction].
    apply in_flat_map in H as (s & _ & H). apply support_issues_In in H as [-> _].
    well_formed_by_computation.
  - destruct (_ && _); [|contradiction]. destruct H as [<- | []].
    well_formed_by_computation.
  - apply in_flat_map in H as (s & _ & H).
    destruct (assumption_issues_cases s) as [E | (ind & conf & E & Hf & _)];
      rewrite E in H; [contradiction|]. destruct H as [<- | []].
    destruct Hf as (before & after & Hl & _).
    assert (Hin : In (ind, conf) assumption_indicators)
      by (change assumption_indicators with listed_indicators;
          rewrite Hl; apply in_or_app; right; left; reflexivity).
    apply assumption_indicator_weight in Hin.
    unfold well_formed_issue, analysis_types. cbn.
    split; [split; [tauto | split; [reflexivity | intros q [= <-]; exact Hin]] | tauto].
Qed.

Lemma find_contradictions_well_formed c issues x :
  find_contradictions c = Ok issues -> In x issues ->
  well_formed_issue x /\ In (issue_type x) analysis_types.
Proof.
  unfold find_contradictions. intros H Hx.
  assert (HF : Forall (fun x => well_formed_issue x /\ In (issue_type x) analysis_types)
                 issues);
    [|rewrite Forall_forall in HF; apply HF, list_elem_of_In, Hx].
  eapply (forM_invariant
            (Forall (fun x => well_formed_issue x /\ In (issue_type x) analysis_types)));
    [constructor | | exact H].
  intros acc r acc' _ Hacc. unfold report_contradiction, py_next.
  destruct (RelationshipType_eqb _ _); [|intros [= <-]; exact Hacc].
  destruct (List.find _ _); cbn [bind]; [|discriminate].
  destruct (List.find _ _); cbn [bind]; [|discriminate].
  intros [= <-]. apply Forall_app. split; [exact Hacc|].
  constructor; [|constructor]. well_formed_by_computation.
Qed.

Lemma analyze_chain_issue_shape (nlp : string -> list Token) (c : ReasoningChain)
    (issues : list Issue) (x : Issue) :
  analyze_chain nlp c = Ok issues -> In x issues ->
  well_formed_issue x /\ In (issue_type x) analysis_types.
Proof.
  intros Han Hx.
  apply analyze_chain_parts in Han as (circ & contra & emo & Hc & Hk & He & ->).
  rewrite !in_app_iff in Hx. destruct Hx as [H | [H | [H | [H | H]]]].
  - apply find_unsupported_claims_well_formed in H. exact H.
  - destruct (find_circular_reasoning_shape nlp c) as (circ' & Hc' & HF).
    rewrite Hc in Hc'. injection Hc' as <-.
    rewrite Forall_forall in HF. apply list_elem_of_In, HF in H.
    destruct H as (Hty & Hsev & Hconf & Hstep & _).
    unfold well_formed_issue, analysis_types. rewrite Hty, Hsev, Hconf, Hstep.
    cbn. repeat split; try tauto; discriminate.
  - apply find_hasty_generalizations_members in H as (s & conf & _ & -> & Hlo & Hhi).
    unfold well_formed_issue, analysis_types. cbn.
    split; [split; [tauto | split; [reflexivity | intros q [= <-]; split; [lra | exact Hhi]]]
           | tauto].
  - eapply find_contradictions_well_formed; eassumption.
  - destruct (find_emotional_reasoning_members c emo x He H)
      as (j & s & _ & Hty & _ & Hconf & Hstep & Hsev).
    unfold well_formed_issue, analysis_types. rewrite Hty, Hconf, Hstep. cbn.
    repeat split; try tauto; try discriminate.
    destruct Hsev as [-> | [-> _]]; cbn; tauto.
Qed.

(** X16. Every issue that the analysis returns has one of seven tags
    (never "unsupported_claim", the tag that the suggestion engine keys
    on), a severity among info, low, medium and high, no [step] key, and,
    when it has a confidence, one between 0.5 and 0.9. *)
Theorem analyze_chain_well_formed (nlp : string -> list Token) (c : ReasoningChain)
    (issues : list Issue) (x : Issue) :
  analyze_chain nlp c = Ok issues -> In x issues ->
  well_formed_issue x
  /\ In (issue_type x) analysis_types
  /\ issue_type x <> "unsupported_claim".
Proof.
  intros Han Hx.
  destruct (analyze_chain_issue_shape nlp c issues x Han Hx) as [Hw Hty].
  split; [exact Hw | split; [exact Hty|]].
  intros E. rewrite E in Hty. unfold analysis_types in Hty. cbn in Hty.
  repeat destruct Hty as [Hty | Hty]; try discriminate; contradiction.
Qed.

Lemma analyze_chain_well_formed_witness :
  well_formed_issue (potential_assumption (mkStep 1 "Never stop" PREMISE 1 []) (9 # 10))
  /\ In (issue_type (potential_assumption (mkStep 1 "Never stop" PREMISE 1 []) (9 # 10)))
        analysis_types
  /\ issue_type (potential_assumption (mkStep 1 "Never stop" PREMISE 1 []) (9 # 10))
     <> "unsupported_claim".
Proof.
  eapply (analyze_chain_well_formed simple_nlp (parse_text simple_nlp "Never stop")).
  - vm_compute. reflexivity.
  - left. reflexivity.
Defined.

(** ** The secondary scorer, continued *)

Ltac suggestion_by_computation :=
  unfold well_formed_suggestion, scorer_types; cbn;
  repeat split; try tauto;
  try (eexists; split; [reflexivity|]; split; (reflexivity || (unfold Qle; simpl; lia)));
  try (eexists; split; reflexivity).

Section ScorerShape.

Variable polarity : string -> Q.

Lemma Qmin_py_bounds p :
  (5 # 10 < p)%Q ->
  (2 # 10 < Qmin_py (9 # 10) (p * (15 # 10)))%Q
  /\ (Qmin_py (9 # 10) (p * (15 # 10)) <= 9 # 10)%Q.
Proof.
  intros Hp. unfold Qmin_py. destruct (Qlt_bool _ _) eqn:E.
  - apply Qlt_bool_iff in E. split; lra.
  - split; lra.
Qed.

Lemma step_suggestions_well_formed i s x :
  In x (step_suggestions polarity i s) -> well_formed_suggestion x.
Proof.
  unfold step_suggestions. cbv zeta.
  destruct (is_nil _); [contradiction|].
  destruct (len _ <? 3); [intros [<- | []]; suggestion_by_computation|].
  rewrite !in_app_iff. intros [H | [H | H]].
  - unfold emotional_indicators in H. cbn [emotional_language] in H.
    destruct (any_in _ _); [destruct H as [<- | []]; suggestion_by_computation|].
    destruct (any_in _ _); [destruct H as [<- | []]; suggestion_by_computation|].
    contradiction.
  - destruct (any_in subjective_phrases _); [|contradiction].
    destruct H as [<- | []]. suggestion_by_computation.
  - destruct (Qlt_bool (5 # 10) _) eqn:E; [|contradiction].
    apply Qlt_bool_iff in E. destruct H as [<- | []].
    pose proof (Qmin_py_bounds _ E) as [Hlo Hhi].
    unfold well_formed_suggestion, scorer_types.
    destruct (Qlt_bool 0 _); cbn; repeat split; try tauto;
      try (eexists; split; [reflexivity|]; split; assumption);
      try (eexists; split; reflexivity).
Qed.

Lemma step_suggestions_length i s :
  (List.length (step_suggestions polarity i s) <= 3)%nat.
Proof.
  unfold step_suggestions. cbv zeta.
  destruct (is_nil _); [simpl; lia|].
  destruct (len _ <? 3); [simpl; lia|].
  rewrite !length_app.
  assert (List.length (emotional_language i (lower (strip (text s))) emotional_indicators)
          <= 1)%nat.
  { unfold emotional_indicators. cbn [emotional_language].
    destruct (any_in _ _); [simpl; lia|]. destruct (any_in _ _); simpl; lia. }
  destruct (any_in subjective_phrases _); destruct (Qlt_bool (5 # 10) _);
    cbn [List.length]; lia.
Qed.

Lemma flow_issues_length c i : (List.length (flow_issues c i) <= 1)%nat.
Proof.
  unfold flow_issues, flow_pair. cbv zeta.
  destruct (py_index (steps c) i); cbn [bind]; [|simpl; lia].
  destruct (py_index (steps c) (i + 1)); cbn [bind]; [|simpl; lia].
  destruct (topic_overlap _ _); cbn [bind]; [|simpl; lia].
  destruct (_ && _); simpl; lia.
Qed.

Lemma flat_map_length_le {A B} (f : A -> list B) (l : list A) (k : nat) :
  (forall x, In x l -> List.length (f x) <= k)%nat ->
  (List.length (flat_map f l) <= k * List.length l)%nat.
Proof.
  induction l as [|x l IH]; intros H; simpl; [lia|].
  rewrite length_app.
  pose proof (H x (or_introl eq_refl)).
  assert (List.length (flat_map f l) <= k * List.length l)%nat
    by (apply IH; intros; apply H; right; assumption).
  nia.
Qed.

Lemma flow_issues_well_formed c i x :
  0 <= i < len (steps c) - 1 -> In x (flow_issues c i) -> well_formed_suggestion x.
Proof.
  intros Hi Hx.
  destruct (flow_issues_confident c i x Hi Hx) as (Hty & q & Hq & Hlo & Hhi).
  unfold len in Hi.
  destruct (lookup_lt_is_Some_2 (steps c) (Z.to_nat i)) as [cur Hc]; [lia|].
  destruct (lookup_lt_is_Some_2 (steps c) (S (Z.to_nat i))) as [nxt Hn]; [lia|].
  unfold flow_issues in Hx.
  destruct (flow_pair_spec c [] _ _ _ Hc Hn) as (ov & _ & _ & E).
  rewrite Z2Nat.id in E by lia. rewrite E in Hx. cbn [app] in Hx.
  destruct (_ && _); [|contradiction]. destruct Hx as [<- | []].
  unfold well_formed_suggestion, scorer_types. cbn. repeat split; try tauto.
  - cbn in Hq. injection Hq as <-. eexists. split; [reflexivity|]. split; [exact Hlo | lra].
  - eexists. split; reflexivity.
Qed.

Lemma get_suggestions_shape c :
  exists l,
    get_suggestions polarity c = Ok l
    /\ (forall x, In x l -> well_formed_suggestion x)
    /\ (List.length l <= 4 * List.length (steps c))%nat.
Proof.
  rewrite get_suggestions_spec. eexists. split; [reflexivity|]. split.
  - intros x. rewrite in_app_iff. intros [H | H].
    + apply in_flat_map in H as ([i s] & _ & H). eapply step_suggestions_well_formed, H.
    + destruct (1 <? len (steps c)); [|contradiction].
      apply in_flat_map in H as (i & Hi & H). apply range_In in Hi.
      eapply flow_issues_well_formed; eassumption.
  - rewrite length_app.
    assert (H1 : (List.length (flat_map (fun '(i, s) => step_suggestions polarity i s)
                    (enumerate 0 (steps c))) <= 3 * List.length (steps c))%nat).
    { rewrite <- (enumerate_length (steps c) 0). apply flat_map_length_le.
      intros [i s] _. apply step_suggestions_length. }
    assert (H2 : (List.length (if (1 <? len (steps c))%Z
                               then flat_map (flow_issues c) (range (len (steps c) - 1)%Z)
                               else []) <= List.length (steps c))%nat).
    { destruct (1 <? len (steps c)); [|simpl; lia].
      pose proof (flat_map_length_le (flow_issues c) (range (len (steps c) - 1)) 1
                    (fun x _ => flow_issues_length c x)) as H.
      unfold range in H at 2. rewrite length_map, length_seq in H. unfold len in *. lia. }
    lia.
Qed.

End ScorerShape.

(** X17. The secondary scorer returns on every chain, whatever the
    sentiment scorer and without any invariant on the chain; it returns at
    most four suggestions per step; and every suggestion has one of the
    scorer's seven tags, severity low or info, a confidence in (0.2, 0.9],
    two remediation texts, and neither a [step] nor a [step_ids] key. *)
Theorem get_suggestions_returns (polarity : string -> Q) (c : ReasoningChain) :
  exists l,
    get_suggestions polarity c = Ok l
    /\ (forall x, In x l -> well_formed_suggestion x)
    /\ (List.length l <= 4 * List.length (steps c))%nat.
Proof. apply get_suggestions_shape. Qed.

Lemma get_suggestions_returns_witness :
  well_formed_suggestion
    (suggestion "step_too_short" "Step 1 is quite brief" (9 # 10) "low"
       ["Add more details or examples"; "Explain the connection to your main point"]).
Proof.
  destruct (get_suggestions_returns neutral_polarity (parse_text simple_nlp "Never stop"))
    as (l & E & H & _).
  vm_compute in E. injection E as <-. apply H. left. reflexivity.
Defined.

(** ** The suggestion engine *)

Lemma lookup_handler_None key :
  lookup_handler key suggestion_handlers = None <-> ~ In key handled_types.
Proof.
  unfold handled_types, suggestion_handlers. cbn [lookup_handler map fst In].
  repeat (match goal with |- context [String.eqb key ?k] =>
            destruct (String.eqb_spec key k) as [-> | ?] end;
          [split; [discriminate | intros H; exfalso; apply H; auto 10]|]).
  split; [|reflexivity]. intros _ H. repeat destruct H as [H | H]; congruence.
Qed.

Lemma handler_texts c x h texts :
  lookup_handler (issue_type x) suggestion_handlers = Some h ->
  h c x = Done texts -> (3 <= List.length texts <= 4)%nat.
Proof.
  unfold suggestion_handlers. cbn [lookup_handler].
  repeat (destruct (String.eqb _ _); [intros [= <-]; intros Hh|]); try discriminate.
  all: revert Hh.
  1: unfold suggest_for_unsupported_claim.
  2: unfold suggest_for_circular_reasoning.
  3: unfold suggest_for_hasty_generalization.
  4: unfold suggest_for_contradiction.
  5: unfold suggest_for_emotional_reasoning.
  all: match goal with |- and_then ?m _ = _ -> _ => destruct m end;
       cbn [and_then]; [|discriminate]; intros [= <-]; cbn [List.length]; lia.
Qed.

Lemma enhance_spec c x e : enhance c x = Done e -> same_but_suggestions x e.
Proof.
  unfold enhance. destruct (lookup_handler _ _) as [h|] eqn:E.
  - destruct (h c x) as [texts|] eqn:Eh; cbn [and_then]; [|discriminate].
    intros [= <-]. unfold same_but_suggestions. cbn. repeat split.
    + intros Hn. apply lookup_handler_None in Hn. congruence.
    + intros _. exists texts. split; [reflexivity|]. eapply handler_texts; eassumption.
  - intros [= <-]. unfold same_but_suggestions. repeat split.
    intros Hin. apply lookup_handler_None in E. contradiction.
Qed.

Lemma generate_suggestions_from_spec c issues acc out :
  generate_suggestions_from c issues acc = Done out ->
  exists new, out = acc ++ new /\ Forall2 same_but_suggestions issues new.
Proof.
  revert acc. induction issues as [|x issues IH]; intros acc; cbn [generate_suggestions_from].
  - intros [= <-]. exists []. rewrite app_nil_r. split; [reflexivity | constructor].
  - destruct (enhance c x) as [e|] eqn:E; cbn [and_then]; [|discriminate].
    intros H. apply IH in H as (new & -> & HF). exists (e :: new).
    split; [rewrite <- app_assoc; reflexivity|].
    constructor; [apply (enhance_spec c), E | exact HF].
Qed.

(** X18. When [generate_suggestions] returns, it returns one issue per
    input issue, in the same order; each differs from its input at most in
    its remediation texts; an issue whose tag has no handler is passed
    through unchanged, and an issue whose tag has one gets three or four
    texts. *)
Theorem generate_suggestions_pointwise (c : ReasoningChain) (issues out : list Issue) :
  generate_suggestions c issues = Done out ->
  Forall2 same_but_suggestions issues out
  /\ List.length out = List.length issues.
Proof.
  unfold generate_suggestions. intros H.
  apply generate_suggestions_from_spec in H as (new & -> & HF).
  cbn [app]. split; [exact HF|]. symmetry. eapply Forall2_length, HF.
Qed.

Lemma generate_suggestions_pointwise_witness :
  Forall2 same_but_suggestions
    [planning_analysis;
     hasty_generalization (mkStep 1 "Cats never sleep" PREMISE 1 []) (8 # 10)]
    [planning_analysis;
     with_suggestions
       (hasty_generalization (mkStep 1 "Cats never sleep" PREMISE 1 []) (8 # 10))
       ["The statement 'Cats never sleep' makes a broad generalization.";
        "Consider if you have enough evidence to support this generalization.";
        "Could you quantify this statement? (e.g., 'some' instead of 'all' or 'every')";
        "What exceptions might there be to this generalization?"]]
  /\ 2%nat = 2%nat.
Proof.
  apply (generate_suggestions_pointwise
           (mkChain [mkStep 1 "Cats never sleep" PREMISE 1 []] [])
           [planning_analysis;
            hasty_generalization (mkStep 1 "Cats never sleep" PREMISE 1 []) (8 # 10)]).
  vm_compute. reflexivity.
Defined.

Lemma step_with_id_found c k :
  ids_in_order c -> 1 <= k <= len (steps c) -> exists s, step_with_id c k = Done s.
Proof.
  intros Hids Hk. unfold step_with_id, py_next, len in *.
  destruct (lookup_lt_is_Some_2 (steps c) (Z.to_nat (k - 1))) as [s Hs]; [lia|].
  pose proof (ids_in_order_lookup c _ s Hids Hs) as Hid.
  destruct (find_is_Some (fun x => step_id x =? k) (steps c) s) as [y ->].
  - apply list_elem_of_In, list_elem_of_lookup. eauto.
  - apply Z.eqb_eq. lia.
  - cbn [lift]. eauto.
Qed.

Lemma step_with_id_resolved c k :
  is_Some (get_step c k) -> exists s, step_with_id c k = Done s.
Proof.
  intros [s Hs]. unfold step_with_id, py_next. unfold get_step in Hs. rewrite Hs.
  cbn [lift]. eauto.
Qed.

Lemma enhance_pair c x a b :
  step_ids x = Some [a; b] ->
  (exists s, step_with_id c a = Done s) -> (exists s, step_with_id c b = Done s) ->
  exists p, both_steps c x = Done p.
Proof.
  intros Hids [s1 H1] [s2 H2]. unfold both_steps, issue_step_ids.
  rewrite Hids. cbn [and_then unpack_pair fst snd]. rewrite H1, H2. cbn [and_then]. eauto.
Qed.

Lemma enhance_single c x a :
  step_ids x = Some [a] ->
  (exists s, step_with_id c a = Done s) -> exists s, first_step c x = Done s.
Proof.
  intros Hids [s H]. unfold first_step, issue_step_ids.
  rewrite Hids. cbn [and_then]. rewrite py_index_head. cbn [lift and_then].
  rewrite H. eauto.
Qed.

Lemma generate_suggestions_from_total c issues acc :
  (forall x, In x issues -> exists e, enhance c x = Done e) ->
  exists out, generate_suggestions_from c issues acc = Done out.
Proof.
  revert acc. induction issues as [|x issues IH]; intros acc H; cbn [generate_suggestions_from].
  - eauto.
  - destruct (H x (or_introl eq_refl)) as [e ->]. cbn [and_then].
    apply IH. intros; apply H; right; assumption.
Qed.

Section EngineAfterAnalysis.

Variable nlp : string -> list Token.

Lemma enhance_analysis_issue c issues x :
  chain_invariant c -> analyze_chain nlp c = Ok issues -> In x issues ->
  exists e, enhance c x = Done e.
Proof.
  intros [Hids Hres] Han Hx.
  apply analyze_chain_parts in Han as (circ & contra & emo & Hc & Hk & He & ->).
  rewrite !in_app_iff in Hx. destruct Hx as [H | [H | [H | [H | H]]]].
  - apply find_unsupported_claims_type in H. unfold enhance, suggestion_handlers.
    cbn [lookup_handler]. destruct H as [-> | [-> | ->]]; cbn; eauto.
  - destruct (find_circular_reasoning_shape nlp c) as (circ' & Hc' & HF).
    rewrite Hc in Hc'. injection Hc' as <-.
    rewrite Forall_forall in HF. apply list_elem_of_In, HF in H.
    destruct H as (Hty & _ & _ & _ & a & b & Hab & Ha & Hlt & Hb).
    unfold enhance, suggestion_handlers. cbn [lookup_handler]. rewrite Hty. cbn.
    unfold suggest_for_circular_reasoning.
    destruct (enhance_pair c x a b Hab) as [p ->];
      [apply step_with_id_found; [exact Hids | lia]
      |apply step_with_id_found; [exact Hids | lia] |].
    cbn [and_then]. eauto.
  - apply find_hasty_generalizations_members in H as (s & conf & Hs & -> & _).
    unfold enhance, suggestion_handlers. cbn [lookup_handler]. cbn.
    unfold suggest_for_hasty_generalization.
    destruct (enhance_single c (hasty_generalization s conf) (step_id s) eq_refl) as [s' ->].
    { apply step_with_id_found; [exact Hids|]. apply ids_in_order_bound; assumption. }
    cbn [and_then]. eauto.
  - destruct (find_contradictions_spec c Hres) as (contra' & Hk' & HF).
    rewrite Hk in Hk'. injection Hk' as <-.
    assert (HP : exists r, projects c r x).
    { clear Hk. induction HF as [|r y rs ys Hp _ IH]; [contradiction|].
      destruct H as [<- | H]; [eauto | apply IH, H]. }
    destruct HP as (r & Hty & _ & Hids' & s1 & s2 & H1 & H2 & _).
    unfold enhance, suggestion_handlers. cbn [lookup_handler]. rewrite Hty. cbn.
    unfold suggest_for_contradiction.
    destruct (enhance_pair c x _ _ Hids') as [p ->];
      [apply step_with_id_resolved; rewrite H1; eauto
      |apply step_with_id_resolved; rewrite H2; eauto |].
    cbn [and_then]. eauto.
  - destruct (find_emotional_reasoning_members c emo x He H)
      as (j & s & Hj & Hty & Hids' & _).
    unfold enhance, suggestion_handlers. cbn [lookup_handler]. rewrite Hty. cbn.
    unfold suggest_for_emotional_reasoning.
    destruct (enhance_single c x _ Hids') as [s' ->].
    { apply step_with_id_found; [exact Hids|]. apply lookup_lt_Some in Hj.
      unfold len. lia. }
    cbn [and_then]. eauto.
Qed.

End EngineAfterAnalysis.

(** X19. On a chain that satisfies the data-model invariants, the issues
    returned by the analysis are always accepted by
    [generate_suggestions]: every step id that a circular-reasoning,
    hasty-generalization, contradiction or emotional-reasoning issue
    carries names a step of the chain, so no handler raises. *)
Theorem generate_suggestions_after_analysis (nlp : string -> list Token)
    (c : ReasoningChain) (issues : list Issue) :
  chain_invariant c ->
  analyze_chain nlp c = Ok issues ->
  exists out,
    generate_suggestions c issues = Done out
    /\ Forall2 same_but_suggestions issues out.
Proof.
  intros Hinv Han.
  destruct (generate_suggestions_from_total c issues []) as [out E].
  { intros x Hx. eapply enhance_analysis_issue; eassumption. }
  exists out. split; [exact E|].
  apply generate_suggestions_from_spec in E as (new & -> & HF). exact HF.
Qed.

Lemma generate_suggestions_after_analysis_witness :
  exists out,
    generate_suggestions (parse_text simple_nlp "Cats never sleep")
      [potential_assumption (mkStep 1 "Cats never sleep" PREMISE 1 []) (9 # 10);
       hasty_generalization (mkStep 1 "Cats never sleep" PREMISE 1 []) (8 # 10);
       hasty_generalization (mkStep 1 "Cats never sleep" PREMISE 1 []) (8 # 10)]
    = Done out
    /\ Forall2 same_but_suggestions
         [potential_assumption (mkStep 1 "Cats never sleep" PREMISE 1 []) (9 # 10);
          hasty_generalization (mkStep 1 "Cats never sleep" PREMISE 1 []) (8 # 10);
          hasty_generalization (mkStep 1 "Cats never sleep" PREMISE 1 []) (8 # 10)]
         out.
Proof.
  apply (generate_suggestions_after_analysis simple_nlp
           (parse_text simple_nlp "Cats never sleep")).
  - split; [reflexivity | intros r []].
  - vm_compute. reflexivity.
Defined.

Lemma generate_suggestions_from_fails c issues acc x :
  In x issues -> (exists e, enhance c x = Failed e) ->
  exists e, generate_suggestions_from c issues acc = Failed e.
Proof.
  intros Hin Hx. revert acc. induction issues as [|y issues IH]; intros acc; [contradiction|].
  cbn [generate_suggestions_from].
  destruct (enhance c y) as [e|e] eqn:E; cbn [and_then]; [|eauto].
  destruct Hin as [-> | Hin]; [|apply IH, Hin].
  destruct Hx as [e' He']. congruence.
Qed.

(** X20. An issue whose tag has a handler but which has no [step_ids] key
    makes its handler raise KeyError, and then [generate_suggestions]
    raises on every list that contains it: nothing is returned for the
    other issues either. *)
Theorem generate_suggestions_missing_step_ids (c : ReasoningChain)
    (issues : list Issue) (x : Issue) :
  In x issues ->
  In (issue_type x) handled_types ->
  step_ids x = None ->
  enhance c x = Failed KeyError
  /\ exists e, generate_suggestions c issues = Failed e.
Proof.
  intros Hin Hty Hids.
  assert (E : enhance c x = Failed KeyError).
  { unfold enhance, suggestion_handlers, handled_types in *.
    cbn [lookup_handler map fst In] in *.
    repeat destruct Hty as [<- | Hty]; try contradiction; cbn;
      unfold suggest_for_unsupported_claim, suggest_for_circular_reasoning,
        suggest_for_hasty_generalization, suggest_for_contradiction,
        suggest_for_emotional_reasoning, first_step, both_steps, issue_step_ids;
      rewrite Hids; reflexivity. }
  split; [exact E|].
  eapply generate_suggestions_from_fails; [exact Hin | eauto].
Qed.

Lemma generate_suggestions_missing_step_ids_witness :
  enhance (mkChain [mkStep 1 "So whales float" CONCLUSION 1 []] [])
    (mkIssue "unsupported_claim" "This conclusion might benefit from more support"
       None None None "low" None None) = Failed KeyError
  /\ exists e,
       generate_suggestions (mkChain [mkStep 1 "So whales float" CONCLUSION 1 []] [])
         [planning_analysis;
          mkIssue "unsupported_claim" "This conclusion might benefit from more support"
            None None None "low" None None] = Failed e.
Proof.
  apply (generate_suggestions_missing_step_ids
           (mkChain [mkStep 1 "So whales float" CONCLUSION 1 []] [])
           [planning_analysis;
            mkIssue "unsupported_claim" "This conclusion might benefit from more support"
              None None None "low" None None]).
  - right. left. reflexivity.
  - left. reflexivity.
  - reflexivity.
Defined.

(** ** The display of the analysis *)

Lemma group_add_members {K V} (eqb : K -> K -> bool) k (v : V) groups x :
  In x (concat (map snd (group_add eqb k v groups)))
  <-> In x (concat (map snd groups)) \/ x = v.
Proof.
  induction groups as [|[k' vs] rest IH]; cbn [group_add].
  - cbn. intuition congruence.
  - destruct (eqb k k'); cbn [map snd concat]; rewrite !in_app_iff.
    + cbn [In]. intuition congruence.
    + rewrite IH. tauto.
Qed.

Lemma group_by_members {K V} (eqb : K -> K -> bool) (key : V -> K) l x :
  In x (concat (map snd (group_by eqb key l))) <-> In x l.
Proof.
  unfold group_by.
  assert (H : forall groups,
             In x (concat (map snd (fold_left
                                      (fun groups v => group_add eqb (key v) v groups)
                                      l groups)))
             <-> In x (concat (map snd groups)) \/ In x l).
  { induction l as [|v l IH]; intros groups; cbn [fold_left In].
    - tauto.
    - rewrite IH, group_add_members. intuition congruence. }
  rewrite H. cbn. tauto.
Qed.

Lemma group_by_group {K V} (eqb : K -> K -> bool) (key : V -> K) l x :
  In x l <-> exists group, In group (group_by eqb key l) /\ In x (snd group).
Proof.
  rewrite <- (group_by_members eqb key), in_concat. split.
  - intros (vs & Hvs & Hx). apply in_map_iff in Hvs as (group & <- & Hg). eauto.
  - intros (group & Hg & Hx). exists (snd group). split; [|exact Hx].
    apply in_map, Hg.
Qed.

Lemma group_add_inhabited {K V} (eqb : K -> K -> bool) k (v : V) groups :
  Forall (fun group => snd group <> []) groups ->
  group_add eqb k v groups <> []
  /\ Forall (fun group => snd group <> []) (group_add eqb k v groups).
Proof.
  induction groups as [|[k' vs] rest IH]; cbn [group_add]; intros HF.
  - split; [discriminate|]. constructor; [discriminate | constructor].
  - inversion HF as [|? ? Hvs Hrest]; subst. destruct (eqb k k').
    + split; [discriminate|]. constructor; [|exact Hrest].
      cbn. destruct vs; discriminate.
    + split; [discriminate|]. constructor; [exact Hvs | apply IH, Hrest].
Qed.

Lemma group_by_inhabited {K V} (eqb : K -> K -> bool) (key : V -> K) l :
  (l <> [] -> group_by eqb key l <> [])
  /\ Forall (fun group => snd group <> []) (group_by eqb key l).
Proof.
  unfold group_by.
  assert (H : forall groups,
             Forall (fun group : K * list V => snd group <> []) groups ->
             (l <> [] \/ groups <> [] ->
              fold_left (fun groups v => group_add eqb (key v) v groups) l groups <> [])
             /\ Forall (fun group => snd group <> [])
                  (fold_left (fun groups v => group_add eqb (key v) v groups) l groups)).
  { induction l as [|v l IH]; intros groups HF; cbn [fold_left].
    - split; [intros [H | H]; [contradiction | exact H] | exact HF].
    - destruct (group_add_inhabited eqb (key v) v groups HF) as [Hne HF'].
      destruct (IH _ HF') as [H1 H2]. split; [intros _; apply H1; right; exact Hne | exact H2]. }
  destruct (H [] (List.Forall_nil _)) as [H1 H2]. split; [|exact H2].
  intros Hl. apply H1. left. exact Hl.
Qed.

Lemma group_by_one_key {K V} (eqb : K -> K -> bool) (key : V -> K) k l :
  eqb k k = true -> (forall x, In x l -> key x = k) ->
  (List.length (group_by eqb key l) <= 1)%nat.
Proof.
  intros Hk Hl. unfold group_by.
  assert (H : forall l vs,
             (forall x, In x l -> key x = k) ->
             fold_left (fun groups v => group_add eqb (key v) v groups) l [(k, vs)]
             = [(k, vs ++ l)]).
  { clear l Hl. induction l as [|v l IH]; intros vs Hl; cbn [fold_left].
    - rewrite app_nil_r. reflexivity.
    - rewrite (Hl v (or_introl eq_refl)). cbn [group_add]. rewrite Hk.
      rewrite IH by (intros; apply Hl; right; assumption).
      rewrite <- app_assoc. reflexivity. }
  destruct l as [|v l]; [cbn; lia|].
  cbn [fold_left group_add]. rewrite (Hl v (or_introl eq_refl)).
  rewrite H by (intros; apply Hl; right; assumption). cbn. lia.
Qed.

Lemma print_each_In {A} (body : printer A) displayed l x line :
  In x l -> (forall d, In line (fst (body d x))) ->
  In line (fst (print_each body displayed l)).
Proof.
  intros Hx Hline. revert displayed. induction l as [|y l IH]; intros d; [contradiction|].
  cbn [print_each]. destruct (body d y) as [out d'] eqn:E.
  destruct (print_each body d' l) as [out' d''] eqn:E'. cbn [fst].
  apply in_or_app. destruct Hx as [-> | Hx].
  - left. specialize (Hline d). rewrite E in Hline. exact Hline.
  - right. specialize (IH Hx d'). rewrite E' in IH. exact IH.
Qed.

Lemma print_each_Forall {A} (P : string -> Prop) (body : printer A) displayed l :
  (forall d x, In x l -> Forall P (fst (body d x))) ->
  Forall P (fst (print_each body displayed l)).
Proof.
  revert displayed. induction l as [|y l IH]; intros d H; cbn [print_each].
  - constructor.
  - pose proof (H d y (or_introl eq_refl)) as Hy.
    destruct (body d y) as [out d'] eqn:E.
    specialize (IH d' (fun d0 x Hx => H d0 x (or_intror Hx))).
    destruct (print_each body d' l) as [out' d''] eqn:E'. cbn [fst] in *.
    apply Forall_app. split; assumption.
Qed.

Ltac inner_line := unfold inner; cbn; intros [= H]; vm_compute in H; discriminate H.

Lemma severity_title_inner sev : inner (severity_title sev).
Proof.
  unfold severity_title. repeat (destruct (String.eqb sev _); [inner_line|]). inner_line.
Qed.

Lemma show_issue_inner d x : Forall inner (fst (show_issue d x)).
Proof.
  unfold show_issue. cbv zeta.
  assert (Hb : inner (bullet (punctuate (strip (description x))))) by inner_line.
  destruct (suggestions x) as [[|t texts]|]; cbn [fst];
    [constructor; [exact Hb | constructor] | | constructor; [exact Hb | constructor]].
  destruct (fold_left keep_unique (t :: texts) ([], d)) as [unique d'].
  destruct (is_nil unique); cbn [fst]; [constructor; [exact Hb | constructor]|].
  constructor; [exact Hb|]. cbn [app]. constructor; [inner_line|].
  apply Forall_forall. intros line Hl. apply list_elem_of_In, in_map_iff in Hl as (s & <- & _).
  inner_line.
Qed.

Lemma show_severity_inner d group : Forall inner (fst (show_severity d group)).
Proof.
  unfold show_severity.
  pose proof (print_each_Forall inner show_issue d (snd group)
                (fun d0 x _ => show_issue_inner d0 x)) as H.
  destruct (print_each show_issue d (snd group)) as [out d']. cbn [fst] in *.
  constructor; [apply severity_title_inner | exact H].
Qed.

Lemma show_step_lines n d group :
  Forall (fun line => inner line \/ ((1 < n)%nat /\ line = step_header (fst group)))
         (fst (show_step n d group)).
Proof.
  unfold show_step. destruct (is_nil (snd group)); [constructor|]. cbv zeta.
  pose proof (print_each_Forall inner show_severity d
                (group_by String.eqb severity (snd group))
                (fun d0 x _ => show_severity_inner d0 x)) as H.
  destruct (print_each show_severity d _) as [out d']. cbn [fst] in *.
  apply Forall_app. split.
  - destruct (Z.ltb_spec 1 (Z.of_nat n)); constructor; [|constructor].
    right. split; [lia | reflexivity].
  - eapply Forall_impl; [exact H|]. intros line Hl. left. exact Hl.
Qed.

Lemma issue_lines_lines issues :
  Forall (fun line => inner line
                      \/ ((1 < List.length (step_issues issues))%nat
                          /\ exists n, line = step_header n))
         (fst (issue_lines issues)).
Proof.
  unfold issue_lines. apply print_each_Forall. intros d group _.
  eapply Forall_impl; [apply show_step_lines|].
  intros line [H | [H1 H2]]; [left; exact H | right; eauto].
Qed.

Section DisplayProperties.

Variable wrap : string -> list string.
Variable polarity : string -> Q.

Lemma chain_lines_inner c : Forall inner (chain_lines wrap c).
Proof.
  unfold chain_lines. apply Forall_forall. intros line Hl.
  apply list_elem_of_In, in_flat_map in Hl as ([i s] & _ & Hl).
  apply in_flat_map in Hl as (l & _ & Hl). apply in_map_iff in Hl as (w & <- & _).
  inner_line.
Qed.

Lemma additional_lines_lines c displayed :
  Forall (fun line => inner line \/ line = additional_title)
         (additional_lines polarity c displayed).
Proof.
  unfold additional_lines. rewrite get_suggestions_spec.
  destruct (is_nil _); [constructor|].
  constructor; [right; reflexivity|].
  apply Forall_forall. intros line Hl. apply list_elem_of_In, in_map_iff in Hl as (s & <- & _).
  left. inner_line.
Qed.

Lemma display_analysis_lines c issues sugg line :
  In line (display_analysis wrap polarity c issues sugg) ->
  inner line
  \/ line = chain_title
  \/ line = additional_title
  \/ (issues = [] /\ line = solid_line)
  \/ ((1 < List.length (step_issues issues))%nat /\ exists n, line = step_header n).
Proof.
  unfold display_analysis. pose proof (issue_lines_lines issues) as Hout.
  destruct (issue_lines issues) as [out displayed]. cbn [fst] in Hout.
  cbn [In]. rewrite !in_app_iff. intros [<- | [H | [H | [H | H]]]].
  - right. left. reflexivity.
  - left. pose proof (chain_lines_inner c) as HF. rewrite Forall_forall in HF.
    apply HF, list_elem_of_In, H.
  - rewrite Forall_forall in Hout. apply list_elem_of_In, Hout in H.
    destruct H as [H | H]; [left; exact H | do 4 right; exact H].
  - destruct issues as [|x issues].
    + destruct H as [<- | []]. do 3 right. left. split; reflexivity.
    + exfalso. destruct (group_by_inhabited Z.eqb step_num (x :: issues)) as [Hne HF].
      unfold step_issues in H.
      destruct (group_by Z.eqb step_num (x :: issues)) as [|[k vs] rest];
        [apply Hne; [discriminate | reflexivity]|].
      inversion HF as [|? ? Hvs _]; subst. cbn in Hvs.
      destruct vs; [contradiction|]. cbn in H. exact H.
  - pose proof (additional_lines_lines c displayed) as HF. rewrite Forall_forall in HF.
    apply list_elem_of_In, HF in H. destruct H as [H | H]; [left; exact H | right; right; left; exact H].
Qed.

End DisplayProperties.

Lemma endswith_append s suffix : endswith (s +:+ suffix) suffix = true.
Proof.
  induction s as [|c s IH].
  - change (endswith suffix suffix = true).
    destruct suffix; cbn [endswith]; rewrite String.eqb_refl; reflexivity.
  - change (endswith (String c (s +:+ suffix)) suffix = true).
    cbn [endswith]. rewrite IH. apply orb_true_r.
Qed.

Lemma punctuate_ends s : existsb (endswith (punctuate s)) ["."; "!"; "?"] = true.
Proof.
  unfold punctuate. destruct (existsb (endswith s) _) eqn:E; cbn [negb]; [exact E|].
  cbn [existsb]. rewrite endswith_append. reflexivity.
Qed.

Lemma show_issue_bullet d x :
  In (bullet (punctuate (strip (description x)))) (fst (show_issue d x)).
Proof.
  unfold show_issue. cbv zeta.
  destruct (suggestions x) as [[|t texts]|]; cbn [fst]; [left; reflexivity | | left; reflexivity].
  destruct (fold_left keep_unique (t :: texts) ([], d)) as [unique d'].
  destruct (is_nil unique); cbn [fst]; left; reflexivity.
Qed.

Lemma show_severity_issue d group x :
  In x (snd group) ->
  In (severity_title (fst group)) (fst (show_severity d group))
  /\ In (bullet (punctuate (strip (description x)))) (fst (show_severity d group)).
Proof.
  intros Hx. unfold show_severity.
  pose proof (print_each_In show_issue d (snd group) x _ Hx
                (fun d0 => show_issue_bullet d0 x)) as H.
  destruct (print_each show_issue d (snd group)) as [out d']. cbn [fst] in *.
  split; [left; reflexivity | right; exact H].
Qed.

Lemma group_add_keys {K V} (eqb : K -> K -> bool) (key : V -> K) v groups :
  (forall a b, eqb a b = true -> a = b) ->
  Forall (fun group => Forall (fun x => key x = fst group) (snd group)) groups ->
  Forall (fun group => Forall (fun x => key x = fst group) (snd group))
         (group_add eqb (key v) v groups).
Proof.
  intros Heq. induction groups as [|[k' vs] rest IH]; cbn [group_add]; intros HF.
  - constructor; [|constructor]. cbn. constructor; [reflexivity | constructor].
  - inversion HF as [|? ? Hvs Hrest]; subst. destruct (eqb (key v) k') eqn:E.
    + constructor; [|exact Hrest]. cbn [fst snd] in *. apply Forall_app.
      split; [exact Hvs|]. constructor; [apply Heq, E | constructor].
    + constructor; [exact Hvs | apply IH, Hrest].
Qed.

Lemma group_by_keys {K V} (eqb : K -> K -> bool) (key : V -> K) l group x :
  (forall a b, eqb a b = true -> a = b) ->
  In group (group_by eqb key l) -> In x (snd group) -> key x = fst group.
Proof.
  intros Heq Hg Hx. unfold group_by in Hg.
  assert (H : forall groups,
             Forall (fun group => Forall (fun x => key x = fst group) (snd group)) groups ->
             Forall (fun group => Forall (fun x => key x = fst group) (snd group))
                    (fold_left (fun groups v => group_add eqb (key v) v groups) l groups)).
  { clear Hg. induction l as [|v l IH]; intros groups HF; cbn [fold_left]; [exact HF|].
    apply IH, group_add_keys; [exact Heq | exact HF]. }
  specialize (H [] (List.Forall_nil _)). rewrite Forall_forall in H.
  apply list_elem_of_In, H in Hg. rewrite Forall_forall in Hg.
  apply Hg, list_elem_of_In, Hx.
Qed.

Lemma show_step_issue n d group x :
  In x (snd group) ->
  In (severity_title (severity x)) (fst (show_step n d group))
  /\ In (bullet (punctuate (strip (description x)))) (fst (show_step n d group)).
Proof.
  intros Hx. unfold show_step.
  destruct (snd group) as [|y vs] eqn:E; [contradiction|]. cbn [is_nil]. cbv zeta.
  destruct (proj1 (group_by_group String.eqb severity (y :: vs) x) Hx) as (g & Hg & Hxg).
  assert (Hsev : severity x = fst g).
  { eapply group_by_keys; [|exact Hg | exact Hxg].
    intros a b Hab. apply String.eqb_eq, Hab. }
  pose proof (fun line Hline =>
                print_each_In show_severity d
                  (group_by String.eqb severity (y :: vs)) g line Hg Hline) as H.
  destruct (print_each show_severity d _) as [out d']. cbn [fst] in *.
  split; apply in_or_app; right; apply H; intros d0;
    destruct (show_severity_issue d0 g x Hxg) as [H1 H2];
    [rewrite Hsev; exact H1 | exact H2].
Qed.

(** X21. When no [console.print] raises, [display_analysis] drops no
    issue: for every issue it is given it prints the title of the issue's
    severity and a bullet with the issue's description, trimmed and ending
    in a full stop, an exclamation mark or a question mark. *)
Theorem display_analysis_shows_every_issue (markup_ok : string -> bool)
    (wrap : string -> list string) (polarity : string -> Q) (c : ReasoningChain)
    (issues sugg : list Issue) (out : list string) (x : Issue) :
  printed markup_ok (display_analysis wrap polarity c issues sugg) = Some out ->
  In x issues ->
  In (severity_title (severity x)) out
  /\ In (bullet (punctuate (strip (description x)))) out
  /\ existsb (endswith (punctuate (strip (description x)))) ["."; "!"; "?"] = true.
Proof.
  unfold printed. destruct (forallb markup_ok _); [|discriminate].
  intros [= <-] Hx.
  destruct (proj1 (group_by_group Z.eqb step_num issues x) Hx) as (g & Hg & Hxg).
  unfold display_analysis, issue_lines.
  pose proof (fun line Hline =>
                print_each_In (show_step (List.length (step_issues issues))) ∅
                  (step_issues issues) g line Hg Hline) as H.
  destruct (print_each _ ∅ (step_issues issues)) as [out displayed]. cbn [fst] in H.
  split; [|split; [|apply punctuate_ends]].
  - right. apply in_or_app. right. apply in_or_app. left. apply H. intros d0.
    apply (show_step_issue _ d0 g x Hxg).
  - right. apply in_or_app. right. apply in_or_app. left. apply H. intros d0.
    apply (show_step_issue _ d0 g x Hxg).
Qed.

Lemma display_analysis_shows_every_issue_witness :
  In (severity_title
        (severity (hasty_generalization (mkStep 1 "Cats never sleep" PREMISE 1 []) (8 # 10))))
     (display_analysis (fun s => [s]) neutral_polarity
        (mkChain [mkStep 1 "Cats never sleep" PREMISE 1 []] [])
        [hasty_generalization (mkStep 1 "Cats never sleep" PREMISE 1 []) (8 # 10)] [])
  /\ In (bullet (punctuate (strip (description
           (hasty_generalization (mkStep 1 "Cats never sleep" PREMISE 1 []) (8 # 10))))))
        (display_analysis (fun s => [s]) neutral_polarity
           (mkChain [mkStep 1 "Cats never sleep" PREMISE 1 []] [])
           [hasty_generalization (mkStep 1 "Cats never sleep" PREMISE 1 []) (8 # 10)] [])
  /\ existsb (endswith (punctuate (strip (description
                (hasty_generalization (mkStep 1 "Cats never sleep" PREMISE 1 []) (8 # 10))))))
             ["."; "!"; "?"] = true.
Proof.
  refine (display_analysis_shows_every_issue (closes_open_tags 0) (fun s => [s])
            neutral_polarity
            (mkChain [mkStep 1 "Cats never sleep" PREMISE 1 []] [])
            [hasty_generalization (mkStep 1 "Cats never sleep" PREMISE 1 []) (8 # 10)] []
            _
            (hasty_generalization (mkStep 1 "Cats never sleep" PREMISE 1 []) (8 # 10))
            _ (or_introl eq_refl)).
  vm_compute. reflexivity.
Defined.

(** With the stand-in parser, a step text that holds a closing tag without
    its opening tag makes a [console.print] raise. *)
Lemma printed_stray_closing_tag :
  printed (closes_open_tags 0)
    (display_analysis (fun s => [s]) neutral_polarity
       (mkChain [mkStep 1 "Taxes must fall [/b]" PREMISE 1 []] []) [] []) = None.
Proof. vm_compute. reflexivity. Qed.

(** X22. When no [console.print] raises, the closing line "Your reasoning
    looks solid" is printed exactly when the list of issues is empty.  The
    note that some suggestions could not be generated is never among the
    lines of [display_analysis]: the scorer called inside the [try] block
    does not raise. *)
Theorem display_analysis_verdict (markup_ok : string -> bool)
    (wrap : string -> list string) (polarity : string -> Q) (c : ReasoningChain)
    (issues sugg : list Issue) :
  (forall out,
      printed markup_ok (display_analysis wrap polarity c issues sugg) = Some out ->
      (In solid_line out <-> issues = []))
  /\ forall e, ~ In (failure_note e) (display_analysis wrap polarity c issues sugg).
Proof.
  split.
  - intros out. unfold printed. destruct (forallb markup_ok _); [|discriminate].
    intros [= <-]. split.
    + intros H. apply display_analysis_lines in H.
      destruct H as [H | [H | [H | [[H _] | [_ [n H]]]]]];
        [exfalso; apply H; reflexivity | discriminate H | discriminate H | exact H
        | discriminate H].
    + intros ->. unfold display_analysis. cbn [issue_lines step_issues group_by fold_left
        print_each List.length existsb negb app].
      right. apply in_or_app. right. left. reflexivity.
  - intros e H. apply display_analysis_lines in H.
    destruct H as [H | [H | [H | [[_ H] | [_ [n H]]]]]];
      [apply H; reflexivity | discriminate H | discriminate H | discriminate H
      | discriminate H].
Qed.

Lemma display_analysis_verdict_witness :
  In solid_line
     (display_analysis (fun s => [s]) neutral_polarity
        (mkChain [mkStep 1 "Whales swim in the sea" PREMISE 1 []] []) [] [])
  <-> @nil Issue = [].
Proof.
  refine (proj1 (display_analysis_verdict (closes_open_tags 0) (fun s => [s])
                   neutral_polarity
                   (mkChain [mkStep 1 "Whales swim in the sea" PREMISE 1 []] []) [] [])
            _ _).
  vm_compute. reflexivity.
Defined.

(** X23. The issues that [analyze_chain] returns have no [step] key, so
    [display_analysis] files them all under step 0 and prints no
    "Step n:" header for them, on any chain. *)
Theorem display_analysis_no_step_header (wrap : string -> list string)
    (polarity : string -> Q) (nlp : string -> list Token) (c : ReasoningChain)
    (issues sugg : list Issue) (n : Z) :
  analyze_chain nlp c = Ok issues ->
  ~ In (step_header n) (display_analysis wrap polarity c issues sugg).
Proof.
  intros Han H. apply display_analysis_lines in H.
  destruct H as [H | [H | [H | [[_ H] | [Hlen _]]]]];
    [apply H; reflexivity | discriminate H | discriminate H | discriminate H|].
  assert (Hone : (List.length (step_issues issues) <= 1)%nat).
  { apply (group_by_one_key Z.eqb step_num 0); [reflexivity|].
    intros x Hx. destruct (analyze_chain_issue_shape nlp c issues x Han Hx) as [(_ & Hs & _) _].
    unfold step_num. rewrite Hs. reflexivity. }
  lia.
Qed.

Lemma display_analysis_no_step_header_witness :
  ~ In (step_header 1)
      (display_analysis (fun s => [s]) neutral_polarity
         (parse_text simple_nlp "Cats never sleep")
         [potential_assumption (mkStep 1 "Cats never sleep" PREMISE 1 []) (9 # 10);
          hasty_generalization (mkStep 1 "Cats never sleep" PREMISE 1 []) (8 # 10);
          hasty_generalization (mkStep 1 "Cats never sleep" PREMISE 1 []) (8 # 10)]
         []).
Proof.
  apply (display_analysis_no_step_header (fun s => [s]) neutral_polarity simple_nlp
           (parse_text simple_nlp "Cats never sleep")).
  vm_compute. reflexivity.
Defined.

(** *** The set of displayed suggestions *)

Lemma truthy_spec s : truthy s = true <-> s <> "".
Proof. destruct s; cbn; split; congruence. Qed.

Lemma keep_unique_displayed st a t :
  t ∈ snd (keep_unique st a) <-> t ∈ snd st \/ (t = strip a /\ t <> "").
Proof.
  unfold keep_unique. cbv zeta.
  destruct (truthy (strip a)) eqn:Et; cbn [andb].
  - apply truthy_spec in Et.
    destruct (bool_decide_reflect (strip a ∈ snd st)) as [Hin | Hin]; cbn [negb snd].
    + split; [tauto|]. intros [H | [-> _]]; assumption.
    + rewrite elem_of_union, elem_of_singleton. split; [|tauto].
      intros [H | ->]; [left; exact H | right; split; [reflexivity | exact Et]].
  - split; [tauto|]. intros [H | [-> H]]; [exact H|].
    apply truthy_spec in H. congruence.
Qed.

Lemma fold_keep_unique_displayed texts st t :
  t ∈ snd (fold_left keep_unique texts st)
  <-> t ∈ snd st \/ (In t (map strip texts) /\ t <> "").
Proof.
  revert st. induction texts as [|a texts IH]; intros st; cbn [fold_left map In].
  - tauto.
  - rewrite IH, keep_unique_displayed. intuition congruence.
Qed.

Lemma show_issue_displayed d x t :
  t ∈ snd (show_issue d x) <-> t ∈ d \/ lists x t.
Proof.
  unfold show_issue, lists. cbv zeta.
  destruct (suggestions x) as [[|a texts]|]; cbn [snd].
  - split; [tauto|]. intros [H | (u & [= <-] & [] & _)]. exact H.
  - pose proof (fold_keep_unique_displayed (a :: texts) ([], d) t) as H.
    destruct (fold_left keep_unique (a :: texts) ([], d)) as [unique d'].
    cbn [snd] in H. destruct (is_nil unique); cbn [snd]; rewrite H; split.
    1,3: intros [Hd | Hl]; [left; exact Hd | right; eauto].
    1,2: intros [Hd | (u & [= <-] & Hl)]; [left; exact Hd | right; exact Hl].
  - split; [tauto|]. intros [H | (u & [=] & _)]. exact H.
Qed.

Lemma print_each_displayed {A} (body : printer A) (Q : A -> string -> Prop) :
  (forall d x t, t ∈ snd (body d x) <-> t ∈ d \/ Q x t) ->
  forall l d t,
    t ∈ snd (print_each body d l) <-> t ∈ d \/ exists x, In x l /\ Q x t.
Proof.
  intros Hbody. induction l as [|y l IH]; intros d t; cbn [print_each].
  - cbn [snd]. split; [tauto|]. intros [H | (x & [] & _)]. exact H.
  - pose proof (Hbody d y t) as Hy. destruct (body d y) as [out d'].
    specialize (IH d' t). destruct (print_each body d' l) as [out' d''].
    cbn [snd] in *. rewrite IH, Hy. split.
    + intros [[H | H] | (x & Hx & H)];
        [left; exact H | right; exists y; split; [left; reflexivity | exact H]
        | right; exists x; split; [right; exact Hx | exact H]].
    + intros [H | (x & [<- | Hx] & H)]; [tauto | tauto | right; eauto].
Qed.

Lemma show_severity_displayed d group t :
  t ∈ snd (show_severity d group) <-> t ∈ d \/ exists x, In x (snd group) /\ lists x t.
Proof.
  unfold show_severity.
  pose proof (print_each_displayed show_issue lists show_issue_displayed (snd group) d t) as H.
  destruct (print_each show_issue d (snd group)) as [out d']. exact H.
Qed.

Lemma show_step_displayed n d group t :
  t ∈ snd (show_step n d group) <-> t ∈ d \/ exists x, In x (snd group) /\ lists x t.
Proof.
  unfold show_step. destruct (snd group) as [|y vs] eqn:E; cbn [is_nil snd].
  - split; [tauto|]. intros [H | (x & [] & _)]. exact H.
  - cbv zeta.
    pose proof (print_each_displayed show_severity
                  (fun g t => exists x, In x (snd g) /\ lists x t)
                  show_severity_displayed
                  (group_by String.eqb severity (y :: vs)) d t) as H.
    destruct (print_each show_severity d _) as [out d']. cbn [snd] in *.
    rewrite H. split.
    + intros [Hd | (g & Hg & x & Hx & Hl)]; [left; exact Hd|].
      right. exists x. split; [|exact Hl].
      apply (group_by_group String.eqb severity). eauto.
    + intros [Hd | (x & Hx & Hl)]; [left; exact Hd|].
      apply (group_by_group String.eqb severity) in Hx as (g & Hg & Hx).
      right. exists g. split; [exact Hg | eauto].
Qed.

Lemma issue_lines_displayed issues t :
  t ∈ snd (issue_lines issues) <-> listed issues t.
Proof.
  unfold issue_lines.
  rewrite (print_each_displayed _ (fun g t => exists x, In x (snd g) /\ lists x t)
             (show_step_displayed _)).
  unfold listed. split.
  - intros [H | (g & Hg & x & Hx & Hl)]; [set_solver|].
    exists x. split; [|exact Hl].
    apply (group_by_group Z.eqb step_num). eauto.
  - intros (x & Hx & Hl). right.
    apply (group_by_group Z.eqb step_num) in Hx as (g & Hg & Hx).
    exists g. split; [exact Hg|]. exists x. split; [exact Hx | exact Hl].
Qed.

(** X24. After the issues are shown, [displayed_suggestions] holds exactly
    the trimmed, non-empty texts that the issues list, including those that
    the limit of three per issue kept off the screen.  Every bullet under
    "Additional Suggestions" is therefore a text of the scorer that no issue
    lists. *)
Theorem displayed_suggestions_listed (polarity : string -> Q) (c : ReasoningChain)
    (issues : list Issue) :
  (forall t, t ∈ snd (issue_lines issues) <-> listed issues t)
  /\ exists ml,
       get_suggestions polarity c = Ok ml
       /\ forall line,
            In line (additional_lines polarity c (snd (issue_lines issues))) ->
            line = additional_title
            \/ exists y u s,
                 In y ml /\ suggestions y = Some u /\ In s u
                 /\ ~ listed issues (strip s)
                 /\ line = bullet (punctuate s).
Proof.
  split; [apply issue_lines_displayed|].
  unfold additional_lines. rewrite get_suggestions_spec. eexists. split; [reflexivity|].
  intros line. destruct (is_nil _); [contradiction|].
  intros [<- | H]; [left; reflexivity | right].
  apply in_map_iff in H as (s & <- & H). apply list_elem_of_In, elem_of_take in H as (i & H & _).
  apply list_elem_of_lookup_2, list_elem_of_In in H.
  unfold new_suggestions in H. apply in_flat_map in H as (y & Hy & H).
  destruct (suggestions y) as [u|] eqn:Eu; [|contradiction].
  apply filter_In in H as [Hs Hd]. exists y, u, s.
  split; [exact Hy | split; [exact Eu | split; [exact Hs | split; [|reflexivity]]]].
  rewrite <- issue_lines_displayed. apply negb_true_iff, bool_decide_eq_false in Hd. exact Hd.
Qed.

(** ** The input loop *)

Lemma read_lines_block inputs lines :
  lines <> [] -> read_lines inputs lines = lines ++ leading_block inputs.
Proof.
  revert lines. induction inputs as [|raw rest IH]; intros lines Hl;
    cbn [read_lines leading_block].
  - rewrite app_nil_r. reflexivity.
  - cbv zeta. destruct (truthy (strip raw)); cbn [negb andb].
    + rewrite IH by (destruct lines; discriminate).
      rewrite <- app_assoc. reflexivity.
    + destruct lines; [contradiction|]. cbn [is_nil negb]. rewrite app_nil_r. reflexivity.
Qed.

Lemma read_lines_first_block inputs :
  read_lines inputs [] = leading_block (skip_blank inputs).
Proof.
  induction inputs as [|raw rest IH]; cbn [read_lines skip_blank]; [reflexivity|].
  cbv zeta. destruct (truthy (strip raw)) eqn:E; cbn [negb andb is_nil].
  - rewrite read_lines_block by discriminate. cbn [leading_block app]. rewrite E. reflexivity.
  - exact IH.
Qed.

Lemma split_on_whole sep s : mem_char sep s = false -> split_on sep s = [s].
Proof.
  induction s as [|c s IH]; cbn [mem_char split_on]; [reflexivity|].
  intros H. apply orb_false_iff in H as [Hc Hs].
  rewrite Ascii.eqb_sym in Hc. rewrite Hc, (IH Hs). reflexivity.
Qed.

Lemma split_on_append sep a b :
  mem_char sep a = false ->
  split_on sep (String.append a (String sep b)) = a :: split_on sep b.
Proof.
  induction a as [|c a IH]; intros H.
  - change (split_on sep (String sep b) = "" :: split_on sep b).
    cbn [split_on]. rewrite Ascii.eqb_refl. reflexivity.
  - change (split_on sep (String c (String.append a (String sep b)))
            = String c a :: split_on sep b).
    cbn [mem_char] in H. apply orb_false_iff in H as [Hc Ha].
    cbn [split_on]. rewrite Ascii.eqb_sym, Hc, (IH Ha). reflexivity.
Qed.

Lemma split_on_join sep lines :
  lines <> [] -> Forall (fun line => mem_char sep line = false) lines ->
  split_on sep (join (String sep "") lines) = lines.
Proof.
  induction lines as [|p rest IH]; intros Hne HF; [contradiction|].
  inversion HF as [|? ? Hp Hrest]; subst. destruct rest as [|q rest].
  - cbn [join]. apply split_on_whole, Hp.
  - change (split_on sep (String.append p (String sep (join (String sep "") (q :: rest))))
            = p :: q :: rest).
    rewrite split_on_append by exact Hp. rewrite IH; [reflexivity | discriminate | exact Hrest].
Qed.

Lemma leading_block_no_newline inputs :
  Forall (fun raw => mem_char newline raw = false) inputs ->
  Forall (fun line => mem_char newline line = false) (leading_block inputs).
Proof.
  induction 1 as [|raw rest Hraw _ IH]; cbn [leading_block]; [constructor|].
  destruct (truthy (strip raw)); constructor; [|exact IH].
  destruct (mem_char newline (strip raw)) eqn:E; [|reflexivity].
  apply strip_mem in E. congruence.
Qed.

Lemma skip_blank_Forall (P : string -> Prop) inputs :
  Forall P inputs -> Forall P (skip_blank inputs).
Proof.
  induction 1 as [|raw rest Hraw Hrest IH]; cbn [skip_blank]; [constructor|].
  destruct (truthy (strip raw)); [constructor; assumption | exact IH].
Qed.

(** X25. The input loop of [main] keeps the first block of non-blank
    lines, trimmed: it skips the blank lines before it and stops at the
    first blank line after it.  As [input] returns lines without a line
    feed, the text handed to the parser splits back into these lines, so
    the steps of the parsed chain are these lines, normalized, without
    those that normalize to nothing. *)
Theorem main_parses_first_block (nlp : string -> list Token) (inputs : list string) :
  Forall (fun raw => mem_char newline raw = false) inputs ->
  read_lines inputs [] = leading_block (skip_blank inputs)
  /\ map text (steps (parse_text nlp (input_text inputs)))
     = List.filter truthy (map normalize_line (read_lines inputs [])).
Proof.
  intros HF. split; [apply read_lines_first_block|].
  rewrite parse_text_texts. unfold surviving_lines, input_text.
  destruct (read_lines inputs []) as [|p rest] eqn:E; [reflexivity|].
  rewrite split_on_join; [reflexivity | discriminate|].
  rewrite <- E, read_lines_first_block.
  apply leading_block_no_newline, skip_blank_Forall, HF.
Qed.

Lemma main_parses_first_block_witness :
  read_lines [" "; "1. Whales swim "; "2."; "So they float"; ""; "later"] []
  = leading_block (skip_blank [" "; "1. Whales swim "; "2."; "So they float"; ""; "later"])
  /\ map text (steps (parse_text simple_nlp
                        (input_text [" "; "1. Whales swim "; "2."; "So they float"; "";
                                     "later"])))
     = List.filter truthy
         (map normalize_line
            (read_lines [" "; "1. Whales swim "; "2."; "So they float"; ""; "later"] [])).
Proof.
  apply (main_parses_first_block simple_nlp
           [" "; "1. Whales swim "; "2."; "So they float"; ""; "later"]).
  repeat constructor.
Defined.

(** ** Segmentation against the wording of the specification *)

Lemma append_cons c a b : String c a +:+ b = String c (a +:+ b).
Proof. reflexivity. Qed.

Lemma append_nil b : "" +:+ b = b.
Proof. reflexivity. Qed.

Lemma append_empty a : a +:+ "" = a.
Proof. induction a as [|c a IH]; [reflexivity|]. rewrite append_cons, IH. reflexivity. Qed.

Lemma append_length a b :
  String.length (a +:+ b) = (String.length a + String.length b)%nat.
Proof.
  induction a as [|c a IH]; [reflexivity|]. rewrite append_cons. cbn [String.length].
  rewrite IH. reflexivity.
Qed.

Lemma lstrip_by_skip p l s :
  all_chars p l = true -> lstrip_by p (l +:+ s) = lstrip_by p s.
Proof.
  induction l as [|c l IH]; cbn [all_chars]; [reflexivity|].
  intros H. apply andb_true_iff in H as [Hc Hl].
  rewrite append_cons. cbn [lstrip_by]. rewrite Hc. apply IH, Hl.
Qed.

Lemma lstrip_by_stop p s :
  (forall c, first_char s = Some c -> p c = false) -> lstrip_by p s = s.
Proof.
  destruct s as [|c s]; cbn [lstrip_by first_char]; [reflexivity|].
  intros H. rewrite (H c eq_refl). reflexivity.
Qed.

Lemma lstrip_by_all p s : all_chars p s = true -> lstrip_by p s = "".
Proof.
  induction s as [|c s IH]; cbn [all_chars lstrip_by]; [reflexivity|].
  intros H. apply andb_true_iff in H as [-> Hs]. apply IH, Hs.
Qed.

Lemma lstrip_by_parts p s :
  exists l, s = l +:+ lstrip_by p s /\ all_chars p l = true.
Proof.
  induction s as [|c s (l & E & Hl)]; cbn [lstrip_by]; [exists ""; split; reflexivity|].
  destruct (p c) eqn:Ec.
  - exists (String c l). rewrite append_cons, <- E. cbn [all_chars]. rewrite Ec, Hl.
    split; reflexivity.
  - exists "". split; reflexivity.
Qed.

Lemma rstrip_by_all p s : all_chars p s = true -> rstrip_by p s = "".
Proof.
  induction s as [|c s IH]; cbn [all_chars rstrip_by]; [reflexivity|].
  intros H. apply andb_true_iff in H as [Hc Hs]. rewrite (IH Hs), Hc. reflexivity.
Qed.

Lemma rstrip_by_keep p out r :
  (forall c, last_char out = Some c -> p c = false) ->
  all_chars p r = true -> rstrip_by p (out +:+ r) = out.
Proof.
  intros Hlast Hr. induction out as [|c out IH].
  - rewrite append_nil. apply rstrip_by_all, Hr.
  - rewrite append_cons. cbn [rstrip_by]. cbv zeta. destruct out as [|d out].
    + rewrite append_nil, (rstrip_by_all p r Hr), (Hlast c eq_refl). reflexivity.
    + rewrite IH by (intros a Ha; apply Hlast; exact Ha).
      rewrite andb_false_r. reflexivity.
Qed.

Lemma rstrip_by_parts p s :
  exists r, s = rstrip_by p s +:+ r /\ all_chars p r = true.
Proof.
  induction s as [|c s (r & E & Hr)]; cbn [rstrip_by]; [exists ""; split; reflexivity|].
  cbv zeta. destruct (p c && is_empty (rstrip_by p s)) eqn:Ec.
  - apply andb_true_iff in Ec as [Hc He].
    destruct (rstrip_by p s); [|discriminate]. rewrite append_nil in E. subst r.
    exists (String c s). rewrite append_nil. cbn [all_chars]. rewrite Hc, Hr.
    split; reflexivity.
  - exists r. rewrite append_cons, <- E. split; [reflexivity | exact Hr].
Qed.

Lemma strip_trims s : trims_to s (strip s).
Proof.
  unfold strip. destruct (lstrip_by_parts is_space s) as (l & El & Hl).
  destruct (rstrip_by_parts is_space (lstrip_by is_space s)) as (r & Er & Hr).
  exists l, r. split; [rewrite <- Er; exact El|].
  split; [exact Hl | split; [exact Hr | apply strip_tidy_ends]].
Qed.

Lemma trims_to_strip s out : trims_to s out -> out = strip s.
Proof.
  intros (l & r & -> & Hl & Hr & Hfirst & Hlast). unfold strip.
  rewrite (lstrip_by_skip _ _ _ Hl). destruct out as [|c out].
  - rewrite append_nil, (lstrip_by_all _ _ Hr). reflexivity.
  - rewrite (lstrip_by_stop is_space (String c out +:+ r))
      by (rewrite append_cons; intros a [= <-]; apply Hfirst; reflexivity).
    symmetry. apply rstrip_by_keep; assumption.
Qed.

Lemma digit_no_space c : is_digit c = true -> is_space c = false.
Proof.
  unfold is_digit, is_space. cbv zeta. intros H.
  apply andb_true_iff in H as [H1 H2]. apply Nat.leb_le in H1.
  apply orb_false_iff. split; apply andb_false_iff.
  - right. apply Nat.leb_gt. lia.
  - right. apply Nat.leb_gt. lia.
Qed.

Lemma marker_no_digit m : m = "."%char \/ m = ")"%char -> is_digit m = false.
Proof. intros [-> | ->]; reflexivity. Qed.

Lemma marked_sub_leading_ordinal s rest :
  marked s rest -> sub_leading_ordinal s = rest.
Proof.
  intros (ws & digits & m & ws' & -> & Hws & Hne & Hd & Hm & Hws' & Hrest).
  unfold sub_leading_ordinal. cbv zeta.
  rewrite (lstrip_by_skip _ _ _ Hws).
  destruct digits as [|d digits]; [contradiction|].
  cbn [all_chars] in Hd. apply andb_true_iff in Hd as [Hd Hds].
  rewrite (lstrip_by_stop is_space (String d digits +:+ _))
    by (rewrite append_cons; intros a [= <-]; apply digit_no_space, Hd).
  rewrite (lstrip_by_skip is_digit (String d digits))
    by (cbn [all_chars]; rewrite Hd, Hds; reflexivity).
  cbn [lstrip_by]. rewrite (marker_no_digit m Hm).
  rewrite append_length. cbn [String.length].
  destruct (Nat.ltb_spec
              (S (String.length (ws' +:+ rest)))
              (S (String.length digits) + S (String.length (ws' +:+ rest)))); [|lia].
  assert (Em : Ascii.eqb m "." || Ascii.eqb m ")" = true)
    by (destruct Hm as [-> | ->]; reflexivity).
  rewrite Em, (lstrip_by_skip _ _ _ Hws'). apply lstrip_by_stop, Hrest.
Qed.

Lemma sub_leading_ordinal_cases s :
  sub_leading_ordinal s = s \/ marked s (sub_leading_ordinal s).
Proof.
  unfold sub_leading_ordinal. cbv zeta.
  destruct (lstrip_by_parts is_space s) as (ws & Ews & Hws).
  destruct (lstrip_by_parts is_digit (lstrip_by is_space s)) as (digits & Ed & Hd).
  destruct (Nat.ltb_spec (String.length (lstrip_by is_digit (lstrip_by is_space s)))
              (String.length (lstrip_by is_space s))) as [Hlt | _]; [|left; reflexivity].
  destruct (lstrip_by is_digit (lstrip_by is_space s)) as [|m r] eqn:E2; [left; reflexivity|].
  destruct (Ascii.eqb m "." || Ascii.eqb m ")") eqn:Em; [right | left; reflexivity].
  destruct (lstrip_by_parts is_space r) as (ws' & Er & Hws').
  exists ws, digits, m, ws'. split; [rewrite <- Er, <- Ed; exact Ews|].
  split; [exact Hws|]. split.
  - intros ->. rewrite append_nil in Ed. rewrite Ed in Hlt. lia.
  - split; [exact Hd|]. split.
    + apply orb_true_iff in Em as [Em | Em]; apply Ascii.eqb_eq in Em; auto.
    + split; [exact Hws'|]. intros c Hc. eapply lstrip_by_first, Hc.
Qed.

Lemma marked_shorter s rest :
  marked s rest -> (String.length rest < String.length s)%nat.
Proof.
  intros (ws & digits & m & ws' & -> & _ & Hne & _).
  rewrite !append_length. cbn [String.length]. rewrite append_length. lia.
Qed.

Lemma sub_leading_ordinal_strips s : strips_to s (sub_leading_ordinal s).
Proof.
  destruct (sub_leading_ordinal_cases s) as [E | H]; [right | left; exact H].
  split; [|exact E]. intros rest Hm. pose proof (marked_shorter _ _ Hm) as Hlen.
  apply marked_sub_leading_ordinal in Hm. rewrite E in Hm. subst rest. lia.
Qed.

Lemma strips_to_sub_leading_ordinal s out :
  strips_to s out -> out = sub_leading_ordinal s.
Proof.
  intros [H | [Hno ->]]; [symmetry; apply marked_sub_leading_ordinal, H|].
  destruct (sub_leading_ordinal_cases s) as [E | H]; [symmetry; exact E|].
  exfalso. eapply Hno, H.
Qed.

Lemma normalize_line_normalizes line : normalizes line (normalize_line line).
Proof.
  exists (strip line), (sub_leading_ordinal (strip line)).
  split; [apply strip_trims | split; [apply sub_leading_ordinal_strips | apply strip_trims]].
Qed.

Lemma normalizes_normalize_line line out :
  normalizes line out -> out = normalize_line line.
Proof.
  intros (a & b & Ha & Hb & Hout). apply trims_to_strip in Ha. subst a.
  apply strips_to_sub_leading_ordinal in Hb. subst b.
  apply trims_to_strip in Hout. exact Hout.
Qed.

Lemma survivors_filter ls outs :
  survivors ls outs -> outs = List.filter truthy (map normalize_line ls).
Proof.
  induction 1 as [|line out ls outs Hn Hne _ IH|line ls outs Hn _ IH];
    cbn [map List.filter]; [reflexivity| |].
  - apply normalizes_normalize_line in Hn. subst out.
    destruct (normalize_line line); [contradiction|]. cbn [truthy is_empty negb].
    rewrite IH. reflexivity.
  - apply normalizes_normalize_line in Hn. rewrite <- Hn. exact IH.
Qed.

Lemma survivors_total ls : exists outs, survivors ls outs.
Proof.
  induction ls as [|line ls [outs IH]]; [exists []; constructor|].
  pose proof (normalize_line_normalizes line) as Hn.
  destruct (normalize_line line) as [|c out] eqn:E.
  - exists outs. apply survivors_drop; assumption.
  - exists (String c out :: outs). apply survivors_keep; [exact Hn | discriminate | exact IH].
Qed.

Lemma split_on_inhabited sep s : split_on sep s <> [].
Proof.
  induction s as [|c s IH]; cbn [split_on]; [discriminate|].
  destruct (Ascii.eqb c sep); [discriminate|].
  destruct (split_on sep s); [contradiction | discriminate].
Qed.

Lemma join_cons_first sep c pieces :
  pieces <> [] -> join sep (cons_first c pieces) = String c (join sep pieces).
Proof.
  destruct pieces as [|h [|h' rest]]; [contradiction | reflexivity | reflexivity].
Qed.

Lemma join_split_on sep s : join (String sep "") (split_on sep s) = s.
Proof.
  induction s as [|c s IH]; cbn [split_on]; [reflexivity|].
  destruct (Ascii.eqb_spec c sep) as [-> | _].
  - pose proof (split_on_inhabited sep s) as Hne.
    destruct (split_on sep s) as [|h rest] eqn:E; [contradiction|].
    change (join (String sep "") ("" :: h :: rest))
      with ("" +:+ String sep "" +:+ join (String sep "") (h :: rest)).
    rewrite IH. reflexivity.
  - rewrite join_cons_first by apply split_on_inhabited. rewrite IH. reflexivity.
Qed.

Lemma lines_of_split_on t : lines_of t (split_on newline t).
Proof.
  split; [symmetry; apply join_split_on|]. split; [apply split_on_inhabited|].
  apply Forall_forall. intros l Hl. eapply split_on_pieces, list_elem_of_In, Hl.
Qed.

Lemma lines_of_unique t ls : lines_of t ls -> split_on newline t = ls.
Proof. intros (-> & Hne & HF). apply split_on_join; assumption. Qed.

(** C1. Every input text has lines, and these lines have survivors: the
    lines that remain non-blank after trimming, stripping a leading ordinal
    marker (digits followed by "." or ")", with the whitespace around it)
    and trimming.  The steps of [parse_text] are exactly these survivors,
    in input order, and their ids are exactly 1..n in that order. *)
Theorem parse_text_segmentation (nlp : string -> list Token) (t : string) :
  (exists ls outs, lines_of t ls /\ survivors ls outs)
  /\ forall ls outs,
       lines_of t ls -> survivors ls outs ->
       map text (steps (parse_text nlp t)) = outs
       /\ map step_id (steps (parse_text nlp t))
          = map Z.of_nat (seq 1 (List.length outs)).
Proof.
  split.
  - destruct (survivors_total (split_on newline t)) as [outs H].
    exists (split_on newline t), outs. split; [apply lines_of_split_on | exact H].
  - intros ls outs Hls Hs. apply lines_of_unique in Hls. apply survivors_filter in Hs.
    rewrite parse_text_texts, parse_text_ids. unfold surviving_lines.
    rewrite Hls, <- Hs. split; reflexivity.
Qed.

Lemma marked_first s rest :
  marked s rest ->
  exists c, first_char s = Some c /\ (is_space c = true \/ is_digit c = true).
Proof.
  intros (ws & digits & m & ws' & -> & Hws & Hne & Hd & _).
  destruct ws as [|c ws].
  - destruct digits as [|d digits]; [contradiction|].
    cbn [all_chars] in Hd. apply andb_true_iff in Hd as [Hd _].
    exists d. split; [reflexivity | right; exact Hd].
  - cbn [all_chars] in Hws. apply andb_true_iff in Hws as [Hc _].
    exists c. split; [reflexivity | left; exact Hc].
Qed.

(** A line whose first character is neither whitespace nor a digit, or
    that is empty, has no ordinal marker. *)
Lemma unmarked_by_first s :
  (forall c, first_char s = Some c -> is_space c = false /\ is_digit c = false) ->
  strips_to s s.
Proof.
  intros H. right. split; [|reflexivity]. intros rest Hm.
  apply marked_first in Hm as (c & Hc & Hsd). destruct (H c Hc) as [Hs Hd].
  destruct Hsd; congruence.
Qed.

Ltac ends_by_computation :=
  split; intros ? Hend; vm_compute in Hend;
  first [discriminate Hend | injection Hend as <-; reflexivity].

Ltac trims_with l r :=
  exists l, r; split; [reflexivity|]; split; [reflexivity|]; split; [reflexivity|];
  ends_by_computation.

Ltac marked_with ws digits m ws' :=
  left; exists ws, digits, m, ws';
  split; [reflexivity|]; split; [reflexivity|]; split; [discriminate|];
  split; [reflexivity|]; split; [first [left; reflexivity | right; reflexivity]|];
  split; [reflexivity|];
  intros ? Hend; vm_compute in Hend;
  first [discriminate Hend | injection Hend as <-; reflexivity].

Ltac unmarked :=
  apply unmarked_by_first; intros ? Hend; vm_compute in Hend;
  first [discriminate Hend | injection Hend as <-; split; reflexivity].

Lemma parse_text_segmentation_witness :
  map text
      (steps (parse_text simple_nlp
                (unlines ["1. First step"; ""; "  2) Second step "; "Third"; "3."])))
  = ["First step"; "Second step"; "Third"]
  /\ map step_id
         (steps (parse_text simple_nlp
                   (unlines ["1. First step"; ""; "  2) Second step "; "Third"; "3."])))
     = map Z.of_nat (seq 1 (List.length ["First step"; "Second step"; "Third"])).
Proof.
  apply (proj2 (parse_text_segmentation simple_nlp
                  (unlines ["1. First step"; ""; "  2) Second step "; "Third"; "3."]))
           ["1. First step"; ""; "  2) Second step "; "Third"; "3."]
           ["First step"; "Second step"; "Third"]).
  - split; [reflexivity|]. split; [discriminate|]. repeat constructor.
  - apply survivors_keep; [|discriminate|].
    { exists "1. First step", "First step".
      split; [trims_with "" ""|]. split; [marked_with "" "1" "."%char " "|].
      trims_with "" "". }
    apply survivors_drop.
    { exists "", "". split; [trims_with "" ""|]. split; [unmarked|]. trims_with "" "". }
    apply survivors_keep; [|discriminate|].
    { exists "2) Second step", "Second step".
      split; [trims_with "  " " "|]. split; [marked_with "" "2" ")"%char " "|].
      trims_with "" "". }
    apply survivors_keep; [|discriminate|].
    { exists "Third", "Third".
      split; [trims_with "" ""|]. split; [unmarked|]. trims_with "" "". }
    apply survivors_drop.
    { exists "3.", "". split; [trims_with "" ""|]. split; [marked_with "" "3" "."%char ""|].
      trims_with "" "". }
    apply survivors_nil.
Defined.
